(** * duoyinzi_MCP: the numeric core of the multi-factor evaluation pipeline

    A shallow embedding of the algorithm layer
    ([modules/algorithm_layer/*.py]): the lower-bound level membership
    function, the TOPSIS and VIKOR aggregations and the binary-semantic
    grade assessment.

    Conventions of the embedding.
    - Python [float] (and [int] used as a number) is read as a real number:
      [+ - * /] are the field operations of [R], comparisons are the order of
      [R], [np.sqrt] is [sqrt] on non-negative arguments.  Rounding error,
      infinities and NaN are outside the model; the one sample computation
      whose third decimal matters is run again on binary64 floats.
    - A Python [int] used as an index or a level is a [Z].
    - A raised exception is a [Raise e]; every function that can raise
      returns a [result].
    - A [dict] is an association list in insertion order; [d[k] = v] is
      [dict_set].
    - A 2-D [np.ndarray] is the list of its rows together with its shape. *)

From Stdlib Require DecimalString DecimalNat.
From Stdlib Require Import Floats String Reals Lra Lia ZArith Bool List.
Import ListNotations.

Set Warnings "-inexact-float".
Open Scope R_scope.

(** ** Exceptions and the error monad *)

Inductive exn : Set :=
| ValueError
| IndexError
| KeyError
| StopIteration
| ZeroDivisionError.

Inductive result (A : Type) : Type :=
| Ok (a : A)
| Raise (e : exn).

Arguments Ok {A} a.
Arguments Raise {A} e.

Definition bind {A B : Type} (c : result A) (k : A -> result B) : result B :=
  match c with
  | Ok a => k a
  | Raise e => Raise e
  end.

Notation "'do' x <- c ; k" := (bind c (fun x => k))
  (at level 10, x name, c at level 100, k at level 200).

Definition is_ok {A : Type} (c : result A) : bool :=
  match c with Ok _ => true | Raise _ => false end.

(** ** Comparisons of numbers, as the booleans Python computes *)

Definition Rgeb (x y : R) : bool := if Rge_dec x y then true else false.
Definition Rgtb (x y : R) : bool := if Rgt_dec x y then true else false.
Definition Rleb (x y : R) : bool := if Rle_dec x y then true else false.
Definition Rltb (x y : R) : bool := if Rlt_dec x y then true else false.
Definition Reqb (x y : R) : bool := if Req_dec_T x y then true else false.

Infix ">=?" := Rgeb (at level 70, no associativity) : R_scope.
Infix ">?" := Rgtb (at level 70, no associativity) : R_scope.
Infix "<=?" := Rleb (at level 70, no associativity) : R_scope.
Infix "<?" := Rltb (at level 70, no associativity) : R_scope.
Infix "=?" := Reqb (at level 70, no associativity) : R_scope.

(** ** Python lists *)

(** [l[i]] for a Python list: a negative index counts from the end, an index
    out of range raises [IndexError]. *)
Definition py_getitem {A : Type} (l : list A) (i : Z) : result A :=
  let n := Z.of_nat (length l) in
  let j := if (i <? 0)%Z then (i + n)%Z else i in
  if ((j <? 0) || (n <=? j))%Z then Raise IndexError
  else match nth_error l (Z.to_nat j) with
       | Some a => Ok a
       | None => Raise IndexError
       end.

(** ** membership_functions.py *)

(** [LowerBoundMembershipFunctions.lower_bound_level_membership], the branch
    taken for a scalar [x] ([isinstance(x, (int, float))]). *)
Definition lower_bound_level_membership
    (x : R) (level_params : list R) (level_index total_levels : Z) : result R :=
  if ((level_index <? 1) || (level_index >? total_levels))%Z then Raise ValueError
  else if negb (Z.of_nat (length level_params) =? total_levels)%Z then Raise ValueError
  else
    do a_current <- py_getitem level_params (level_index - 1);
    if (level_index =? 1)%Z then
      do a_next <- (if (total_levels >? 1)%Z then py_getitem level_params 1 else Ok 0);
      if x >=? a_current then Ok 1
      else if (a_next <=? x) && (x <? a_current) then
        Ok ((x - a_next) / (a_current - a_next))
      else Ok 0
    else if (level_index =? total_levels)%Z then
      do a_prev <- py_getitem level_params (level_index - 2);
      if x >=? a_prev then
        (if x >? 0 then Ok (a_prev / x) else Ok 0)
      else if (a_current <=? x) && (x <? a_prev) then Ok 1
      else
        if x <=? 0 then Ok 1
        else (if a_current >? 0 then Ok (x / a_current) else Ok 0)
    else
      do a_prev <- py_getitem level_params (level_index - 2);
      do a_next <- py_getitem level_params level_index;
      if x >=? a_prev then
        (if x >? 0 then Ok (a_prev / x) else Ok 0)
      else if (a_current <=? x) && (x <? a_prev) then Ok 1
      else if (a_next <=? x) && (x <? a_current) then
        Ok ((x - a_next) / (a_current - a_next))
      else Ok 0.

(** The thresholds of the specification: [th a k] is a_k, counted from 1
    (and 0 beyond the end of the list). *)
Definition th (a : list R) (k : Z) : R := nth (Z.to_nat (k - 1)) a 0.

(** a_1 > a_2 > ... > a_h. *)
Fixpoint strictly_decreasing (a : list R) : Prop :=
  match a with
  | [] => True
  | a1 :: t =>
      match t with
      | [] => True
      | a2 :: _ => a1 > a2 /\ strictly_decreasing t
      end
  end.

(** ** Python dicts and loops *)

(** A dict in insertion order.  Its keys are pairwise distinct ([dict_wf]). *)
Definition dict (V : Type) : Type := list (string * V).

Definition dict_wf {V : Type} (d : dict V) : Prop := NoDup (map fst d).

(** [d[k] = v]: an existing key keeps its place, a new key goes last. *)
Fixpoint dict_set {V : Type} (d : dict V) (k : string) (v : V) : dict V :=
  match d with
  | [] => [(k, v)]
  | (k', v') :: t =>
      if String.eqb k' k then (k', v) :: t else (k', v') :: dict_set t k v
  end.

(** [next(iter(d.values()))]. *)
Definition first_value {V : Type} (d : dict V) : result V :=
  match d with
  | [] => Raise StopIteration
  | (_, v) :: _ => Ok v
  end.

(** [for k, v in items: out[k] = f(k, v)], where [f] may raise. *)
Fixpoint for_items {V W : Type} (f : string -> V -> result W)
    (items : dict V) (out : dict W) : result (dict W) :=
  match items with
  | [] => Ok out
  | (k, v) :: t => do w <- f k v; for_items f t (dict_set out k w)
  end.

(** [for i in l: acc.append(f(i))], where [f] may raise. *)
Fixpoint for_each {A B : Type} (f : A -> result B) (l : list A) : result (list B) :=
  match l with
  | [] => Ok []
  | a :: t => do b <- f a; do bs <- for_each f t; Ok (b :: bs)
  end.

(** [enumerate(l, start)]. *)
Fixpoint enumerate {A : Type} (start : Z) (l : list A) : list (Z * A) :=
  match l with
  | [] => []
  | a :: t => (start, a) :: enumerate (start + 1) t
  end.

(** ** numpy arrays *)

Fixpoint zip_with {A B C : Type} (f : A -> B -> C) (xs : list A) (ys : list B) : list C :=
  match xs, ys with
  | x :: xs', y :: ys' => f x y :: zip_with f xs' ys'
  | _, _ => []
  end.

(** An elementwise binary operation on two 1-D arrays, with numpy's
    broadcasting: equal lengths go pairwise, a length-1 array is stretched
    to the other's length, anything else raises [ValueError]. *)
Definition np_broadcast (f : R -> R -> R) (xs ys : list R) : result (list R) :=
  if (length xs =? length ys)%nat then Ok (zip_with f xs ys)
  else
    match xs, ys with
    | [x], _ => Ok (map (f x) ys)
    | _, [y] => Ok (map (fun x => f x y) xs)
    | _, _ => Raise ValueError
    end.

Definition np_add : list R -> list R -> result (list R) := np_broadcast Rplus.
Definition np_sub : list R -> list R -> result (list R) := np_broadcast Rminus.
Definition np_mul : list R -> list R -> result (list R) := np_broadcast Rmult.

Definition np_square (xs : list R) : list R := map (fun x => x ^ 2) xs.
Definition np_ones (n : nat) : list R := repeat 1 n.
Definition np_zeros (n : nat) : list R := repeat 0 n.
Definition np_zeros_like (xs : list R) : list R := np_zeros (length xs).
Definition np_sum (xs : list R) : R := fold_left Rplus xs 0.

(** [np.max] and [np.min] raise [ValueError] on an empty array. *)
Definition np_max (xs : list R) : result R :=
  match xs with
  | [] => Raise ValueError
  | x :: t => Ok (fold_left Rmax t x)
  end.

Definition np_min (xs : list R) : result R :=
  match xs with
  | [] => Raise ValueError
  | x :: t => Ok (fold_left Rmin t x)
  end.

(** A 2-D array: its shape and its rows.  [ndarray_wf] is the invariant of
    the type: as many rows as the shape says, each of the width it says. *)
Record ndarray : Type := mk_ndarray {
  nrows : nat;
  ncols : nat;
  rows : list (list R)
}.

Definition ndarray_wf (m : ndarray) : Prop :=
  length (rows m) = nrows m /\ Forall (fun r => length r = ncols m) (rows m).

(** [matrix[:, j]] for [j >= 0]. *)
Definition column (matrix : ndarray) (j : nat) : result (list R) :=
  if (j <? ncols matrix)%nat then Ok (map (fun r => nth j r 0) (rows matrix))
  else Raise IndexError.

(** [weights = [1.0 / num_factors] * num_factors] when [weights is None],
    then the length check. *)
Definition resolve_weights (weights : option (list R)) (num_factors : nat)
  : result (list R) :=
  do w <- match weights with
       | Some w => Ok w
       | None =>
           if (num_factors =? 0)%nat then Raise ZeroDivisionError
           else Ok (repeat (1 / INR num_factors) num_factors)
       end;
  if negb (length w =? num_factors)%nat then Raise ValueError else Ok w.

(** ** TOPSIS *)

Record distances : Type := mk_distances {
  D_plus : list R;
  D_minus : list R
}.

(** The module-level [calculate_topsis_comprehensive_membership] of
    membership_functions.py. *)
Definition calculate_topsis_comprehensive_membership
    (normalized_matrices : dict ndarray) (weights : option (list R))
  : result (dict distances) :=
  do sample_matrix <- first_value normalized_matrices;
  let num_factors := nrows sample_matrix in
  let num_levels := ncols sample_matrix in
  do weights <- resolve_weights weights num_factors;
  for_items (fun _ matrix =>
    do ds <- for_each (fun level_idx =>
      do level_memberships <- column matrix level_idx;
      let ideal_positive := np_ones num_factors in
      let ideal_negative := np_zeros num_factors in
      do dp <- np_sub level_memberships ideal_positive;
      do wp <- np_mul weights (np_square dp);
      let distance_positive := sqrt (np_sum wp) in
      do dn <- np_sub level_memberships ideal_negative;
      do wn <- np_mul weights (np_square dn);
      let distance_negative := sqrt (np_sum wn) in
      Ok (distance_positive, distance_negative)) (seq 0 num_levels);
    Ok {| D_plus := map fst ds; D_minus := map snd ds |})
    normalized_matrices [].

Module TOPSISComprehensiveEvaluation.

(** topsis_comprehensive_evaluation.py, [calculate_comprehensive_membership]. *)
Definition calculate_comprehensive_membership
    (normalized_matrices : dict ndarray) (weights : option (list R))
  : result (dict distances) :=
  do sample_matrix <- first_value normalized_matrices;
  let num_factors := nrows sample_matrix in
  let num_levels := ncols sample_matrix in
  do weights <- resolve_weights weights num_factors;
  let weights_array := weights in
  for_items (fun _ matrix =>
    do ds <- for_each (fun level_idx =>
      do level_memberships <- column matrix level_idx;
      let ideal_positive := np_ones num_factors in
      do dp <- np_sub level_memberships ideal_positive;
      do wp <- np_mul weights_array (np_square dp);
      let distance_positive := sqrt (np_sum wp) in
      do wn <- np_mul weights_array (np_square level_memberships);
      let distance_negative := sqrt (np_sum wn) in
      Ok (distance_positive, distance_negative)) (seq 0 num_levels);
    Ok {| D_plus := map fst ds; D_minus := map snd ds |})
    normalized_matrices [].

(** [np.divide(d_negative, d_positive + d_negative, out=zeros, where=sum != 0)]:
    the quotient where the denominator is not 0, the 0 of [out] elsewhere.
    The output has the shape of [d_negative]; a sum of another length
    raises. *)
Definition relative_closeness (d_positive d_negative : list R) : result (list R) :=
  do total <- np_add d_positive d_negative;
  if (length total =? length d_negative)%nat then
    Ok (zip_with (fun dn t => if t =? 0 then 0 else dn / t) d_negative total)
  else Raise ValueError.

(** [get_comprehensive_scores]. *)
Definition get_comprehensive_scores (comprehensive_membership : dict distances)
  : result (dict (list R)) :=
  for_items (fun _ dist => relative_closeness (D_plus dist) (D_minus dist))
    comprehensive_membership [].

(** The body of the loop of [calculate_comprehensive_membership_scores]. *)
Definition normalize_scores (scores : list R) : list R :=
  let total_score := np_sum scores in
  if total_score >? 0 then map (fun s => s / total_score) scores
  else np_zeros_like scores.

(** [calculate_comprehensive_membership_scores]. *)
Definition calculate_comprehensive_membership_scores
    (comprehensive_scores : dict (list R)) : dict (list R) :=
  fold_left (fun out item => dict_set out (fst item) (normalize_scores (snd item)))
    comprehensive_scores [].

End TOPSISComprehensiveEvaluation.

(** ** VIKOR *)

Record vikor_scores : Type := mk_vikor_scores {
  S_values : list R;
  R_values : list R;
  Q_values : list R
}.

Module VIKORComprehensiveEvaluation.

(** The compromise values of one object, from its [S_array] and [R_array]. *)
Definition compromise (v : R) (S_array R_array : list R) : result (list R) :=
  do S_star <- np_min S_array;
  do S_minus <- np_max S_array;
  do R_star <- np_min R_array;
  do R_minus <- np_max R_array;
  let S_diff := S_minus - S_star in
  let R_diff := R_minus - R_star in
  if (S_diff =? 0) && (R_diff =? 0) then Ok (np_zeros_like S_array)
  else if S_diff =? 0 then
    np_add (map (Rmult v) (np_zeros_like S_array))
           (map (fun r => (1 - v) * (r - R_star) / R_diff) R_array)
  else if R_diff =? 0 then
    np_add (map (fun s => v * (s - S_star) / S_diff) S_array)
           (map (Rmult (1 - v)) (np_zeros_like R_array))
  else
    np_add (map (fun s => v * (s - S_star) / S_diff) S_array)
           (map (fun r => (1 - v) * (r - R_star) / R_diff) R_array).

(** vikor_comprehensive_evaluation.py, [calculate_comprehensive_scores];
    [weights = None] and [v = 0.5] are the defaults of the signature. *)
Definition calculate_comprehensive_scores
    (normalized_matrices : dict ndarray) (weights : option (list R)) (v : option R)
  : result (dict vikor_scores) :=
  let v := match v with Some v => v | None => 0.5 end in
  do sample_matrix <- first_value normalized_matrices;
  let num_factors := nrows sample_matrix in
  let num_levels := ncols sample_matrix in
  do weights <- resolve_weights weights num_factors;
  let weights_array := weights in
  for_items (fun _ matrix =>
    do sr <- for_each (fun level_idx =>
      do level_memberships <- column matrix level_idx;
      do regrets <- np_mul weights_array (map (fun m => 1 - m) level_memberships);
      let S := np_sum regrets in
      do R <- np_max regrets;
      Ok (S, R)) (seq 0 num_levels);
    let S_values := map fst sr in
    let R_values := map snd sr in
    do Q_values <- compromise v S_values R_values;
    Ok {| S_values := S_values; R_values := R_values; Q_values := Q_values |})
    normalized_matrices [].

End VIKORComprehensiveEvaluation.

(** ** Grade assessment *)

(** Python's [round(x)] on a float: the nearest integer, a tie going to the
    even one. *)
Definition py_round (x : R) : Z :=
  let f := Zfloor x in
  let d := x - IZR f in
  if d <? 1 / 2 then f
  else if d >? 1 / 2 then (f + 1)%Z
  else if Z.even f then f else (f + 1)%Z.

Record assessment : Type := mk_assessment {
  membership_scores : dict (list R);
  level_characteristic_values : dict R;
  binary_semantic_results : dict (Z * R);
  num_levels : Z;
  num_objects : nat
}.

Module GradeComprehensiveAssessment.

(** The inner loop of [calculate_level_characteristic_values]:
    [v_value = 0.0; for k, u_jk in enumerate(u_vector, start=1): v_value += k * u_jk]. *)
Definition characteristic_value (u_vector : list R) : R :=
  fold_left (fun v_value item => v_value + IZR (fst item) * snd item)
    (enumerate 1 u_vector) 0.

(** [calculate_level_characteristic_values]. *)
Definition calculate_level_characteristic_values
    (membership_scores : dict (list R)) : dict R :=
  fold_left (fun out item => dict_set out (fst item) (characteristic_value (snd item)))
    membership_scores [].

(** The body of the loop of [perform_binary_semantic_assessment]. *)
Definition binary_semantic (v_value : R) (num_levels : Z) : Z * R :=
  let k := py_round v_value in
  let k := Z.max 1 (Z.min k num_levels) in
  let alpha := v_value - IZR k in
  (k, alpha).

(** [perform_binary_semantic_assessment]. *)
Definition perform_binary_semantic_assessment
    (level_characteristic_values : dict R) (num_levels : Z) : dict (Z * R) :=
  fold_left (fun out item => dict_set out (fst item) (binary_semantic (snd item) num_levels))
    level_characteristic_values [].

(** [generate_comprehensive_assessment_report] builds a text that the
    numeric results do not depend on; of it the embedding keeps what can
    stop the assessment: [next(iter(membership_scores.values()))] raises on
    an empty dict, and the lookups [level_characteristic_values[obj_name]]
    and [binary_semantic_results[obj_name]] raise on a missing key. *)
Definition generate_comprehensive_assessment_report
    (membership_scores : dict (list R)) (level_characteristic_values : dict R)
    (binary_semantic_results : dict (Z * R)) : result unit :=
  do _ <- first_value membership_scores;
  do _ <- for_each (fun item =>
    if existsb (fun kv => String.eqb (fst kv) (fst item)) level_characteristic_values
       && existsb (fun kv => String.eqb (fst kv) (fst item)) binary_semantic_results
    then Ok tt else Raise KeyError) membership_scores;
  Ok tt.

(** [assess_comprehensive_grade] (the report text is left out of the result). *)
Definition assess_comprehensive_grade
    (membership_scores : dict (list R)) (num_levels : Z) : result assessment :=
  let level_characteristic_values :=
    calculate_level_characteristic_values membership_scores in
  let binary_semantic_results :=
    perform_binary_semantic_assessment level_characteristic_values num_levels in
  do _ <- generate_comprehensive_assessment_report
         membership_scores level_characteristic_values binary_semantic_results;
  Ok {| membership_scores := membership_scores;
        level_characteristic_values := level_characteristic_values;
        binary_semantic_results := binary_semantic_results;
        num_levels := num_levels;
        num_objects := length membership_scores |}.

End GradeComprehensiveAssessment.

(** The three calls that perform_topsis_comprehensive_evaluation (main.py)
    chains: the distances, the relative closeness V and the comprehensive
    membership U. *)
Definition topsis_chain
    (normalized_matrices : dict ndarray) (weights : option (list R))
  : result (dict distances * dict (list R) * dict (list R)) :=
  do comprehensive_membership <-
    TOPSISComprehensiveEvaluation.calculate_comprehensive_membership
      normalized_matrices weights;
  do comprehensive_scores <-
    TOPSISComprehensiveEvaluation.get_comprehensive_scores comprehensive_membership;
  let membership_scores :=
    TOPSISComprehensiveEvaluation.calculate_comprehensive_membership_scores
      comprehensive_scores in
  Ok (comprehensive_membership, comprehensive_scores, membership_scores).

(** ** The formulas of the specification *)

(** membership[factor, level], both counted from 0. *)
Definition entry (m : ndarray) (f j : nat) : R := nth j (nth f (rows m) []) 0.

(** The sum of [F k] for k = 0 .. n-1. *)
Definition big_sum (n : nat) (F : nat -> R) : R :=
  fold_right Rplus 0 (map F (seq 0 n)).

(** The weights in force: the list supplied, or 1/num_factors for each
    factor. *)
Definition weights_in_force (weights : option (list R)) (num_factors : nat) : list R :=
  match weights with
  | Some w => w
  | None => repeat (1 / INR num_factors) num_factors
  end.

(** A dict of factor x level matrices of one shape. *)
Definition matrices_wf (d : dict ndarray) (num_factors num_levels : nat) : Prop :=
  d <> [] /\ dict_wf d /\
  forall name m, In (name, m) d ->
    ndarray_wf m /\ nrows m = num_factors /\ ncols m = num_levels.

(** The weights fit the factors: one non-negative weight per factor, or none
    supplied and at least one factor to share the unit. *)
Definition weights_fit (weights : option (list R)) (num_factors : nat) : Prop :=
  match weights with
  | Some w => length w = num_factors /\ Forall (fun x => 0 <= x) w
  | None => num_factors <> 0%nat
  end.

Module TopsisSpec.
Section Object.

Variables (w : list R) (m : ndarray).

(** D+[level] = sqrt(sum over factors of weight * (membership - 1)^2). *)
Definition Dp (j : nat) : R :=
  sqrt (big_sum (nrows m) (fun f => nth f w 0 * (entry m f j - 1) ^ 2)).

(** D-[level] = sqrt(sum over factors of weight * membership^2). *)
Definition Dm (j : nat) : R :=
  sqrt (big_sum (nrows m) (fun f => nth f w 0 * entry m f j ^ 2)).

(** V[level] = D- / (D+ + D-), and 0 when the denominator is 0. *)
Definition V (j : nat) : R :=
  if Dp j + Dm j =? 0 then 0 else Dm j / (Dp j + Dm j).

(** U[level] = V[level] / sum over levels of V, and 0 when the sum is 0. *)
Definition U (j : nat) : R :=
  if big_sum (ncols m) V =? 0 then 0 else V j / big_sum (ncols m) V.

End Object.
End TopsisSpec.


(** The dicts that the formulas give for a dict of matrices. *)
Definition distances_by_formula (w : list R) (num_levels : nat) (d : dict ndarray)
  : dict distances :=
  map (fun kv => (fst kv,
                  {| D_plus := map (TopsisSpec.Dp w (snd kv)) (seq 0 num_levels);
                     D_minus := map (TopsisSpec.Dm w (snd kv)) (seq 0 num_levels) |})) d.

Definition levels_by_formula (F : ndarray -> nat -> R) (num_levels : nat)
    (d : dict ndarray) : dict (list R) :=
  map (fun kv => (fst kv, map (F (snd kv)) (seq 0 num_levels))) d.


(** The largest and the smallest of [F k] for k = 0 .. n-1 (0 when n = 0). *)
Definition big_max (n : nat) (F : nat -> R) : R :=
  match n with
  | O => 0
  | S n' => fold_left Rmax (map F (seq 1 n')) (F O)
  end.

Definition big_min (n : nat) (F : nat -> R) : R :=
  match n with
  | O => 0
  | S n' => fold_left Rmin (map F (seq 1 n')) (F O)
  end.

(** [x] is the largest (smallest) of [F k] for k < n. *)
Definition is_max_of (n : nat) (F : nat -> R) (x : R) : Prop :=
  (exists k, (k < n)%nat /\ F k = x) /\ forall k, (k < n)%nat -> F k <= x.

Definition is_min_of (n : nat) (F : nat -> R) (x : R) : Prop :=
  (exists k, (k < n)%nat /\ F k = x) /\ forall k, (k < n)%nat -> x <= F k.

(** A ratio that is 0 when its denominator is 0. *)
Definition ratio_or_zero (num den : R) : R := if den =? 0 then 0 else num / den.

Module VikorSpec.
Section Object.

Variables (w : list R) (v : R) (m : ndarray).

(** weight * (1 - membership[factor, level]). *)
Definition regret (j f : nat) : R := nth f w 0 * (1 - entry m f j).

(** S[level], the sum over the factors, and R[level], their maximum. *)
Definition S_level (j : nat) : R := big_sum (nrows m) (regret j).
Definition R_level (j : nat) : R := big_max (nrows m) (regret j).

Definition S_star : R := big_min (ncols m) S_level.
Definition S_minus : R := big_max (ncols m) S_level.
Definition R_star : R := big_min (ncols m) R_level.
Definition R_minus : R := big_max (ncols m) R_level.

(** Q[level] = v (S - S* )/(S- - S* ) + (1 - v) (R - R* )/(R- - R* ). *)
Definition Q_level (j : nat) : R :=
  v * ratio_or_zero (S_level j - S_star) (S_minus - S_star) +
  (1 - v) * ratio_or_zero (R_level j - R_star) (R_minus - R_star).

End Object.
End VikorSpec.

Definition vikor_by_formula (w : list R) (v : R) (num_levels : nat) (d : dict ndarray)
  : dict vikor_scores :=
  map (fun kv => (fst kv,
                  {| S_values := map (VikorSpec.S_level w (snd kv)) (seq 0 num_levels);
                     R_values := map (VikorSpec.R_level w (snd kv)) (seq 0 num_levels);
                     Q_values := map (VikorSpec.Q_level w v (snd kv)) (seq 0 num_levels) |})) d.

(** The weights have the length of the factors when they are supplied. *)
Definition weights_match (weights : option (list R)) (num_factors : nat) : Prop :=
  match weights with
  | Some w => length w = num_factors
  | None => True
  end.


(** The characteristic value of the specification: the sum over the levels
    k = 1 .. h of k * u_k. *)
Definition expected_level (u : list R) : R :=
  big_sum (length u) (fun k => INR (S k) * nth k u 0).

(** [z] is an integer nearest to [x], and the even one of the two when [x]
    lies halfway. *)
Definition nearest_even (x : R) (z : Z) : Prop :=
  Rabs (x - IZR z) <= 1 / 2 /\ (Rabs (x - IZR z) = 1 / 2 -> Z.even z = true).

(** [k] brought into [lo, hi]. *)
Definition clamp (lo hi k : Z) : Z :=
  if (k <? lo)%Z then lo else if (hi <? k)%Z then hi else k.

(** The grade of a membership vector by the formulas: the level and the
    offset. *)
Definition grade_by_formula (h : Z) (u : list R) : Z * R :=
  let level := clamp 1 h (py_round (expected_level u)) in
  (level, expected_level u - IZR level).


(** The membership of level [i] as a function of x (0 where the call
    raises). *)
Definition membership_value (a : list R) (h i : Z) (x : R) : R :=
  match lower_bound_level_membership x a i h with
  | Ok mu => mu
  | Raise _ => 0
  end.

(** The three shapes of the membership function, once the thresholds around
    the level are read: [p] the previous, [c] the current and [n] the next
    one. *)
Definition first_level (c n x : R) : R :=
  if x >=? c then 1
  else if (n <=? x) && (x <? c) then (x - n) / (c - n)
  else 0.

Definition middle_level (p c n x : R) : R :=
  if x >=? p then (if x >? 0 then p / x else 0)
  else if (c <=? x) && (x <? p) then 1
  else if (n <=? x) && (x <? c) then (x - n) / (c - n)
  else 0.

Definition last_level (p c x : R) : R :=
  if x >=? p then (if x >? 0 then p / x else 0)
  else if (c <=? x) && (x <? p) then 1
  else if x <=? 0 then 1
  else if c >? 0 then x / c else 0.


(** ** Ranges and sample inputs *)

(** A call that returns a value of [0, 1]. *)
Definition in_unit_interval (r : result R) : Prop :=
  exists mu, r = Ok mu /\ 0 <= mu <= 1.

(** Every value of every vector of a dict lies in [0, 1]. *)
Definition all_in_unit_interval (d : dict (list R)) : Prop :=
  forall name vs, In (name, vs) d -> Forall (fun v => 0 <= v <= 1) vs.

(** One object with two factors, the first fully in level 1 and the second
    fully in level 2. *)
Definition two_by_two : dict ndarray :=
  [("T1"%string, {| nrows := 2; ncols := 2; rows := [[1; 0]; [0; 1]] |})].

(** The vector of the first object of test_grade_assessment.py. *)
Definition T1_vector : list R := [0.382; 0.297; 0.205; 0.116].

(** One object with a single factor, fully in level 1. *)
Definition one_factor : dict ndarray :=
  [("T1"%string, {| nrows := 1; ncols := 2; rows := [[1; 0]] |})].

(** The inner loop of [calculate_level_characteristic_values] once more, on
    binary64 floats as Python runs it, for the sample vector. *)
Definition characteristic_value_binary64 (u_vector : list PrimFloat.float)
  : PrimFloat.float :=
  snd (fold_left
         (fun state u_jk =>
            (PrimFloat.add (fst state) 1%float,
             PrimFloat.add (snd state) (PrimFloat.mul (fst state) u_jk)))
         u_vector (1%float, 0%float)).

(** ** Relating the objects of an input dict to those of an output dict *)

(** The output has the objects of the input, in the same order, and [P]
    relates the value of each object to its result. *)
Definition objectwise {V W : Type} (P : V -> W -> Prop) (d : dict V) (out : dict W)
  : Prop :=
  Forall2 (fun kv kv' => fst kv = fst kv' /\ P (snd kv) (snd kv')) d out.

(** Every entry of the matrix lies in [0, 1]. *)
Definition entries_in_unit (m : ndarray) : Prop :=
  Forall (Forall (fun x => 0 <= x <= 1)) (rows m).


(** [x] is the least (greatest) value of the list. *)
Definition least_of (l : list R) (x : R) : Prop :=
  In x l /\ forall y, In y l -> x <= y.

Definition greatest_of (l : list R) (x : R) : Prop :=
  In x l /\ forall y, In y l -> y <= x.


(** ** The array branch of the membership function *)

(** [x[mask]]: the entries of [x] at the True places of the mask. *)
Fixpoint np_select (mask : list bool) (x : list R) : list R :=
  match mask, x with
  | b :: mask', xi :: x' => if b then xi :: np_select mask' x' else np_select mask' x'
  | _, _ => []
  end.

(** [out[mask] = value] for a scalar value. *)
Fixpoint np_set_where (mask : list bool) (out : list R) (value : R) : list R :=
  match mask, out with
  | b :: mask', y :: out' => (if b then value else y) :: np_set_where mask' out' value
  | _, _ => out
  end.

(** The values go to the True places of the mask, in order; there must be
    one value for each True place. *)
Fixpoint np_put (mask : list bool) (out values : list R) : result (list R) :=
  match mask, out with
  | b :: mask', y :: out' =>
      if b then
        match values with
        | v :: values' => do r <- np_put mask' out' values'; Ok (v :: r)
        | [] => Raise ValueError
        end
      else do r <- np_put mask' out' values; Ok (y :: r)
  | _, _ =>
      match values with
      | [] => Ok out
      | _ :: _ => Raise ValueError
      end
  end.

(** [out[mask] = values] for an array of values: a single value is
    broadcast to all True places, otherwise the values are put one by
    one. *)
Definition np_assign (mask : list bool) (out values : list R) : result (list R) :=
  match values with
  | [v] => Ok (np_set_where mask out v)
  | _ => np_put mask out values
  end.

(** [np.where(cond, a, b)] for an array condition and array or scalar
    alternatives of its length. *)
Fixpoint np_where (cond : list bool) (a b : list R) : list R :=
  match cond, a, b with
  | c :: cond', ai :: a', bi :: b' => (if c then ai else bi) :: np_where cond' a' b'
  | _, _, _ => []
  end.

(** [lower_bound_level_membership] for an [x] that is a float array: the
    branch taken when [isinstance(x, (int, float))] is false. *)
Definition lower_bound_level_membership_array
    (x : list R) (level_params : list R) (level_index total_levels : Z)
  : result (list R) :=
  if ((level_index <? 1) || (level_index >? total_levels))%Z then Raise ValueError
  else if negb (Z.of_nat (length level_params) =? total_levels)%Z then Raise ValueError
  else
    do a_current <- py_getitem level_params (level_index - 1);
    if (level_index =? 1)%Z then
      do a_next <- (if (total_levels >? 1)%Z then py_getitem level_params 1 else Ok 0);
      let result := np_zeros_like x in
      let mask1 := map (fun xi => xi >=? a_current) x in
      let mask2 := map (fun xi => (xi >=? a_next) && (xi <? a_current)) x in
      let result := np_set_where mask1 result 1 in
      np_assign mask2 result
        (map (fun xi => (xi - a_next) / (a_current - a_next)) (np_select mask2 x))
    else if (level_index =? total_levels)%Z then
      do a_prev <- py_getitem level_params (level_index - 2);
      let result := np_zeros_like x in
      let mask1 := map (fun xi => xi >=? a_prev) x in
      let mask2 := map (fun xi => (xi >=? a_current) && (xi <? a_prev)) x in
      let mask3 := map (fun xi => xi <? a_current) x in
      do result <- np_assign mask1 result
        (np_where (map (fun xi => xi >? 0) (np_select mask1 x))
                  (map (fun xi => a_prev / xi) (np_select mask1 x))
                  (np_zeros_like (np_select mask1 x)));
      let result := np_set_where mask2 result 1 in
      np_assign mask3 result
        (np_where (map (fun xi => xi <=? 0) (np_select mask3 x))
                  (np_ones (length (np_select mask3 x)))
                  (if a_current >? 0
                   then map (fun xi => xi / a_current) (np_select mask3 x)
                   else np_zeros_like (np_select mask3 x)))
    else
      do a_prev <- py_getitem level_params (level_index - 2);
      do a_next <- py_getitem level_params level_index;
      let result := np_zeros_like x in
      let mask1 := map (fun xi => xi >=? a_prev) x in
      let mask2 := map (fun xi => (xi >=? a_current) && (xi <? a_prev)) x in
      let mask3 := map (fun xi => (xi >=? a_next) && (xi <? a_current)) x in
      do result <- np_assign mask1 result
        (np_where (map (fun xi => xi >? 0) (np_select mask1 x))
                  (map (fun xi => a_prev / xi) (np_select mask1 x))
                  (np_zeros_like (np_select mask1 x)));
      let result := np_set_where mask2 result 1 in
      np_assign mask3 result
        (map (fun xi => (xi - a_next) / (a_current - a_next)) (np_select mask3 x)).


(** ** The matrices of membership_functions.py *)

(** [d[k]] and [k in d]. *)
Fixpoint dict_get {V : Type} (d : dict V) (k : string) : result V :=
  match d with
  | [] => Raise KeyError
  | (k', v) :: t => if String.eqb k' k then Ok v else dict_get t k
  end.

Definition dict_mem {V : Type} (d : dict V) (k : string) : bool :=
  existsb (fun kv => String.eqb (fst kv) k) d.

(** [np.array(matrix)] for a list of rows of numbers: rows of one length
    make a 2-D array, rows of different lengths are refused.  (An empty list
    would make a 1-D array, which [ndarray] does not hold; no caller here
    passes one.) *)
Definition np_array (matrix : list (list R)) : result ndarray :=
  match matrix with
  | [] => Raise ValueError
  | r :: t =>
      if forallb (fun r' => (length r' =? length r)%nat) t
      then Ok {| nrows := length matrix; ncols := length r; rows := matrix |}
      else Raise ValueError
  end.

(** The name of the object at position [obj_idx], [f"T{obj_idx + 1}"]. *)
Definition object_name (obj_idx : nat) : string :=
  ("T" ++ DecimalString.NilEmpty.string_of_uint (Nat.to_uint (obj_idx + 1)))%string.

(** [LowerBoundMembershipFunctions.calculate_normalized_matrix]. *)
Definition calculate_normalized_matrix
    (factors_data : dict (list R)) (factors_params : dict (list R))
  : result (dict ndarray) :=
  do first_data <- py_getitem (map snd factors_data) 0;
  let num_objects := length first_data in
  for_items (fun _ obj_idx =>
    do matrix <- for_each (fun item =>
      let factor_name := fst item in
      let factor_data := snd item in
      if negb (dict_mem factors_params factor_name) then Raise ValueError
      else
        do x_value <- py_getitem factor_data (Z.of_nat obj_idx);
        do level_params <- dict_get factors_params factor_name;
        let total_levels := Z.of_nat (length level_params) in
        for_each (fun level =>
                    lower_bound_level_membership x_value level_params level total_levels)
                 (map Z.of_nat (seq 1 (length level_params))))
      factors_data;
    np_array matrix)
    (map (fun obj_idx => (object_name obj_idx, obj_idx)) (seq 0 num_objects)) [].

(** [get_predefined_factors_params] and [get_sample_factors_data]. *)
Definition get_predefined_factors_params : dict (list R) :=
  [("f1"%string, [15; 10; 5; 2]);
   ("f2"%string, [180; 90; 60; 30]);
   ("f3"%string, [20; 10; 5; 2]);
   ("f4"%string, [3; 2; 1; 0.5])].

Definition get_sample_factors_data : dict (list R) :=
  [("f1"%string, [16.92; 0; 0; 2.0; 20.0; 0; 18.68]);
   ("f2"%string, [160.17; 86.91; 0; 507.12; 618.24; 0; 823.42]);
   ("f3"%string, [70.53; 0; 0; 1.0; 41.63; 9.0; 40.28]);
   ("f4"%string, [3.5; 6.0; 5.5; 6.5; 8.5; 1.5; 3.5])].

(** The data and the parameters fit: the first factor has [n] values, every
    factor has at least as many and has [h] thresholds among the
    parameters. *)
Definition factors_fit (factors_data factors_params : dict (list R)) (n h : nat)
  : Prop :=
  (exists name data rest, factors_data = (name, data) :: rest /\ length data = n) /\
  forall name data, In (name, data) factors_data ->
    (n <= length data)%nat /\
    exists params, dict_get factors_params name = Ok params /\ length params = h.


(** The row of one factor: the membership of [x] in each level 1 .. h. *)
Definition membership_row (x : R) (params : list R) : list R :=
  map (fun level => membership_value params (Z.of_nat (length params)) level x)
      (map Z.of_nat (seq 1 (length params))).

(** The thresholds of a factor ([[]] when it has none). *)
Definition params_of (factors_params : dict (list R)) (name : string) : list R :=
  match dict_get factors_params name with
  | Ok params => params
  | Raise _ => []
  end.

(** The matrix of the object at position [i]: one row per factor. *)
Definition matrix_of_object
    (factors_data factors_params : dict (list R)) (h i : nat) : ndarray :=
  {| nrows := length factors_data;
     ncols := h;
     rows := map (fun item => membership_row (nth i (snd item) 0)
                                (params_of factors_params (fst item)))
                 factors_data |}.


(** ** The check of the level parameters in main.py *)

(** The errors that [validate_membership_config] appends for one field of
    the level parameters: too few parameters (with the number provided), or
    parameters that are not in decreasing order. *)
Inductive config_error : Type :=
| TooFewLevels (field : string) (provided : nat)
| NotDecreasing (field : string).

(** [for i in range(len(params) - 1): if params[i] <= params[i + 1]:
    errors.append(...); break], over the indices still to visit.  Both
    indices are within the list. *)
Fixpoint order_loop (field : string) (params : list R) (indices : list nat)
  : list config_error :=
  match indices with
  | [] => []
  | i :: rest =>
      let current_val := nth i params 0 in
      let next_val := nth (i + 1) params 0 in
      if current_val <=? next_val then [NotDecreasing field]
      else order_loop field params rest
  end.

(** The body of the loop of [validate_membership_config] over the fields,
    for a field of the data set whose parameters are a list of numbers: the
    errors it appends. *)
Definition level_params_errors (field : string) (params : list R)
  : list config_error :=
  let errors := [] in
  let errors :=
    if (length params <? 2)%nat
    then errors ++ [TooFewLevels field (length params)] else errors in
  if (1 <? length params)%nat
  then errors ++ order_loop field params (seq 0 (length params - 1))
  else errors.



(** ** Basic facts *)

Lemma Rgeb_true x y : x >= y -> (x >=? y) = true.
Proof. unfold Rgeb; destruct (Rge_dec x y); tauto. Qed.
Lemma Rgeb_false x y : x < y -> (x >=? y) = false.
Proof. unfold Rgeb; destruct (Rge_dec x y); [lra | reflexivity]. Qed.
Lemma Rgtb_true x y : x > y -> (x >? y) = true.
Proof. unfold Rgtb; destruct (Rgt_dec x y); tauto. Qed.
Lemma Rgtb_false x y : x <= y -> (x >? y) = false.
Proof. unfold Rgtb; destruct (Rgt_dec x y); [lra | reflexivity]. Qed.
Lemma Rleb_true x y : x <= y -> (x <=? y) = true.
Proof. unfold Rleb; destruct (Rle_dec x y); tauto. Qed.
Lemma Rleb_false x y : y < x -> (x <=? y) = false.
Proof. unfold Rleb; destruct (Rle_dec x y); [lra | reflexivity]. Qed.
Lemma Rltb_true x y : x < y -> (x <? y) = true.
Proof. unfold Rltb; destruct (Rlt_dec x y); tauto. Qed.
Lemma Rltb_false x y : y <= x -> (x <? y) = false.
Proof. unfold Rltb; destruct (Rlt_dec x y); [lra | reflexivity]. Qed.
Lemma Reqb_true x y : x = y -> (x =? y) = true.
Proof. unfold Reqb; destruct (Req_dec_T x y); tauto. Qed.
Lemma Reqb_false x y : x <> y -> (x =? y) = false.
Proof. unfold Reqb; destruct (Req_dec_T x y); tauto. Qed.

(** Decide every comparison in the goal, keeping the fact it decided. *)
Ltac Rcases :=
  repeat match goal with
  | |- context [Rgeb ?x ?y] =>
      let H := fresh "C" in
      destruct (Rge_dec x y) as [H | H];
      [rewrite (Rgeb_true x y H) | apply Rnot_ge_lt in H; rewrite (Rgeb_false x y H)]
  | |- context [Rgtb ?x ?y] =>
      let H := fresh "C" in
      destruct (Rgt_dec x y) as [H | H];
      [rewrite (Rgtb_true x y H) | apply Rnot_gt_le in H; rewrite (Rgtb_false x y H)]
  | |- context [Rleb ?x ?y] =>
      let H := fresh "C" in
      destruct (Rle_dec x y) as [H | H];
      [rewrite (Rleb_true x y H) | apply Rnot_le_lt in H; rewrite (Rleb_false x y H)]
  | |- context [Rltb ?x ?y] =>
      let H := fresh "C" in
      destruct (Rlt_dec x y) as [H | H];
      [rewrite (Rltb_true x y H) | apply Rnot_lt_le in H; rewrite (Rltb_false x y H)]
  | |- context [Reqb ?x ?y] =>
      let H := fresh "C" in
      destruct (Req_dec_T x y) as [H | H];
      [rewrite (Reqb_true x y H) | rewrite (Reqb_false x y H)]
  end; cbn [andb orb negb].

Lemma py_getitem_nth {A : Type} (l : list A) (i : Z) (d : A) :
  (0 <= i < Z.of_nat (length l))%Z ->
  py_getitem l i = Ok (nth (Z.to_nat i) l d).
Proof.
  intros Hi. unfold py_getitem.
  replace (i <? 0)%Z with false by lia.
  replace ((i <? 0) || (Z.of_nat (length l) <=? i))%Z with false by lia.
  destruct (nth_error l (Z.to_nat i)) as [a |] eqn:E.
  - now rewrite (nth_error_nth _ _ d E).
  - apply nth_error_None in E. lia.
Qed.

Lemma strictly_decreasing_step (a : list R) (k : nat) :
  strictly_decreasing a -> (S k < length a)%nat ->
  nth k a 0 > nth (S k) a 0.
Proof.
  revert k. induction a as [| a1 t IH]; intros k Hd Hk; [simpl in Hk; lia |].
  destruct t as [| a2 t']; [simpl in Hk; lia |].
  destruct Hd as [H12 Hd]. destruct k as [| k]; [exact H12 |].
  change (nth k (a2 :: t') 0 > nth (S k) (a2 :: t') 0).
  apply IH; [exact Hd | simpl in *; lia].
Qed.

Lemma th_step (a : list R) (k : Z) :
  strictly_decreasing a -> (1 <= k < Z.of_nat (length a))%Z ->
  th a k > th a (k + 1).
Proof.
  intros Hd Hk. unfold th.
  replace (Z.to_nat (k + 1 - 1)) with (S (Z.to_nat (k - 1))) by lia.
  apply strictly_decreasing_step; [exact Hd | lia].
Qed.

(** ** The membership function *)

Section Membership.

Variables (x : R) (a : list R) (h : Z).
Hypothesis Hlen : Z.of_nat (length a) = h.

(** Past the two checks, the function reads its thresholds at a_(i-1), a_i,
    a_(i+1). *)
Lemma membership_first :
  (1 <= h)%Z ->
  lower_bound_level_membership x a 1 h =
    if x >=? th a 1 then Ok 1
    else if (th a 2 <=? x) && (x <? th a 1) then
      Ok ((x - th a 2) / (th a 1 - th a 2))
    else Ok 0.
Proof.
  intros Hh. unfold lower_bound_level_membership.
  replace ((1 <? 1) || (1 >? h))%Z with false by lia.
  replace (Z.of_nat (length a) =? h)%Z with true by lia. cbn [negb].
  rewrite (py_getitem_nth a (1 - 1) 0) by lia. cbn [bind].
  replace (1 =? 1)%Z with true by lia.
  destruct (h >? 1)%Z eqn:E.
  - rewrite (py_getitem_nth a 1 0) by lia. reflexivity.
  - cbn [bind]. unfold th. assert (length a = 1%nat) as L by lia.
    destruct a as [| a1 [| a2 t]]; simpl in L; try lia. reflexivity.
Qed.

Lemma membership_middle (i : Z) :
  (1 < i < h)%Z ->
  lower_bound_level_membership x a i h =
    if x >=? th a (i - 1) then (if x >? 0 then Ok (th a (i - 1) / x) else Ok 0)
    else if (th a i <=? x) && (x <? th a (i - 1)) then Ok 1
    else if (th a (i + 1) <=? x) && (x <? th a i) then
      Ok ((x - th a (i + 1)) / (th a i - th a (i + 1)))
    else Ok 0.
Proof.
  intros Hi. unfold lower_bound_level_membership.
  replace ((i <? 1) || (i >? h))%Z with false by lia.
  replace (Z.of_nat (length a) =? h)%Z with true by lia. cbn [negb].
  rewrite (py_getitem_nth a (i - 1) 0) by lia. cbn [bind].
  replace (i =? 1)%Z with false by lia.
  replace (i =? h)%Z with false by lia.
  rewrite (py_getitem_nth a (i - 2) 0) by lia. cbn [bind].
  rewrite (py_getitem_nth a i 0) by lia. cbn [bind].
  unfold th. replace (i - 1 - 1)%Z with (i - 2)%Z by lia.
  replace (i + 1 - 1)%Z with i by lia. reflexivity.
Qed.

Lemma membership_last :
  (1 < h)%Z ->
  lower_bound_level_membership x a h h =
    if x >=? th a (h - 1) then (if x >? 0 then Ok (th a (h - 1) / x) else Ok 0)
    else if (th a h <=? x) && (x <? th a (h - 1)) then Ok 1
    else if x <=? 0 then Ok 1
    else if th a h >? 0 then Ok (x / th a h) else Ok 0.
Proof.
  intros Hh. unfold lower_bound_level_membership.
  replace ((h <? 1) || (h >? h))%Z with false by lia.
  replace (Z.of_nat (length a) =? h)%Z with true by lia. cbn [negb].
  rewrite (py_getitem_nth a (h - 1) 0) by lia. cbn [bind].
  replace (h =? 1)%Z with false by lia.
  replace (h =? h)%Z with true by lia.
  rewrite (py_getitem_nth a (h - 2) 0) by lia. cbn [bind].
  unfold th. replace (h - 1 - 1)%Z with (h - 2)%Z by lia. reflexivity.
Qed.

End Membership.

(** C1.  For strictly decreasing thresholds a_1 > ... > a_h and every x the
    function computes the piecewise formulas of the three level kinds:
    level 1 (1 at or above a_1, the interpolation between a_2 and a_1, 0
    otherwise; with h = 1, a_2 is read as 0), a middle level (a_(i-1)/x at or
    above a_(i-1) when x > 0 and 0 when x <= 0, 1 between a_i and a_(i-1),
    the interpolation between a_(i+1) and a_i, 0 otherwise) and level h
    (as a middle level above a_h; below a_h: 1 when x <= 0, else x/a_h when
    a_h > 0, else 0). *)
Theorem membership_piecewise (x : R) (a : list R) (h i : Z) :
  strictly_decreasing a ->
  Z.of_nat (length a) = h ->
  (1 <= i <= h)%Z ->
  let mu := lower_bound_level_membership x a i h in
  (i = 1%Z ->
     (x >= th a 1 -> mu = Ok 1) /\
     (th a 2 <= x < th a 1 -> mu = Ok ((x - th a 2) / (th a 1 - th a 2))) /\
     (~ x >= th a 1 -> ~ th a 2 <= x < th a 1 -> mu = Ok 0)) /\
  ((1 < i < h)%Z ->
     (x >= th a (i - 1) -> x > 0 -> mu = Ok (th a (i - 1) / x)) /\
     (x >= th a (i - 1) -> x <= 0 -> mu = Ok 0) /\
     (th a i <= x < th a (i - 1) -> mu = Ok 1) /\
     (th a (i + 1) <= x < th a i ->
        mu = Ok ((x - th a (i + 1)) / (th a i - th a (i + 1)))) /\
     (x < th a (i + 1) -> mu = Ok 0)) /\
  ((1 < i)%Z -> i = h ->
     (x >= th a (h - 1) -> x > 0 -> mu = Ok (th a (h - 1) / x)) /\
     (x >= th a (h - 1) -> x <= 0 -> mu = Ok 0) /\
     (th a h <= x < th a (h - 1) -> mu = Ok 1) /\
     (x < th a h -> x <= 0 -> mu = Ok 1) /\
     (x < th a h -> x > 0 -> th a h > 0 -> mu = Ok (x / th a h)) /\
     (x < th a h -> x > 0 -> th a h <= 0 -> mu = Ok 0)).
Proof.
  intros Hd Hlen Hi mu. subst mu. split; [| split].
  - intros ->. rewrite (membership_first x a h Hlen) by lia.
    repeat apply conj; intros; Rcases; trivial; lra.
  - intros Hm. rewrite (membership_middle x a h Hlen) by lia.
    pose proof (th_step a (i - 1) Hd ltac:(lia)) as P.
    replace (i - 1 + 1)%Z with i in P by lia.
    pose proof (th_step a i Hd ltac:(lia)) as P'.
    repeat apply conj; intros; Rcases; trivial; lra.
  - intros H1 ->. rewrite (membership_last x a h Hlen) by lia.
    pose proof (th_step a (h - 1) Hd ltac:(lia)) as P.
    replace (h - 1 + 1)%Z with h in P by lia.
    repeat apply conj; intros; Rcases; trivial; lra.
Qed.

Lemma membership_piecewise_witness :
  strictly_decreasing [15; 10; 5; 2] /\
  (1 <= 2 <= 4)%Z /\
  lower_bound_level_membership 8 [15; 10; 5; 2] 2 4 = Ok ((8 - 5) / (10 - 5)).
Proof.
  assert (Hd : strictly_decreasing [15; 10; 5; 2]) by (simpl; lra).
  split; [exact Hd | split; [lia |]].
  destruct (membership_piecewise 8 [15; 10; 5; 2] 4 2 Hd eq_refl ltac:(lia))
    as (_ & Hm & _).
  destruct (Hm ltac:(lia)) as (_ & _ & _ & Hi & _).
  change (th [15; 10; 5; 2] (2 + 1)) with 5 in Hi.
  change (th [15; 10; 5; 2] 2) with 10 in Hi.
  apply Hi. lra.
Defined.

(** *** The range of the membership function *)

Lemma th_nonneg (a : list R) (k : Z) :
  Forall (fun t => 0 <= t) a -> 0 <= th a k.
Proof.
  intros Ha. unfold th.
  destruct (nth_in_or_default (Z.to_nat (k - 1)) a 0) as [Hin | ->]; [| lra].
  rewrite Forall_forall in Ha. exact (Ha _ Hin).
Qed.

Lemma ratio_unit_interval (p q : R) : 0 <= p <= q -> 0 < q -> 0 <= p / q <= 1.
Proof.
  intros Hp Hq. pose proof (Rinv_0_lt_compat q Hq) as Hi.
  assert (q * / q = 1) as E by (apply Rinv_r; lra).
  unfold Rdiv. split; nra.
Qed.

Lemma in_unit_interval_Ok (mu : R) : 0 <= mu <= 1 -> in_unit_interval (Ok mu).
Proof. intros Hm. exists mu. split; [reflexivity | exact Hm]. Qed.

(** Only the hyperbolic branch a_(i-1)/x looks at the sign of a threshold:
    level 1 lies in [0, 1] whatever the thresholds are, and a level i >= 2
    does as soon as a_(i-1) is not negative. *)
Lemma membership_range_level (x : R) (a : list R) (h i : Z) :
  Z.of_nat (length a) = h ->
  (1 <= i <= h)%Z ->
  i = 1%Z \/ 0 <= th a (i - 1) ->
  in_unit_interval (lower_bound_level_membership x a i h).
Proof.
  intros Hlen Hi Hsign.
  assert (i = 1 \/ 1 < i < h \/ (1 < i /\ i = h))%Z as [-> | [Hm | [H1 ->]]] by lia.
  - rewrite (membership_first x a h Hlen) by lia.
    Rcases; apply in_unit_interval_Ok; try lra.
    apply ratio_unit_interval; lra.
  - destruct Hsign as [-> | Hs]; [lia |].
    rewrite (membership_middle x a h Hlen) by lia.
    Rcases; apply in_unit_interval_Ok; try lra;
      apply ratio_unit_interval; lra.
  - destruct Hsign as [E | Hs]; [lia |].
    rewrite (membership_last x a h Hlen) by lia.
    Rcases; apply in_unit_interval_Ok; try lra;
      apply ratio_unit_interval; lra.
Qed.

(** With non-negative thresholds every branch lands in [0, 1]. *)
Lemma membership_range (x : R) (a : list R) (h i : Z) :
  strictly_decreasing a ->
  Forall (fun t => 0 <= t) a ->
  Z.of_nat (length a) = h ->
  (1 <= i <= h)%Z ->
  in_unit_interval (lower_bound_level_membership x a i h).
Proof.
  intros _ Hpos Hlen Hi. apply membership_range_level; trivial.
  right. now apply th_nonneg.
Qed.

(** With a_(i-1) < 0 the hyperbolic branch of level i returns a_(i-1)/x < 0
    at x = 1. *)
Lemma membership_below_zero (a : list R) (h i : Z) :
  Z.of_nat (length a) = h -> (1 < i <= h)%Z -> th a (i - 1) < 0 ->
  lower_bound_level_membership 1 a i h = Ok (th a (i - 1) / 1).
Proof.
  intros Hlen Hi Hneg.
  assert (1 < i < h \/ i = h)%Z as [Hm | ->] by lia.
  - rewrite (membership_middle 1 a h Hlen i Hm).
    rewrite Rgeb_true by lra. now rewrite Rgtb_true by lra.
  - rewrite (membership_last 1 a h Hlen) by lia.
    rewrite Rgeb_true by lra. now rewrite Rgtb_true by lra.
Qed.

(** A threshold below zero breaks the range: the hyperbolic branch returns
    a_(i-1)/x < 0 for x > 0. *)
Lemma membership_negative_threshold :
  lower_bound_level_membership 1 [-1; -2; -3] 2 3 = Ok (-1 / 1).
Proof.
  rewrite (membership_middle 1 [-1; -2; -3] 3 eq_refl 2) by lia.
  change (th [-1; -2; -3] (2 - 1)) with (-1).
  rewrite Rgeb_true by lra. rewrite Rgtb_true by lra. reflexivity.
Qed.

(** ** Loops and dicts *)

Lemma for_each_ext {A B : Type} (f g : A -> result B) (l : list A) :
  (forall a, In a l -> f a = g a) -> for_each f l = for_each g l.
Proof.
  induction l as [| a t IH]; intros E; [reflexivity |].
  cbn [for_each]. rewrite (E a (or_introl eq_refl)).
  rewrite IH; [reflexivity |]. intros b Hb. apply E. now right.
Qed.

Lemma for_each_map {A B : Type} (f : A -> result B) (g : A -> B) (l : list A) :
  (forall a, In a l -> f a = Ok (g a)) -> for_each f l = Ok (map g l).
Proof.
  induction l as [| a t IH]; intros E; [reflexivity |].
  cbn [for_each map]. rewrite (E a (or_introl eq_refl)). cbn [bind].
  rewrite IH; [reflexivity |]. intros b Hb. apply E. now right.
Qed.

Lemma for_items_ext {V W : Type} (f g : string -> V -> result W) (d : dict V) :
  (forall k v, In (k, v) d -> f k v = g k v) ->
  forall out, for_items f d out = for_items g d out.
Proof.
  induction d as [| [k v] t IH]; intros E out; [reflexivity |].
  cbn [for_items]. rewrite (E k v (or_introl eq_refl)).
  destruct (g k v) as [w | e]; [| reflexivity]. cbn [bind].
  apply IH. intros k' v' H. apply E. now right.
Qed.

Lemma dict_set_fresh {V : Type} (d : dict V) (k : string) (v : V) :
  ~ In k (map fst d) -> dict_set d k v = d ++ [(k, v)].
Proof.
  induction d as [| [k' v'] t IH]; intros Hk; [reflexivity |].
  cbn [dict_set]. destruct (String.eqb_spec k' k) as [-> | _].
  - exfalso. apply Hk. now left.
  - cbn [app]. rewrite IH; [reflexivity |]. intros H. apply Hk. now right.
Qed.

(** Filling an output dict from a dict with distinct keys is a [map]. *)
Lemma for_items_build {V W : Type} (f : string -> V -> result W) (g : V -> W)
    (d : dict V) :
  (forall k v, In (k, v) d -> f k v = Ok (g v)) ->
  forall out,
    NoDup (map fst out ++ map fst d) ->
    for_items f d out = Ok (out ++ map (fun kv => (fst kv, g (snd kv))) d).
Proof.
  induction d as [| [k v] t IH]; intros E out Hnd.
  - cbn. now rewrite app_nil_r.
  - cbn [for_items]. rewrite (E k v (or_introl eq_refl)). cbn [bind].
    cbn [map fst] in Hnd.
    rewrite dict_set_fresh.
    + rewrite IH.
      * cbn [map fst snd]. now rewrite <- app_assoc.
      * intros k' v' H. apply E. now right.
      * rewrite map_app. cbn [map fst]. rewrite <- app_assoc. exact Hnd.
    + apply NoDup_remove_2 in Hnd. intros H. apply Hnd.
      apply in_or_app. now left.
Qed.

Lemma for_items_map {V W : Type} (f : string -> V -> result W) (g : V -> W)
    (d : dict V) :
  dict_wf d ->
  (forall k v, In (k, v) d -> f k v = Ok (g v)) ->
  for_items f d [] = Ok (map (fun kv => (fst kv, g (snd kv))) d).
Proof.
  intros Hwf E. now rewrite (for_items_build f g d E []).
Qed.

Lemma fold_dict_build {V W : Type} (g : V -> W) (d : dict V) :
  forall out,
    NoDup (map fst out ++ map fst d) ->
    fold_left (fun o item => dict_set o (fst item) (g (snd item))) d out =
      out ++ map (fun kv => (fst kv, g (snd kv))) d.
Proof.
  induction d as [| [k v] t IH]; intros out Hnd.
  - cbn. now rewrite app_nil_r.
  - cbn [fold_left fst snd]. cbn [map fst] in Hnd.
    rewrite dict_set_fresh.
    + rewrite IH.
      * cbn [map fst snd]. now rewrite <- app_assoc.
      * rewrite map_app. cbn [map fst]. rewrite <- app_assoc. exact Hnd.
    + apply NoDup_remove_2 in Hnd. intros H. apply Hnd.
      apply in_or_app. now left.
Qed.

Lemma fold_dict_map {V W : Type} (g : V -> W) (d : dict V) :
  dict_wf d ->
  fold_left (fun o item => dict_set o (fst item) (g (snd item))) d [] =
    map (fun kv => (fst kv, g (snd kv))) d.
Proof.
  intros Hwf. now rewrite (fold_dict_build g d []).
Qed.

Lemma dict_wf_map {V W : Type} (g : string * V -> W) (d : dict V) :
  dict_wf d -> dict_wf (map (fun kv => (fst kv, g kv)) d).
Proof.
  unfold dict_wf. rewrite map_map. cbn [fst]. trivial.
Qed.

(** ** numpy arrays *)

Lemma zip_with_length {A B C : Type} (f : A -> B -> C) (xs : list A) (ys : list B) :
  length xs = length ys -> length (zip_with f xs ys) = length xs.
Proof.
  revert ys. induction xs as [| x t IH]; intros [| y ys] H; simpl in *; try lia.
  now rewrite IH by lia.
Qed.

Lemma zip_with_repeat_r {A B C : Type} (f : A -> B -> C) (xs : list A) (y : B) :
  zip_with f xs (repeat y (length xs)) = map (fun x => f x y) xs.
Proof. induction xs as [| x t IH]; [reflexivity |]. cbn. now rewrite IH. Qed.

Lemma zip_with_map {A B C D : Type} (f : B -> C -> D) (g : A -> B) (k : A -> C)
    (l : list A) :
  zip_with f (map g l) (map k l) = map (fun a => f (g a) (k a)) l.
Proof. induction l as [| a t IH]; [reflexivity |]. cbn. now rewrite IH. Qed.

Lemma np_broadcast_same (f : R -> R -> R) (xs ys : list R) :
  length xs = length ys -> np_broadcast f xs ys = Ok (zip_with f xs ys).
Proof.
  intros H. unfold np_broadcast. now rewrite (proj2 (Nat.eqb_eq _ _) H).
Qed.

Lemma np_broadcast_scalar_r (f : R -> R -> R) (xs : list R) (y : R) :
  np_broadcast f xs [y] = Ok (map (fun x => f x y) xs).
Proof.
  unfold np_broadcast. destruct (Nat.eqb_spec (length xs) (length [y])) as [E | E].
  - destruct xs as [| x [| x' t]]; simpl in E; try lia. reflexivity.
  - destruct xs as [| x [| x' t]]; simpl in E; try lia; reflexivity.
Qed.

(** Subtracting the ideal-worst point, an array of zeros, changes nothing. *)
Lemma np_sub_zeros (col : list R) (n : nat) (dn : list R) :
  np_sub col (np_zeros n) = Ok dn ->
  (length col = n /\ dn = col) \/
  (length col <> n /\ n = 1%nat /\ dn = col) \/
  (length col <> n /\ n <> 1%nat /\ exists c, col = [c] /\ dn = repeat c n).
Proof.
  unfold np_sub, np_broadcast, np_zeros. rewrite repeat_length.
  destruct (Nat.eqb_spec (length col) n) as [E | E]; intros H.
  - left. split; [exact E |]. injection H as <-. subst n.
    rewrite zip_with_repeat_r. rewrite <- (map_id col) at 2.
    apply map_ext. intros x. lra.
  - right. destruct col as [| c [| c' t]].
    + destruct n as [| [| n]]; cbn in H; try discriminate.
      left. repeat split; trivial. now injection H as <-.
    + right. repeat split; trivial.
      * intros ->. now cbn in E.
      * exists c. split; [reflexivity |]. injection H as <-.
        rewrite map_repeat. f_equal. lra.
    + destruct n as [| [| n]]; cbn in H; try discriminate.
      left. repeat split; trivial. injection H as <-.
      cbn. f_equal; [lra |]. f_equal; [lra |].
      rewrite <- (map_id t) at 2. apply map_ext. intros x. lra.
Qed.

Lemma np_square_repeat (c : R) (n : nat) :
  np_square (repeat c n) = repeat (c ^ 2) n.
Proof. unfold np_square. apply map_repeat. Qed.

(** The square of the distance to the ideal-worst point, computed by
    membership_functions.py with the subtraction of zeros and by
    topsis_comprehensive_evaluation.py without it. *)
Lemma weighted_squares_agree {B : Type} (w col : list R) (n : nat)
    (k : list R -> result B) :
  length w = n ->
  is_ok (np_sub col (np_ones n)) = true ->
  (do dn <- np_sub col (np_zeros n); do wn <- np_mul w (np_square dn); k wn) =
  (do wn <- np_mul w (np_square col); k wn).
Proof.
  intros Hw Hok.
  destruct (np_sub col (np_zeros n)) as [dn | e] eqn:E.
  - cbn [bind].
    destruct (np_sub_zeros col n dn E) as [[_ ->] | [(_ & _ & ->) | (Hl & Hn & c & -> & ->)]];
      trivial.
    rewrite np_square_repeat. unfold np_mul.
    rewrite np_broadcast_same by (rewrite repeat_length; exact Hw).
    cbn [np_square map]. rewrite np_broadcast_scalar_r.
    subst n. now rewrite zip_with_repeat_r.
  - exfalso. revert Hok E. unfold np_sub, np_broadcast, np_ones, np_zeros.
    rewrite !repeat_length.
    destruct (Nat.eqb_spec (length col) n) as [_ | Hn]; [discriminate |].
    destruct col as [| c [| c' t]]; try discriminate;
      destruct n as [| [| n]]; cbn; discriminate.
Qed.

(** ** TOPSIS *)

Lemma resolve_weights_length (weights : option (list R)) (n : nat) (w : list R) :
  resolve_weights weights n = Ok w -> length w = n.
Proof.
  unfold resolve_weights.
  destruct (match weights with
            | Some w0 => Ok w0
            | None => if (n =? 0)%nat then Raise ZeroDivisionError
                      else Ok (repeat (1 / INR n) n)
            end) as [w0 | e]; [| discriminate].
  cbn [bind]. destruct (Nat.eqb_spec (length w0) n) as [E | E]; [| discriminate].
  cbn [negb]. now intros [= <-].
Qed.

(** C10.  The two implementations of the TOPSIS distances, the module-level
    function of membership_functions.py and the method of
    [TOPSISComprehensiveEvaluation], return the same result (the same D+ and
    D- for every object, or the same exception) on every dict of matrices and
    every weight list. *)
Theorem topsis_implementations_agree
    (normalized_matrices : dict ndarray) (weights : option (list R)) :
  calculate_topsis_comprehensive_membership normalized_matrices weights =
  TOPSISComprehensiveEvaluation.calculate_comprehensive_membership
    normalized_matrices weights.
Proof.
  unfold calculate_topsis_comprehensive_membership,
    TOPSISComprehensiveEvaluation.calculate_comprehensive_membership.
  destruct (first_value normalized_matrices) as [sample | e]; [| reflexivity].
  cbn [bind].
  destruct (resolve_weights weights (nrows sample)) as [w | e] eqn:Ew; [| reflexivity].
  cbn [bind]. apply resolve_weights_length in Ew.
  apply for_items_ext. intros _ matrix _.
  f_equal. apply for_each_ext. intros level_idx _.
  destruct (column matrix level_idx) as [col | e]; [| reflexivity]. cbn [bind].
  destruct (np_sub col (np_ones (nrows sample))) as [dp | e] eqn:Edp; [| reflexivity].
  cbn [bind].
  destruct (np_mul w (np_square dp)) as [wp | e]; [| reflexivity]. cbn [bind].
  apply weighted_squares_agree; [exact Ew | now rewrite Edp].
Qed.

Lemma fold_left_Rplus (l : list R) (acc : R) :
  fold_left Rplus l acc = acc + fold_right Rplus 0 l.
Proof.
  revert acc. induction l as [| x t IH]; intros acc; cbn; [lra |].
  rewrite IH. lra.
Qed.

Lemma np_sum_fold_right (l : list R) : np_sum l = fold_right Rplus 0 l.
Proof. unfold np_sum. rewrite fold_left_Rplus. lra. Qed.

Lemma zip_with_seq {A B C : Type} (f : A -> B -> C) (dx : A) (dy : B)
    (xs : list A) (ys : list B) :
  length xs = length ys ->
  zip_with f xs ys = map (fun k => f (nth k xs dx) (nth k ys dy)) (seq 0 (length xs)).
Proof.
  revert ys. induction xs as [| x t IH]; intros [| y ys] H; simpl in *; try lia;
    [reflexivity |].
  f_equal. rewrite <- seq_shift, map_map. apply IH. lia.
Qed.

Lemma map_seq_nth {A B : Type} (g : A -> B) (d : A) (l : list A) :
  map g l = map (fun k => g (nth k l d)) (seq 0 (length l)).
Proof.
  induction l as [| x t IH]; [reflexivity |].
  cbn [map length seq]. f_equal. rewrite <- seq_shift, map_map. exact IH.
Qed.

Lemma big_sum_ext (n : nat) (F G : nat -> R) :
  (forall k, (k < n)%nat -> F k = G k) -> big_sum n F = big_sum n G.
Proof.
  intros E. unfold big_sum. f_equal. apply map_ext_in.
  intros k Hk. apply in_seq in Hk. apply E. lia.
Qed.

Lemma np_sum_map_seq (n : nat) (F : nat -> R) :
  np_sum (map F (seq 0 n)) = big_sum n F.
Proof. apply np_sum_fold_right. Qed.

Lemma column_entry (m : ndarray) (j f : nat) :
  nth f (map (fun r => nth j r 0) (rows m)) 0 = entry m f j.
Proof.
  unfold entry. generalize (rows m) as l. intros l. revert f.
  induction l as [| r t IH]; intros [| f]; cbn; trivial.
  - now destruct j.
  - now destruct j.
Qed.

Lemma column_wf (m : ndarray) (j : nat) :
  (j < ncols m)%nat ->
  column m j = Ok (map (fun r => nth j r 0) (rows m)).
Proof.
  intros H. unfold column. now rewrite (proj2 (Nat.ltb_lt _ _) H).
Qed.

(** The weighted sum over the factors of [g] of the entries of one level. *)
Lemma weighted_level_sum (g : R -> R) (w : list R) (m : ndarray) (j : nat) :
  length w = nrows m ->
  length (rows m) = nrows m ->
  exists ws,
    np_mul w (map g (map (fun r => nth j r 0) (rows m))) = Ok ws /\
    np_sum ws = big_sum (nrows m) (fun f => nth f w 0 * g (entry m f j)).
Proof.
  intros Hw Hr. unfold np_mul.
  rewrite np_broadcast_same by (now rewrite !length_map, Hr).
  eexists. split; [reflexivity |].
  rewrite (zip_with_seq Rmult 0 (g 0)) by (now rewrite !length_map, Hr).
  rewrite np_sum_map_seq, Hw. apply big_sum_ext. intros f Hf.
  f_equal. rewrite map_nth. f_equal. apply column_entry.
Qed.

Lemma resolve_weights_fit (weights : option (list R)) (n : nat) :
  weights_fit weights n ->
  resolve_weights weights n = Ok (weights_in_force weights n).
Proof.
  unfold weights_fit, resolve_weights, weights_in_force.
  destruct weights as [w |].
  - intros [Hl _]. cbn [bind]. now rewrite (proj2 (Nat.eqb_eq _ _) Hl).
  - intros Hn. rewrite (proj2 (Nat.eqb_neq _ _) Hn). cbn [bind].
    rewrite repeat_length, Nat.eqb_refl. reflexivity.
Qed.

Lemma weights_in_force_length (weights : option (list R)) (n : nat) :
  weights_fit weights n -> length (weights_in_force weights n) = n.
Proof.
  destruct weights as [w |]; cbn; [tauto | intros _; apply repeat_length].
Qed.

Lemma weights_in_force_nonneg (weights : option (list R)) (n : nat) :
  weights_fit weights n -> Forall (fun x => 0 <= x) (weights_in_force weights n).
Proof.
  destruct weights as [w |]; cbn; [tauto |]. intros Hn.
  apply Forall_forall. intros x Hx. apply repeat_spec in Hx. subst x.
  apply Rlt_le, Rdiv_lt_0_compat; [lra |]. apply lt_0_INR. lia.
Qed.

Lemma first_value_wf (d : dict ndarray) (nf nl : nat) :
  matrices_wf d nf nl ->
  exists m, first_value d = Ok m /\ nrows m = nf /\ ncols m = nl.
Proof.
  intros (Hne & _ & Hall). destruct d as [| [name m] t]; [contradiction |].
  exists m. split; [reflexivity |]. apply (Hall name m). now left.
Qed.

Section TopsisObject.

Variables (w : list R) (m : ndarray).
Hypothesis Hw : length w = nrows m.
Hypothesis Hm : ndarray_wf m.

(** One turn of the loop over the levels. *)
Lemma topsis_level (j : nat) :
  (j < ncols m)%nat ->
  (do level_memberships <- column m j;
   do dp <- np_sub level_memberships (np_ones (nrows m));
   do wp <- np_mul w (np_square dp);
   do wn <- np_mul w (np_square level_memberships);
   Ok (sqrt (np_sum wp), sqrt (np_sum wn))) =
  Ok (TopsisSpec.Dp w m j, TopsisSpec.Dm w m j).
Proof.
  intros Hj. destruct Hm as [Hr _].
  rewrite (column_wf m j Hj). cbn [bind].
  set (col := map (fun r => nth j r 0) (rows m)).
  assert (length col = nrows m) as Hc by (unfold col; now rewrite length_map).
  unfold np_sub. rewrite np_broadcast_same by (unfold np_ones; now rewrite repeat_length).
  cbn [bind]. unfold np_ones. rewrite <- Hc, zip_with_repeat_r.
  unfold np_square. rewrite map_map. cbv beta. subst col.
  destruct (weighted_level_sum (fun x => (x - 1) ^ 2) w m j Hw Hr) as (wp & -> & Ep).
  cbn [bind].
  destruct (weighted_level_sum (fun x => x ^ 2) w m j Hw Hr) as (wn & -> & En).
  cbn [bind]. now rewrite Ep, En.
Qed.

End TopsisObject.

Lemma big_sum_nonneg (n : nat) (F : nat -> R) :
  (forall k, (k < n)%nat -> 0 <= F k) -> 0 <= big_sum n F.
Proof.
  unfold big_sum. intros H.
  assert (forall l, (forall k, In k l -> 0 <= F k) ->
                    0 <= fold_right Rplus 0 (map F l)) as G.
  { induction l as [| k t IH]; intros Hl; cbn; [lra |].
    pose proof (Hl k (or_introl eq_refl)).
    pose proof (IH (fun k' Hk' => Hl k' (or_intror Hk'))). lra. }
  apply G. intros k Hk. apply in_seq in Hk. apply H. lia.
Qed.

Lemma big_sum_term_le (n : nat) (F : nat -> R) (j : nat) :
  (forall k, (k < n)%nat -> 0 <= F k) -> (j < n)%nat -> F j <= big_sum n F.
Proof.
  unfold big_sum. intros H Hj.
  assert (forall l, (forall k, In k l -> 0 <= F k) -> In j l ->
                    F j <= fold_right Rplus 0 (map F l)) as G.
  { induction l as [| k t IH]; intros Hl Hin; [contradiction |]. cbn.
    assert (0 <= fold_right Rplus 0 (map F t)) as Ht.
    { clear IH Hin. induction t as [| k' t' IH']; cbn; [lra |].
      pose proof (Hl k' (or_intror (or_introl eq_refl))).
      assert (0 <= fold_right Rplus 0 (map F t')); [| lra].
      apply IH'. intros k0 [-> | Hk0]; apply Hl; [now left | now right; right]. }
    pose proof (Hl k (or_introl eq_refl)).
    destruct Hin as [-> | Hin]; [lra |].
    pose proof (IH (fun k' Hk' => Hl k' (or_intror Hk')) Hin). lra. }
  apply G; [| apply in_seq; lia].
  intros k Hk. apply in_seq in Hk. apply H. lia.
Qed.

Lemma big_sum_scale (n : nat) (F : nat -> R) (c : R) :
  big_sum n (fun k => F k / c) = big_sum n F / c.
Proof.
  unfold big_sum. generalize (seq 0 n) as l.
  induction l as [| k t IH]; cbn; [unfold Rdiv; lra |].
  rewrite IH. unfold Rdiv. lra.
Qed.

Section TopsisValues.

Variables (w : list R) (m : ndarray).

Lemma Dp_nonneg (j : nat) : 0 <= TopsisSpec.Dp w m j.
Proof. apply sqrt_pos. Qed.

Lemma Dm_nonneg (j : nat) : 0 <= TopsisSpec.Dm w m j.
Proof. apply sqrt_pos. Qed.

Lemma V_range (j : nat) : 0 <= TopsisSpec.V w m j <= 1.
Proof.
  unfold TopsisSpec.V. pose proof (Dp_nonneg j). pose proof (Dm_nonneg j).
  Rcases; [lra |]. apply ratio_unit_interval; lra.
Qed.

Lemma V_sum_nonneg : 0 <= big_sum (ncols m) (TopsisSpec.V w m).
Proof. apply big_sum_nonneg. intros k _. apply V_range. Qed.

Lemma U_range (j : nat) : (j < ncols m)%nat -> 0 <= TopsisSpec.U w m j <= 1.
Proof.
  intros Hj. unfold TopsisSpec.U. pose proof V_sum_nonneg.
  Rcases; [lra |]. apply ratio_unit_interval; [| lra].
  split; [apply V_range |].
  apply big_sum_term_le; [| exact Hj]. intros k _. apply V_range.
Qed.

Lemma U_sum (j : nat) :
  (j < ncols m)%nat -> TopsisSpec.V w m j > 0 ->
  big_sum (ncols m) (TopsisSpec.U w m) = 1.
Proof.
  intros Hj Hv.
  assert (TopsisSpec.V w m j <= big_sum (ncols m) (TopsisSpec.V w m)) as Hle.
  { apply big_sum_term_le; [| exact Hj]. intros k _. apply V_range. }
  unfold TopsisSpec.U. rewrite Reqb_false by lra.
  rewrite big_sum_scale. unfold Rdiv. apply Rinv_r. lra.
Qed.

(** The relative closeness computed from the two lists of distances. *)
Lemma relative_closeness_formula (n : nat) :
  TOPSISComprehensiveEvaluation.relative_closeness
    (map (TopsisSpec.Dp w m) (seq 0 n)) (map (TopsisSpec.Dm w m) (seq 0 n)) =
  Ok (map (TopsisSpec.V w m) (seq 0 n)).
Proof.
  unfold TOPSISComprehensiveEvaluation.relative_closeness, np_add.
  rewrite np_broadcast_same by (now rewrite !length_map).
  cbn [bind]. rewrite zip_with_map.
  rewrite !length_map, Nat.eqb_refl.
  rewrite zip_with_map. reflexivity.
Qed.

(** The normalisation of the relative closeness of all levels. *)
Lemma normalize_scores_formula :
  TOPSISComprehensiveEvaluation.normalize_scores
    (map (TopsisSpec.V w m) (seq 0 (ncols m))) =
  map (TopsisSpec.U w m) (seq 0 (ncols m)).
Proof.
  unfold TOPSISComprehensiveEvaluation.normalize_scores.
  rewrite np_sum_map_seq. pose proof V_sum_nonneg as Hs.
  unfold TopsisSpec.U. Rcases; try lra.
  - now rewrite map_map.
  - unfold np_zeros_like, np_zeros. rewrite length_map.
    generalize (seq 0 (ncols m)) as l.
    induction l as [| k t IH]; cbn; [reflexivity | now rewrite IH].
Qed.

End TopsisValues.

Section TopsisDict.

Variables (d : dict ndarray) (weights : option (list R)) (nf nl : nat).
Hypothesis Hd : matrices_wf d nf nl.
Hypothesis Hw : weights_fit weights nf.

Let w := weights_in_force weights nf.

Lemma topsis_distances_formula :
  TOPSISComprehensiveEvaluation.calculate_comprehensive_membership d weights =
  Ok (distances_by_formula w nl d).
Proof.
  unfold TOPSISComprehensiveEvaluation.calculate_comprehensive_membership.
  destruct (first_value_wf d nf nl Hd) as (sample & -> & Hsf & Hsl). cbn [bind].
  destruct Hd as (_ & Hwf & Hall).
  rewrite Hsf, Hsl, (resolve_weights_fit weights _ Hw). cbn [bind]. fold w.
  apply (for_items_map _
    (fun m => {| D_plus := map (TopsisSpec.Dp w m) (seq 0 nl);
                 D_minus := map (TopsisSpec.Dm w m) (seq 0 nl) |}));
    [exact Hwf |].
  intros name m Hin. destruct (Hall name m Hin) as (Hm & Hr & Hc).
  rewrite (for_each_map _ (fun j => (TopsisSpec.Dp w m j, TopsisSpec.Dm w m j))).
  - cbn [bind]. now rewrite !map_map.
  - intros j Hj. apply in_seq in Hj. rewrite <- Hr.
    apply topsis_level; [| exact Hm | lia].
    unfold w. rewrite Hr. now apply weights_in_force_length.
Qed.

Lemma topsis_scores_formula :
  TOPSISComprehensiveEvaluation.get_comprehensive_scores (distances_by_formula w nl d) =
  Ok (levels_by_formula (TopsisSpec.V w) nl d).
Proof.
  unfold TOPSISComprehensiveEvaluation.get_comprehensive_scores, distances_by_formula,
    levels_by_formula.
  destruct Hd as (_ & Hwf & _).
  rewrite (for_items_map _
    (fun dist => zip_with (fun dn t => if t =? 0 then 0 else dn / t) (D_minus dist)
                   (zip_with Rplus (D_plus dist) (D_minus dist)))).
  - rewrite map_map. cbn [fst snd D_plus D_minus]. apply f_equal.
    apply map_ext. intros [name m]. cbn [fst snd]. apply f_equal.
    rewrite !zip_with_map. reflexivity.
  - apply (dict_wf_map (fun kv => _) d Hwf).
  - intros name dist Hin. apply in_map_iff in Hin.
    destruct Hin as ([name' m] & [= <- <-] & _). cbn [fst snd D_plus D_minus].
    rewrite relative_closeness_formula. now rewrite !zip_with_map.
Qed.

Lemma topsis_membership_formula :
  TOPSISComprehensiveEvaluation.calculate_comprehensive_membership_scores
    (levels_by_formula (TopsisSpec.V w) nl d) =
  levels_by_formula (TopsisSpec.U w) nl d.
Proof.
  unfold TOPSISComprehensiveEvaluation.calculate_comprehensive_membership_scores,
    levels_by_formula.
  destruct Hd as (_ & Hwf & Hall).
  rewrite (fold_dict_map TOPSISComprehensiveEvaluation.normalize_scores).
  - rewrite map_map. cbn [fst snd]. apply map_ext_in.
    intros [name m] Hin. cbn [fst snd]. f_equal.
    destruct (Hall name m Hin) as (_ & _ & <-). apply normalize_scores_formula.
  - apply (dict_wf_map (fun kv => _) d Hwf).
Qed.

End TopsisDict.

Lemma topsis_chain_by_formula
    (d : dict ndarray) (weights : option (list R)) (nf nl : nat) :
  matrices_wf d nf nl ->
  weights_fit weights nf ->
  topsis_chain d weights =
    Ok (distances_by_formula (weights_in_force weights nf) nl d,
        levels_by_formula (TopsisSpec.V (weights_in_force weights nf)) nl d,
        levels_by_formula (TopsisSpec.U (weights_in_force weights nf)) nl d).
Proof.
  intros Hd Hw. unfold topsis_chain.
  rewrite (topsis_distances_formula d weights nf nl Hd Hw). cbn [bind].
  rewrite (topsis_scores_formula d weights nf nl Hd). cbn [bind].
  now rewrite (topsis_membership_formula d weights nf nl Hd).
Qed.

(** C2.  On a dict of factor x level matrices of one shape, with one
    non-negative weight per factor (or no weights, which stands for
    1/num_factors each), the TOPSIS chain returns for every object and level
    D+ = sqrt(sum_f w_f (m_f - 1)^2), D- = sqrt(sum_f w_f m_f^2),
    V = D-/(D+ + D-) with V = 0 when D+ + D- = 0, and U = V / sum of V with
    U = 0 when that sum is 0; it raises nothing, and the U of an object with
    some V > 0 sum to 1. *)
Theorem topsis_chain_formulas
    (d : dict ndarray) (weights : option (list R)) (nf nl : nat) :
  matrices_wf d nf nl ->
  weights_fit weights nf ->
  let w := weights_in_force weights nf in
  topsis_chain d weights =
    Ok (distances_by_formula w nl d,
        levels_by_formula (TopsisSpec.V w) nl d,
        levels_by_formula (TopsisSpec.U w) nl d) /\
  (forall name m j,
      In (name, m) d -> (j < nl)%nat -> TopsisSpec.V w m j > 0 ->
      np_sum (map (TopsisSpec.U w m) (seq 0 nl)) = 1).
Proof.
  intros Hd Hw w. split.
  - now apply topsis_chain_by_formula.
  - intros name m j Hin Hj Hv. destruct Hd as (_ & _ & Hall).
    destruct (Hall name m Hin) as (_ & _ & <-).
    rewrite np_sum_map_seq. now apply (U_sum w m j).
Qed.

Lemma two_by_two_wf : matrices_wf two_by_two 2 2.
Proof.
  unfold two_by_two. split; [discriminate |]. split.
  - unfold dict_wf. cbn. constructor; [intros [] | constructor].
  - intros name m [[= <- <-] | []]. unfold ndarray_wf. cbn.
    repeat split; trivial. repeat constructor.
Qed.

Lemma topsis_chain_formulas_witness :
  matrices_wf two_by_two 2 2 /\
  weights_fit (Some [1 / 2; 1 / 2]) 2 /\
  is_ok (topsis_chain two_by_two (Some [1 / 2; 1 / 2])) = true /\
  np_sum (map (TopsisSpec.U [1 / 2; 1 / 2] (mk_ndarray 2 2 [[1; 0]; [0; 1]]))
            (seq 0 2)) = 1.
Proof.
  assert (weights_fit (Some [1 / 2; 1 / 2]) 2) as Hw.
  { split; [reflexivity |]. repeat constructor; lra. }
  split; [exact two_by_two_wf |]. split; [exact Hw |].
  destruct (topsis_chain_formulas two_by_two _ 2 2 two_by_two_wf Hw) as [E S].
  split; [rewrite E; reflexivity |].
  apply (S "T1"%string _ 0%nat); [now left | lia |].
  unfold TopsisSpec.V.
  assert (0 < TopsisSpec.Dm [1 / 2; 1 / 2] (mk_ndarray 2 2 [[1; 0]; [0; 1]]) 0) as Hm.
  { apply sqrt_lt_R0. cbn. lra. }
  pose proof (Dp_nonneg [1 / 2; 1 / 2] (mk_ndarray 2 2 [[1; 0]; [0; 1]]) 0) as Hp.
  cbn [weights_in_force]. rewrite Reqb_false by lra.
  apply Rdiv_lt_0_compat; lra.
Defined.

Lemma objectwise_map {V W : Type} (P : V -> W -> Prop) (g : V -> W) (d : dict V) :
  (forall name m, In (name, m) d -> P m (g m)) ->
  objectwise P d (map (fun kv => (fst kv, g (snd kv))) d).
Proof.
  unfold objectwise. induction d as [| [name m] t IH]; intros H; cbn [map].
  - constructor.
  - constructor.
    + cbn [fst snd]. split; [reflexivity |]. apply (H name m). now left.
    + apply IH. intros name' m' Hin. apply (H name' m'). now right.
Qed.

Lemma objectwise_map2 {A V W : Type} (P : V -> W -> Prop)
    (g1 : A -> V) (g2 : A -> W) (d : dict A) :
  (forall name m, In (name, m) d -> P (g1 m) (g2 m)) ->
  objectwise P (map (fun kv => (fst kv, g1 (snd kv))) d)
               (map (fun kv => (fst kv, g2 (snd kv))) d).
Proof.
  unfold objectwise. induction d as [| [name m] t IH]; intros H; cbn [map].
  - constructor.
  - constructor.
    + cbn [fst snd]. split; [reflexivity |]. apply (H name m). now left.
    + apply IH. intros name' m' Hin. apply (H name' m'). now right.
Qed.

(** ** The range of the values *)

Lemma levels_in_unit_interval (F : ndarray -> nat -> R) (nl : nat) (d : dict ndarray) :
  (forall name m j, In (name, m) d -> (j < nl)%nat -> 0 <= F m j <= 1) ->
  all_in_unit_interval (levels_by_formula F nl d).
Proof.
  intros H name vs Hin. unfold levels_by_formula in Hin.
  apply in_map_iff in Hin. destruct Hin as ([name' m] & [= <- <-] & Hin).
  apply Forall_forall. intros v Hv. apply in_map_iff in Hv.
  destruct Hv as (j & <- & Hj). apply in_seq in Hj.
  apply (H name' m j Hin). lia.
Qed.

(** C6, as the code has it.  For strictly decreasing thresholds and a
    valid level i, the membership value lies in [0, 1] for every x exactly
    when i = 1 or the threshold a_(i-1) is not negative (a negative a_(i-1)
    makes the hyperbolic branch a_(i-1)/x negative); and on matrices of one
    shape with non-negative weights every V and every U of the TOPSIS chain
    lies in [0, 1]. *)
Theorem values_in_unit_interval
    (a : list R) (h i : Z)
    (d : dict ndarray) (weights : option (list R)) (nf nl : nat) :
  strictly_decreasing a ->
  Z.of_nat (length a) = h ->
  (1 <= i <= h)%Z ->
  matrices_wf d nf nl ->
  weights_fit weights nf ->
  ((forall x, in_unit_interval (lower_bound_level_membership x a i h)) <->
   (i = 1%Z \/ 0 <= th a (i - 1))) /\
  exists D V U,
    topsis_chain d weights = Ok (D, V, U) /\
    all_in_unit_interval V /\ all_in_unit_interval U.
Proof.
  intros Hsd Hlen Hi Hd Hw. split.
  - split.
    + intros Hall. destruct (Z.eq_dec i 1) as [E | E]; [now left | right].
      destruct (Rle_lt_dec 0 (th a (i - 1))) as [Hle | Hlt]; [exact Hle |].
      exfalso. destruct (Hall 1) as (mu & Emu & Hmu).
      rewrite (membership_below_zero a h i Hlen ltac:(lia) Hlt) in Emu.
      injection Emu as <-. unfold Rdiv in Hmu. rewrite Rinv_1 in Hmu. lra.
    + intros Hs x. now apply membership_range_level.
  - pose proof (topsis_chain_by_formula d weights nf nl Hd Hw) as E.
    do 3 eexists. split; [exact E |]. destruct Hd as (_ & _ & Hall). split.
    + apply levels_in_unit_interval. intros name m j _ _. apply V_range.
    + apply levels_in_unit_interval. intros name m j Hin Hj.
      apply U_range. destruct (Hall name m Hin) as (_ & _ & ->). exact Hj.
Qed.

(** A threshold below zero takes the value out of [0, 1]: at level 2 of the
    thresholds -1 > -2 > -3 the value at x = 1 is -1. *)
Lemma values_in_unit_interval_counterexample :
  strictly_decreasing [-1; -2; -3] /\
  (1 <= 2 <= 3)%Z /\
  ~ in_unit_interval (lower_bound_level_membership 1 [-1; -2; -3] 2 3).
Proof.
  split; [cbn; lra |]. split; [lia |].
  rewrite membership_negative_threshold. intros (mu & [= <-] & H). lra.
Qed.

Lemma values_in_unit_interval_witness :
  strictly_decreasing [10; 5; -1] /\
  (1 <= 3 <= 3)%Z /\
  matrices_wf two_by_two 2 2 /\
  weights_fit None 2 /\
  in_unit_interval (lower_bound_level_membership 20 [10; 5; -1] 3 3).
Proof.
  assert (strictly_decreasing [10; 5; -1]) as Hsd by (cbn; lra).
  assert (weights_fit None 2) as Hw by (cbn; lia).
  repeat (split; [first [assumption | lia | exact two_by_two_wf] |]).
  destruct (values_in_unit_interval [10; 5; -1] 3 3 two_by_two None 2 2
              Hsd eq_refl ltac:(lia) two_by_two_wf Hw) as [[_ Hr] _].
  apply Hr. right. change (th [10; 5; -1] (3 - 1)) with 5. lra.
Defined.

(** ** VIKOR *)

Lemma fold_left_Rmax_spec (l : list R) (x : R) :
  (fold_left Rmax l x = x \/ In (fold_left Rmax l x) l) /\
  x <= fold_left Rmax l x /\
  (forall y, In y l -> y <= fold_left Rmax l x).
Proof.
  revert x. induction l as [| y t IH]; intros x; cbn [fold_left].
  - split; [now left |]. split; [lra | intros y []].
  - destruct (IH (Rmax x y)) as (Hin & Hle & Hall).
    pose proof (Rmax_l x y). pose proof (Rmax_r x y).
    split; [| split].
    + destruct Hin as [E | Hin]; [| right; now right].
      rewrite E. unfold Rmax. destruct (Rle_dec x y); [right; now left | now left].
    + lra.
    + intros z [<- | Hz]; [lra | now apply Hall].
Qed.

Lemma fold_left_Rmin_spec (l : list R) (x : R) :
  (fold_left Rmin l x = x \/ In (fold_left Rmin l x) l) /\
  fold_left Rmin l x <= x /\
  (forall y, In y l -> fold_left Rmin l x <= y).
Proof.
  revert x. induction l as [| y t IH]; intros x; cbn [fold_left].
  - split; [now left |]. split; [lra | intros y []].
  - destruct (IH (Rmin x y)) as (Hin & Hle & Hall).
    pose proof (Rmin_l x y). pose proof (Rmin_r x y).
    split; [| split].
    + destruct Hin as [E | Hin]; [| right; now right].
      rewrite E. unfold Rmin. destruct (Rle_dec x y); [now left | right; now left].
    + lra.
    + intros z [<- | Hz]; [lra | now apply Hall].
Qed.

Lemma big_max_is_max (n : nat) (F : nat -> R) :
  n <> 0%nat -> is_max_of n F (big_max n F).
Proof.
  destruct n as [| n]; [contradiction |]. intros _. unfold big_max.
  destruct (fold_left_Rmax_spec (map F (seq 1 n)) (F 0%nat)) as (Hin & Hle & Hall).
  split.
  - destruct Hin as [E | Hin].
    + exists 0%nat. split; [lia | now rewrite E].
    + apply in_map_iff in Hin. destruct Hin as (k & E & Hk).
      apply in_seq in Hk. exists k. split; [lia | exact E].
  - intros [| k] Hk; [exact Hle |]. apply Hall. apply in_map.
    apply in_seq. lia.
Qed.

Lemma big_min_is_min (n : nat) (F : nat -> R) :
  n <> 0%nat -> is_min_of n F (big_min n F).
Proof.
  destruct n as [| n]; [contradiction |]. intros _. unfold big_min.
  destruct (fold_left_Rmin_spec (map F (seq 1 n)) (F 0%nat)) as (Hin & Hle & Hall).
  split.
  - destruct Hin as [E | Hin].
    + exists 0%nat. split; [lia | now rewrite E].
    + apply in_map_iff in Hin. destruct Hin as (k & E & Hk).
      apply in_seq in Hk. exists k. split; [lia | exact E].
  - intros [| k] Hk; [exact Hle |]. apply Hall. apply in_map.
    apply in_seq. lia.
Qed.

Lemma least_of_map_seq (F : nat -> R) (n : nat) (x : R) :
  n <> 0%nat -> least_of (map F (seq 0 n)) x -> x = big_min n F.
Proof.
  intros Hn [Hin Hle]. destruct (big_min_is_min n F Hn) as [(k & Hk & E) Hmin].
  apply in_map_iff in Hin. destruct Hin as (j & <- & Hj). apply in_seq in Hj.
  apply Rle_antisym.
  - rewrite <- E. apply Hle. apply in_map. apply in_seq. lia.
  - apply Hmin. lia.
Qed.

Lemma greatest_of_map_seq (F : nat -> R) (n : nat) (x : R) :
  n <> 0%nat -> greatest_of (map F (seq 0 n)) x -> x = big_max n F.
Proof.
  intros Hn [Hin Hle]. destruct (big_max_is_max n F Hn) as [(k & Hk & E) Hmax].
  apply in_map_iff in Hin. destruct Hin as (j & <- & Hj). apply in_seq in Hj.
  apply Rle_antisym.
  - apply Hmax. lia.
  - rewrite <- E. apply Hle. apply in_map. apply in_seq. lia.
Qed.

Lemma np_max_map_seq (n : nat) (F : nat -> R) :
  n <> 0%nat -> np_max (map F (seq 0 n)) = Ok (big_max n F).
Proof. destruct n; [contradiction | reflexivity]. Qed.

Lemma np_min_map_seq (n : nat) (F : nat -> R) :
  n <> 0%nat -> np_min (map F (seq 0 n)) = Ok (big_min n F).
Proof. destruct n; [contradiction | reflexivity]. Qed.

Lemma np_zeros_map_seq (n : nat) : np_zeros n = map (fun _ => 0) (seq 0 n).
Proof.
  unfold np_zeros. generalize 0%nat as s.
  induction n as [| n IH]; intros s; cbn; [reflexivity | now rewrite (IH (S s))].
Qed.

(** The weighted terms of one level, factor by factor. *)
Lemma weighted_level_terms (g : R -> R) (w : list R) (m : ndarray) (j : nat) :
  length w = nrows m ->
  length (rows m) = nrows m ->
  np_mul w (map g (map (fun r => nth j r 0) (rows m))) =
  Ok (map (fun f => nth f w 0 * g (entry m f j)) (seq 0 (nrows m))).
Proof.
  intros Hw Hr. unfold np_mul.
  rewrite np_broadcast_same by (now rewrite !length_map, Hr).
  f_equal. rewrite (zip_with_seq Rmult 0 (g 0)) by (now rewrite !length_map, Hr).
  rewrite Hw. apply map_ext. intros f.
  f_equal. rewrite map_nth. f_equal. apply column_entry.
Qed.

Lemma resolve_weights_match (weights : option (list R)) (n : nat) :
  weights_match weights n -> n <> 0%nat ->
  resolve_weights weights n = Ok (weights_in_force weights n) /\
  length (weights_in_force weights n) = n.
Proof.
  unfold weights_match, resolve_weights, weights_in_force.
  destruct weights as [w |]; intros Hl Hn.
  - cbn [bind]. now rewrite (proj2 (Nat.eqb_eq _ _) Hl).
  - rewrite (proj2 (Nat.eqb_neq _ _) Hn). cbn [bind].
    rewrite repeat_length, Nat.eqb_refl. now split.
Qed.

Section VikorObject.

Variables (w : list R) (v : R) (m : ndarray).
Hypothesis Hw : length w = nrows m.
Hypothesis Hm : ndarray_wf m.
Hypothesis Hnf : nrows m <> 0%nat.
Hypothesis Hnl : ncols m <> 0%nat.

(** One turn of the loop over the levels. *)
Lemma vikor_level (j : nat) :
  (j < ncols m)%nat ->
  (do level_memberships <- column m j;
   do regrets <- np_mul w (map (fun x => 1 - x) level_memberships);
   do R <- np_max regrets;
   Ok (np_sum regrets, R)) =
  Ok (VikorSpec.S_level w m j, VikorSpec.R_level w m j).
Proof.
  intros Hj. destruct Hm as [Hr _].
  rewrite (column_wf m j Hj). cbn [bind].
  rewrite (weighted_level_terms (fun x => 1 - x) w m j Hw Hr). cbn [bind].
  change (fun f => nth f w 0 * (1 - entry m f j)) with (VikorSpec.regret w m j).
  rewrite (np_max_map_seq _ _ Hnf). cbn [bind].
  now rewrite np_sum_map_seq.
Qed.

(** The compromise values, from the S and the R of all levels. *)
Lemma compromise_formula :
  VIKORComprehensiveEvaluation.compromise v
    (map (VikorSpec.S_level w m) (seq 0 (ncols m)))
    (map (VikorSpec.R_level w m) (seq 0 (ncols m))) =
  Ok (map (VikorSpec.Q_level w v m) (seq 0 (ncols m))).
Proof.
  unfold VIKORComprehensiveEvaluation.compromise.
  rewrite !(np_min_map_seq _ _ Hnl), !(np_max_map_seq _ _ Hnl). cbn [bind].
  fold (VikorSpec.S_star w m) (VikorSpec.S_minus w m)
       (VikorSpec.R_star w m) (VikorSpec.R_minus w m).
  unfold np_zeros_like. rewrite !length_map, length_seq, np_zeros_map_seq.
  unfold np_add.
  assert (forall F G : nat -> R,
             np_broadcast Rplus (map F (seq 0 (ncols m))) (map G (seq 0 (ncols m))) =
             Ok (map (fun j => F j + G j) (seq 0 (ncols m)))) as Hadd.
  { intros F G. rewrite np_broadcast_same by (now rewrite !length_map).
    now rewrite zip_with_map. }
  rewrite !map_map.
  Rcases; rewrite ?Hadd; f_equal; apply map_ext; intros j;
    unfold VikorSpec.Q_level, ratio_or_zero;
    rewrite ?(Reqb_true _ _ C), ?(Reqb_true _ _ C0),
            ?(Reqb_false _ _ C), ?(Reqb_false _ _ C0);
    unfold Rdiv; ring.
Qed.

End VikorObject.

Lemma vikor_scores_by_formula
    (d : dict ndarray) (weights : option (list R)) (v : option R) (nf nl : nat) :
  matrices_wf d nf nl ->
  nf <> 0%nat -> nl <> 0%nat ->
  weights_match weights nf ->
  VIKORComprehensiveEvaluation.calculate_comprehensive_scores d weights v =
  Ok (vikor_by_formula (weights_in_force weights nf)
        (match v with Some v => v | None => 0.5 end) nl d).
Proof.
  intros Hd Hnf Hnl Hwm.
  unfold VIKORComprehensiveEvaluation.calculate_comprehensive_scores.
  destruct (first_value_wf d nf nl Hd) as (sample & -> & Hsf & Hsl). cbn [bind].
  destruct Hd as (_ & Hwf & Hall).
  destruct (resolve_weights_match weights nf Hwm Hnf) as [Ew Hlen].
  rewrite Hsf, Hsl, Ew. cbn [bind].
  set (w := weights_in_force weights nf) in *.
  set (v' := match v with Some v0 => v0 | None => 0.5 end).
  apply (for_items_map _
    (fun m => {| S_values := map (VikorSpec.S_level w m) (seq 0 nl);
                 R_values := map (VikorSpec.R_level w m) (seq 0 nl);
                 Q_values := map (VikorSpec.Q_level w v' m) (seq 0 nl) |}));
    [exact Hwf |].
  intros name m Hin. destruct (Hall name m Hin) as (Hm & Hr & Hc).
  rewrite (for_each_map _
             (fun j => (VikorSpec.S_level w m j, VikorSpec.R_level w m j))).
  - cbn [bind]. rewrite !map_map. cbn [fst snd]. rewrite <- Hc.
    rewrite compromise_formula; [reflexivity | congruence].
  - intros j Hj. apply in_seq in Hj.
    apply vikor_level; try congruence. lia.
Qed.






(** ** Grade assessment *)

Lemma characteristic_value_from (u : list R) (start : Z) (acc : R) :
  fold_left (fun v_value item => v_value + IZR (fst item) * snd item)
    (enumerate start u) acc =
  acc + big_sum (length u) (fun k => (IZR start + INR k) * nth k u 0).
Proof.
  revert start acc. induction u as [| x t IH]; intros start acc.
  - cbn. lra.
  - cbn [enumerate fold_left fst snd length]. rewrite IH.
    unfold big_sum. cbn [seq map fold_right nth].
    rewrite <- seq_shift, map_map. cbn [nth].
    rewrite plus_IZR.
    replace (map (fun k => (IZR start + INR (S k)) * nth k t 0) (seq 0 (length t)))
      with (map (fun k => (IZR start + 1 + INR k) * nth k t 0) (seq 0 (length t))).
    + cbn [INR]. lra.
    + apply map_ext. intros k. rewrite S_INR. f_equal. lra.
Qed.

Lemma characteristic_value_formula (u : list R) :
  GradeComprehensiveAssessment.characteristic_value u = expected_level u.
Proof.
  unfold GradeComprehensiveAssessment.characteristic_value, expected_level.
  rewrite characteristic_value_from. rewrite Rplus_0_l.
  apply big_sum_ext. intros k _. rewrite S_INR. f_equal. lra.
Qed.

Lemma py_round_nearest_even (x : R) : nearest_even x (py_round x).
Proof.
  unfold nearest_even, py_round.
  destruct (Zfloor_bound x) as [Hlo Hhi].
  destruct (Rlt_dec (x - IZR (Zfloor x)) (1 / 2)) as [Hlt | Hlt].
  - rewrite (Rltb_true _ _ Hlt). rewrite Rabs_pos_eq by lra.
    split; [lra | intros; exfalso; lra].
  - apply Rnot_lt_le in Hlt. rewrite (Rltb_false _ _ Hlt).
    destruct (Rgt_dec (x - IZR (Zfloor x)) (1 / 2)) as [Hgt | Hgt].
    + rewrite (Rgtb_true _ _ Hgt). rewrite plus_IZR. rewrite Rabs_left by lra.
      split; [lra | intros; exfalso; lra].
    + apply Rnot_gt_le in Hgt. rewrite (Rgtb_false _ _ Hgt).
      destruct (Z.even (Zfloor x)) eqn:Ev.
      * rewrite Rabs_pos_eq by lra. split; [lra | trivial].
      * rewrite plus_IZR. rewrite Rabs_left by lra. split; [lra |].
        intros _. rewrite Z.even_add, Ev. reflexivity.
Qed.



Lemma existsb_key {V : Type} (d : dict V) (k : string) (v : V) :
  In (k, v) d -> existsb (fun kv => String.eqb (fst kv) k) d = true.
Proof.
  intros Hin. apply existsb_exists. exists (k, v).
  split; [exact Hin | apply String.eqb_refl].
Qed.

(** The assessment of a non-empty dict raises nothing, whatever the vectors
    and the number of levels are. *)
Lemma assess_returns (d : dict (list R)) (h : Z) :
  dict_wf d -> d <> [] ->
  GradeComprehensiveAssessment.assess_comprehensive_grade d h =
  Ok {| membership_scores := d;
        level_characteristic_values :=
          map (fun kv => (fst kv, expected_level (snd kv))) d;
        binary_semantic_results :=
          map (fun kv => (fst kv,
                 GradeComprehensiveAssessment.binary_semantic
                   (expected_level (snd kv)) h)) d;
        num_levels := h;
        num_objects := length d |}.
Proof.
  intros Hwf Hne.
  unfold GradeComprehensiveAssessment.assess_comprehensive_grade,
    GradeComprehensiveAssessment.calculate_level_characteristic_values,
    GradeComprehensiveAssessment.perform_binary_semantic_assessment.
  rewrite (fold_dict_map GradeComprehensiveAssessment.characteristic_value d Hwf).
  rewrite (fold_dict_map (fun v => GradeComprehensiveAssessment.binary_semantic v h))
    by (apply (dict_wf_map (fun kv => _) d Hwf)).
  rewrite map_map. cbn [fst snd].
  rewrite (map_ext _ (fun kv => (fst kv, expected_level (snd kv))))
    by (intros kv; now rewrite characteristic_value_formula).
  rewrite (map_ext _ (fun kv => (fst kv,
             GradeComprehensiveAssessment.binary_semantic (expected_level (snd kv)) h)))
    by (intros kv; now rewrite characteristic_value_formula).
  unfold GradeComprehensiveAssessment.generate_comprehensive_assessment_report.
  destruct d as [| [name0 u0] t] eqn:Ed; [contradiction |].
  cbn [first_value bind]. rewrite <- Ed.
  rewrite (for_each_map _ (fun _ => tt)); [reflexivity |].
  intros [name u] Hin. cbn [fst].
  rewrite (existsb_key _ name (expected_level u)).
  - rewrite (existsb_key _ name
               (GradeComprehensiveAssessment.binary_semantic (expected_level u) h));
      [reflexivity |].
    apply in_map_iff. now exists (name, u).
  - apply in_map_iff. now exists (name, u).
Qed.

(** [py_round] between two consecutive integers. *)
Lemma py_round_down (x : R) (z : Z) :
  IZR z <= x -> x - IZR z < 1 / 2 -> py_round x = z.
Proof.
  intros Hlo Hd. unfold py_round.
  rewrite (Zfloor_eq z x) by lra. now rewrite Rltb_true.
Qed.

Lemma py_round_up (x : R) (z : Z) :
  x < IZR z + 1 -> x - IZR z > 1 / 2 -> py_round x = (z + 1)%Z.
Proof.
  intros Hhi Hd. unfold py_round.
  rewrite (Zfloor_eq z x) by lra.
  rewrite Rltb_false by lra. now rewrite Rgtb_true.
Qed.




Lemma T1_expected_level : expected_level T1_vector = 2.055.
Proof. unfold expected_level, big_sum, T1_vector. cbn. lra. Qed.

Lemma T1_wf : dict_wf [("T1"%string, T1_vector)].
Proof. unfold dict_wf. cbn. constructor; [intros [] | constructor]. Qed.

(** C5, as the code has it.  For the membership vector
    [0.382, 0.297, 0.205, 0.116] and 4 levels the assessment returns the
    characteristic value 2.055, the level 2 and the offset +0.055. *)
Theorem grade_of_T1 :
  GradeComprehensiveAssessment.assess_comprehensive_grade
    [("T1"%string, T1_vector)] 4 =
  Ok {| membership_scores := [("T1"%string, T1_vector)];
        level_characteristic_values := [("T1"%string, 2.055)];
        binary_semantic_results := [("T1"%string, (2%Z, 0.055))];
        num_levels := 4;
        num_objects := 1 |}.
Proof.
  rewrite (assess_returns _ 4 T1_wf) by discriminate.
  cbn [map fst snd length]. rewrite T1_expected_level.
  unfold GradeComprehensiveAssessment.binary_semantic.
  rewrite (py_round_down 2.055 2) by lra.
  cbn [Z.min Z.max Z.compare Pos.compare Pos.compare_cont].
  replace (2.055 - 2) with 0.055 by lra. reflexivity.
Qed.

(** The characteristic value of that vector is not 2.056. *)
Lemma grade_of_T1_counterexample :
  GradeComprehensiveAssessment.calculate_level_characteristic_values
    [("T1"%string, T1_vector)] <> [("T1"%string, 2.056)].
Proof.
  unfold GradeComprehensiveAssessment.calculate_level_characteristic_values.
  cbn [fold_left dict_set fst snd].
  rewrite characteristic_value_formula, T1_expected_level.
  intros [= H]. lra.
Qed.


Lemma binary_semantic_zero (h : Z) :
  GradeComprehensiveAssessment.binary_semantic 0 h = (1%Z, -1).
Proof.
  unfold GradeComprehensiveAssessment.binary_semantic.
  rewrite (py_round_down 0 0) by lra.
  replace (Z.max 1 (Z.min 0 h)) with 1%Z by lia.
  f_equal. lra.
Qed.




(** ** Continuity of the membership function *)

Lemma continuity_pt_const_fun (k c : R) : continuity_pt (fun _ => k) c.
Proof. apply derivable_continuous_pt. reg. Qed.

Lemma continuity_pt_interpolation (n d c : R) :
  continuity_pt (fun x => (x - n) / d) c.
Proof. unfold Rdiv. apply derivable_continuous_pt. reg. Qed.

Lemma continuity_pt_hyperbola (p c : R) :
  c <> 0 -> continuity_pt (fun x => p / x) c.
Proof. intros Hc. apply derivable_continuous_pt. reg. Qed.

(** A function that follows [g1] from [c] upwards and [g2] below [c], near
    [c], is continuous at [c] when [g1] and [g2] are and they meet there. *)
Lemma continuity_pt_glue (f g1 g2 : R -> R) (c lo hi : R) :
  lo < c < hi ->
  (forall x, c <= x < hi -> f x = g1 x) ->
  (forall x, lo < x < c -> f x = g2 x) ->
  continuity_pt g1 c -> continuity_pt g2 c ->
  g1 c = g2 c ->
  continuity_pt f c.
Proof.
  intros Hc H1 H2 C1 C2 E eps Heps.
  destruct (C1 eps Heps) as (d1 & Hd1 & K1).
  destruct (C2 eps Heps) as (d2 & Hd2 & K2).
  exists (Rmin (Rmin d1 d2) (Rmin (hi - c) (c - lo))). split.
  - repeat apply Rmin_glb_lt; lra.
  - intros x [Hx Hdist]. unfold dist in *. cbn in *. unfold R_dist in *.
    assert (Rabs (x - c) < d1 /\ Rabs (x - c) < d2 /\
            Rabs (x - c) < hi - c /\ Rabs (x - c) < c - lo) as (B1 & B2 & B3 & B4).
    { pose proof (Rmin_l (Rmin d1 d2) (Rmin (hi - c) (c - lo))).
      pose proof (Rmin_r (Rmin d1 d2) (Rmin (hi - c) (c - lo))).
      pose proof (Rmin_l d1 d2). pose proof (Rmin_r d1 d2).
      pose proof (Rmin_l (hi - c) (c - lo)). pose proof (Rmin_r (hi - c) (c - lo)).
      repeat split; lra. }
    rewrite (H1 c) by lra.
    destruct (Rle_lt_dec c x) as [Hge | Hlt].
    + rewrite (H1 x).
      * apply K1. split; [exact Hx | exact B1].
      * split; [exact Hge |]. apply Rabs_def2 in B3. lra.
    + rewrite (H2 x), E.
      * apply K2. split; [exact Hx | exact B2].
      * split; [| exact Hlt]. apply Rabs_def2 in B4. lra.
Qed.

Lemma continuity_pt_near (f g : R -> R) (c lo hi : R) :
  lo < c < hi ->
  (forall x, lo < x < hi -> f x = g x) ->
  continuity_pt g c ->
  continuity_pt f c.
Proof.
  intros Hc H C.
  apply (continuity_pt_glue f g g c lo hi Hc); trivial;
    intros x Hx; apply H; lra.
Qed.

Ltac shape_eq f :=
  let x := fresh "x" in
  let Hx := fresh "Hx" in
  intros x Hx; unfold f; Rcases; first [reflexivity | exfalso; lra].

Lemma first_level_continuous (c n t : R) :
  n < c -> continuity_pt (first_level c n) t.
Proof.
  intros Hcn.
  destruct (Rtotal_order t c) as [Hlt | [-> | Hgt]].
  - destruct (Rtotal_order t n) as [Hlt' | [-> | Hgt']].
    + apply (continuity_pt_near _ (fun _ => 0) t (t - 1) n); [lra | |].
      * shape_eq first_level.
      * apply continuity_pt_const_fun.
    + apply (continuity_pt_glue _ (fun x => (x - n) / (c - n)) (fun _ => 0)
               n (n - 1) c); [lra | | | | |].
      * shape_eq first_level.
      * shape_eq first_level.
      * apply continuity_pt_interpolation.
      * apply continuity_pt_const_fun.
      * field. lra.
    + apply (continuity_pt_near _ (fun x => (x - n) / (c - n)) t n c); [lra | |].
      * shape_eq first_level.
      * apply continuity_pt_interpolation.
  - apply (continuity_pt_glue _ (fun _ => 1) (fun x => (x - n) / (c - n))
             c n (c + 1)); [lra | | | | |].
    + shape_eq first_level.
    + shape_eq first_level.
    + apply continuity_pt_const_fun.
    + apply continuity_pt_interpolation.
    + field. lra.
  - apply (continuity_pt_near _ (fun _ => 1) t c (t + 1)); [lra | |].
    + shape_eq first_level.
    + apply continuity_pt_const_fun.
Qed.

Lemma middle_level_continuous (p c n t : R) :
  0 < p -> c < p -> n < c -> continuity_pt (middle_level p c n) t.
Proof.
  intros Hp Hcp Hnc.
  destruct (Rtotal_order t p) as [Hlt | [-> | Hgt]].
  - destruct (Rtotal_order t c) as [Hlt1 | [-> | Hgt1]].
    + destruct (Rtotal_order t n) as [Hlt2 | [-> | Hgt2]].
      * apply (continuity_pt_near _ (fun _ => 0) t (t - 1) n); [lra | |].
        -- shape_eq middle_level.
        -- apply continuity_pt_const_fun.
      * apply (continuity_pt_glue _ (fun x => (x - n) / (c - n)) (fun _ => 0)
                 n (n - 1) c); [lra | | | | |].
        -- shape_eq middle_level.
        -- shape_eq middle_level.
        -- apply continuity_pt_interpolation.
        -- apply continuity_pt_const_fun.
        -- field. lra.
      * apply (continuity_pt_near _ (fun x => (x - n) / (c - n)) t n c); [lra | |].
        -- shape_eq middle_level.
        -- apply continuity_pt_interpolation.
    + apply (continuity_pt_glue _ (fun _ => 1) (fun x => (x - n) / (c - n))
               c n p); [lra | | | | |].
      * shape_eq middle_level.
      * shape_eq middle_level.
      * apply continuity_pt_const_fun.
      * apply continuity_pt_interpolation.
      * field. lra.
    + apply (continuity_pt_near _ (fun _ => 1) t c p); [lra | |].
      * shape_eq middle_level.
      * apply continuity_pt_const_fun.
  - apply (continuity_pt_glue _ (fun x => p / x) (fun _ => 1) p c (p + 1));
      [lra | | | | |].
    + shape_eq middle_level.
    + shape_eq middle_level.
    + apply continuity_pt_hyperbola. lra.
    + apply continuity_pt_const_fun.
    + field. lra.
  - apply (continuity_pt_near _ (fun x => p / x) t p (t + 1)); [lra | |].
    + shape_eq middle_level.
    + apply continuity_pt_hyperbola. lra.
Qed.

(** The last level jumps at 0 (from 1 to x/c); it is continuous at every
    point above 0. *)
Lemma last_level_continuous (p c t : R) :
  0 < c -> c < p -> 0 < t -> continuity_pt (last_level p c) t.
Proof.
  intros Hc Hcp Ht.
  destruct (Rtotal_order t p) as [Hlt | [-> | Hgt]].
  - destruct (Rtotal_order t c) as [Hlt1 | [-> | Hgt1]].
    + apply (continuity_pt_near _ (fun x => x / c) t 0 c); [lra | |].
      * shape_eq last_level.
      * unfold Rdiv. apply derivable_continuous_pt. reg.
    + apply (continuity_pt_glue _ (fun _ => 1) (fun x => x / c) c 0 p);
        [lra | | | | |].
      * shape_eq last_level.
      * shape_eq last_level.
      * apply continuity_pt_const_fun.
      * unfold Rdiv. apply derivable_continuous_pt. reg.
      * field. lra.
    + apply (continuity_pt_near _ (fun _ => 1) t c p); [lra | |].
      * shape_eq last_level.
      * apply continuity_pt_const_fun.
  - apply (continuity_pt_glue _ (fun x => p / x) (fun _ => 1) p c (p + 1));
      [lra | | | | |].
    + shape_eq last_level.
    + shape_eq last_level.
    + apply continuity_pt_hyperbola. lra.
    + apply continuity_pt_const_fun.
    + field. lra.
  - apply (continuity_pt_near _ (fun x => p / x) t p (t + 1)); [lra | |].
    + shape_eq last_level.
    + apply continuity_pt_hyperbola. lra.
Qed.

(** At and above its upper threshold the last level follows the hyperbola,
    whatever the sign of its own threshold. *)
Lemma last_level_continuous_above (p c t : R) :
  0 < p -> c < p -> p <= t -> continuity_pt (last_level p c) t.
Proof.
  intros Hp Hcp [Hgt | <-].
  - apply (continuity_pt_near _ (fun x => p / x) t p (t + 1)); [lra | |].
    + shape_eq last_level.
    + apply continuity_pt_hyperbola. lra.
  - apply (continuity_pt_glue _ (fun x => p / x) (fun _ => 1) p c (p + 1));
      [lra | | | | |].
    + shape_eq last_level.
    + shape_eq last_level.
    + apply continuity_pt_hyperbola. lra.
    + apply continuity_pt_const_fun.
    + field. lra.
Qed.

(** With its own threshold at or below 0 the last level is 1 everywhere
    below its upper threshold. *)
Lemma last_level_continuous_low (p c t : R) :
  c < p -> c <= 0 -> t < p -> continuity_pt (last_level p c) t.
Proof.
  intros Hcp Hc Ht.
  apply (continuity_pt_near _ (fun _ => 1) t (t - 1) p); [lra | |].
  - shape_eq last_level.
  - apply continuity_pt_const_fun.
Qed.

(** A function that stays at distance 1 or more from its value at [c], on
    an interval that ends at [c], is not continuous at [c]. *)
Lemma jump_not_continuous (f : R -> R) (c lo : R) :
  lo < c ->
  (forall x, lo < x < c -> 1 <= Rabs (f x - f c)) ->
  ~ continuity_pt f c.
Proof.
  intros Hlo Hjump C.
  destruct (C (1 / 2)) as (alp & Halp & K); [lra |].
  pose proof (Rmin_l alp (c - lo)) as M1. pose proof (Rmin_r alp (c - lo)) as M2.
  assert (0 < Rmin alp (c - lo)) as M0 by (apply Rmin_glb_lt; lra).
  set (e := Rmin alp (c - lo)) in *.
  specialize (K (c - e / 2)).
  unfold dist in K. cbn in K. unfold R_dist, D_x, no_cond in K.
  assert (Rabs (f (c - e / 2) - f c) < 1 / 2) as Bad.
  { apply K. split; [split; [exact I | lra] |].
    replace (c - e / 2 - c) with (- (e / 2)) by lra.
    rewrite Rabs_left by lra. lra. }
  specialize (Hjump (c - e / 2) ltac:(lra)). lra.
Qed.

(** Later thresholds are smaller. *)
Lemma th_antitone (a : list R) (k k' : Z) :
  strictly_decreasing a ->
  (1 <= k <= k')%Z -> (k' <= Z.of_nat (length a))%Z ->
  th a k' <= th a k.
Proof.
  intros Hd Hk Hk'.
  assert (forall n : nat, (k + Z.of_nat n <= Z.of_nat (length a))%Z ->
            th a (k + Z.of_nat n) <= th a k) as H.
  { induction n as [| n IH]; intros Hn.
    - replace (k + Z.of_nat 0)%Z with k by lia. lra.
    - pose proof (th_step a (k + Z.of_nat n) Hd ltac:(lia)) as P.
      replace (k + Z.of_nat n + 1)%Z with (k + Z.of_nat (S n))%Z in P by lia.
      specialize (IH ltac:(lia)). lra. }
  replace k' with (k + Z.of_nat (Z.to_nat (k' - k)))%Z by lia. apply H. lia.
Qed.

Section MembershipShapes.

Variables (a : list R) (h : Z).
Hypothesis Hlen : Z.of_nat (length a) = h.

Lemma membership_value_first (x : R) :
  (1 <= h)%Z ->
  membership_value a h 1 x = first_level (th a 1) (th a 2) x.
Proof.
  intros Hh. unfold membership_value, first_level.
  rewrite (membership_first x a h Hlen Hh). Rcases; reflexivity.
Qed.

Lemma membership_value_middle (i : Z) (x : R) :
  (1 < i < h)%Z ->
  membership_value a h i x = middle_level (th a (i - 1)) (th a i) (th a (i + 1)) x.
Proof.
  intros Hi. unfold membership_value, middle_level.
  rewrite (membership_middle x a h Hlen i Hi). Rcases; reflexivity.
Qed.

Lemma membership_value_last (x : R) :
  (1 < h)%Z ->
  membership_value a h h x = last_level (th a (h - 1)) (th a h) x.
Proof.
  intros Hh. unfold membership_value, last_level.
  rewrite (membership_last x a h Hlen Hh). Rcases; reflexivity.
Qed.

End MembershipShapes.

Lemma th_pos (a : list R) (k : Z) :
  Forall (fun t => 0 < t) a -> (1 <= k <= Z.of_nat (length a))%Z -> 0 < th a k.
Proof.
  intros Ha Hk. unfold th. rewrite Forall_forall in Ha.
  apply Ha. apply nth_In. lia.
Qed.

Lemma th_beyond (a : list R) (k : Z) :
  (Z.of_nat (length a) < k)%Z -> th a k = 0.
Proof. intros Hk. unfold th. apply nth_overflow. lia. Qed.

Lemma continuity_pt_ext (f g : R -> R) (c : R) :
  (forall x, f x = g x) -> continuity_pt g c -> continuity_pt f c.
Proof.
  intros E C. apply (continuity_pt_near f g c (c - 1) (c + 1)); [lra | | exact C].
  intros x _. apply E.
Qed.

(** The value at the upper threshold of a level i >= 2 when that threshold
    is not positive, and the value just below it. *)
Lemma upper_level_jump (a : list R) (h i : Z) (x : R) :
  strictly_decreasing a ->
  Z.of_nat (length a) = h ->
  (1 < i <= h)%Z ->
  th a (i - 1) <= 0 ->
  th a i < x < th a (i - 1) ->
  membership_value a h i (th a (i - 1)) = 0 /\ membership_value a h i x = 1.
Proof.
  intros Hd Hlen Hi Hp Hx.
  assert (1 < i < h \/ i = h)%Z as [Hm | E] by lia.
  - rewrite !(membership_value_middle a h Hlen i) by exact Hm.
    unfold middle_level. split; Rcases; first [reflexivity | exfalso; lra].
  - subst i. rewrite !(membership_value_last a h Hlen) by lia.
    unfold last_level. split; Rcases; first [reflexivity | exfalso; lra].
Qed.

(** C7, as the code has it.  For strictly decreasing thresholds the
    membership of level i, as a function of x, is continuous at every
    threshold a_k exactly when the threshold above the level is positive:
    a_(i-1) > 0 for a level i >= 2, nothing for level 1 of two or more
    levels, and a_1 > 0 for the only level of a single one (whose lower
    threshold is read as 0).  The sign of the other thresholds does not
    matter. *)
Theorem membership_continuous_at_thresholds (a : list R) (h i : Z) :
  strictly_decreasing a ->
  Z.of_nat (length a) = h ->
  (1 <= i <= h)%Z ->
  (forall k, (1 <= k <= h)%Z -> continuity_pt (membership_value a h i) (th a k)) <->
  ((i = 1%Z -> h = 1%Z -> 0 < th a 1) /\ ((1 < i)%Z -> 0 < th a (i - 1))).
Proof.
  intros Hd Hlen Hi. split.
  - intros Hall. split.
    + intros Ei Eh. subst i.
      destruct (Rlt_le_dec 0 (th a 1)) as [Hpos | Hle]; [exact Hpos |].
      exfalso.
      apply (jump_not_continuous (membership_value a h 1) (th a 1) (th a 1 - 1));
        [lra | | apply (Hall 1%Z); lia].
      intros x Hx. rewrite !(membership_value_first a h Hlen) by lia.
      rewrite (th_beyond a 2) by lia.
      assert (first_level (th a 1) 0 x = 0) as ->
        by (unfold first_level; Rcases; first [reflexivity | exfalso; lra]).
      assert (first_level (th a 1) 0 (th a 1) = 1) as ->
        by (unfold first_level; Rcases; first [reflexivity | exfalso; lra]).
      rewrite Rabs_left by lra. lra.
    + intros H1.
      destruct (Rlt_le_dec 0 (th a (i - 1))) as [Hpos | Hle]; [exact Hpos |].
      exfalso.
      pose proof (th_step a (i - 1) Hd ltac:(lia)) as P.
      replace (i - 1 + 1)%Z with i in P by lia.
      apply (jump_not_continuous (membership_value a h i) (th a (i - 1)) (th a i));
        [lra | | apply (Hall (i - 1)%Z); lia].
      intros x Hx.
      destruct (upper_level_jump a h i x Hd Hlen ltac:(lia) Hle Hx) as [-> ->].
      rewrite Rabs_pos_eq by lra. lra.
  - intros [Hone Hup] k Hk.
    assert (i = 1 \/ 1 < i < h \/ (1 < i /\ i = h))%Z as [-> | [Hm | [H1 ->]]] by lia.
    + apply (continuity_pt_ext _ (first_level (th a 1) (th a 2))).
      * intros x. apply (membership_value_first a h Hlen). lia.
      * apply first_level_continuous.
        destruct (Z.eq_dec h 1) as [E | E].
        -- rewrite (th_beyond a 2) by lia. now apply Hone.
        -- apply (th_step a 1 Hd). lia.
    + apply (continuity_pt_ext _
               (middle_level (th a (i - 1)) (th a i) (th a (i + 1)))).
      * intros x. now apply (membership_value_middle a h Hlen).
      * pose proof (th_step a (i - 1) Hd ltac:(lia)) as P.
        replace (i - 1 + 1)%Z with i in P by lia.
        pose proof (th_step a i Hd ltac:(lia)) as P'.
        apply middle_level_continuous; try lra. apply Hup. lia.
    + apply (continuity_pt_ext _ (last_level (th a (h - 1)) (th a h))).
      * intros x. now apply (membership_value_last a h Hlen).
      * pose proof (th_step a (h - 1) Hd ltac:(lia)) as P.
        replace (h - 1 + 1)%Z with h in P by lia.
        specialize (Hup H1).
        destruct (Z.eq_dec k h) as [-> | Hkh].
        -- destruct (Rlt_le_dec 0 (th a h)) as [Hc | Hc].
           ++ apply last_level_continuous; lra.
           ++ apply last_level_continuous_low; lra.
        -- apply last_level_continuous_above; try lra.
           apply th_antitone; [exact Hd | lia | lia].
Qed.

Lemma membership_continuous_at_thresholds_witness :
  strictly_decreasing [10; 5; 0] /\
  continuity_pt (membership_value [10; 5; 0] 3 3) (th [10; 5; 0] 3).
Proof.
  assert (strictly_decreasing [10; 5; 0]) as Hsd by (cbn; lra).
  split; [exact Hsd |].
  apply (proj2 (membership_continuous_at_thresholds [10; 5; 0] 3 3 Hsd eq_refl
                  ltac:(lia))); [| lia].
  split; [intros E; discriminate E |].
  intros _. change (th [10; 5; 0] (3 - 1)) with 5. lra.
Defined.

(** With the thresholds 0 > -1 > -2 the membership of level 2 jumps at
    a_1 = 0: it is 0 there (the guard x > 0 of the hyperbolic branch fails)
    and 1 just below. *)
Lemma membership_continuous_at_thresholds_counterexample :
  strictly_decreasing [0; -1; -2] /\
  ~ continuity_pt (membership_value [0; -1; -2] 3 2) (th [0; -1; -2] 1).
Proof.
  split; [cbn; lra |].
  change (th [0; -1; -2] 1) with 0. intros C.
  destruct (C (1 / 2)) as (alp & Halp & K); [lra |].
  pose proof (Rmin_l alp 1) as M1. pose proof (Rmin_r alp 1) as M2.
  assert (0 < Rmin alp 1) as M0 by (apply Rmin_glb_lt; lra).
  specialize (K (- (Rmin alp 1 / 2))).
  unfold dist in K. cbn in K. unfold R_dist, D_x, no_cond in K.
  rewrite !(membership_value_middle [0; -1; -2] 3 eq_refl 2) in K by lia.
  change (th [0; -1; -2] (2 - 1)) with 0 in K.
  change (th [0; -1; -2] 2) with (-1) in K.
  change (th [0; -1; -2] (2 + 1)) with (-2) in K.
  assert (middle_level 0 (-1) (-2) (- (Rmin alp 1 / 2)) = 1) as E1.
  { unfold middle_level. rewrite Rgeb_false by lra.
    rewrite Rleb_true by lra. now rewrite Rltb_true by lra. }
  assert (middle_level 0 (-1) (-2) 0 = 0) as E0.
  { unfold middle_level. rewrite Rgeb_true by lra. now rewrite Rgtb_false by lra. }
  rewrite E1, E0 in K.
  assert (Rabs (1 - 0) < 1 / 2) as Bad.
  { apply K. split; [split; [exact I | lra] |].
    rewrite Rabs_left by lra. lra. }
  rewrite Rabs_pos_eq in Bad by lra. lra.
Qed.

(** ** The membership function on the thresholds of the example factor f1 *)

Ltac th_eval :=
  repeat match goal with
  | |- context [th ?a ?k] =>
      let n := eval cbv in (Z.to_nat (k - 1)) in
      change (th a k) with (nth n a 0)
  end;
  cbn [nth].

Example f1_level1_at_20 : lower_bound_level_membership 20 [15; 10; 5; 2] 1 4 = Ok 1.
Proof.
  rewrite (membership_first 20 [15; 10; 5; 2] 4 eq_refl) by lia. th_eval.
  now rewrite Rgeb_true by lra.
Qed.

Example f1_level2_at_20 :
  lower_bound_level_membership 20 [15; 10; 5; 2] 2 4 = Ok (15 / 20).
Proof.
  rewrite (membership_middle 20 [15; 10; 5; 2] 4 eq_refl) by lia. th_eval.
  rewrite Rgeb_true by lra. now rewrite Rgtb_true by lra.
Qed.

Example f1_level3_at_8 :
  lower_bound_level_membership 8 [15; 10; 5; 2] 3 4 = Ok 1.
Proof.
  rewrite (membership_middle 8 [15; 10; 5; 2] 4 eq_refl) by lia. th_eval.
  rewrite Rgeb_false by lra. rewrite Rleb_true by lra. now rewrite Rltb_true by lra.
Qed.

Example f1_level4_at_20 :
  lower_bound_level_membership 20 [15; 10; 5; 2] 4 4 = Ok (5 / 20).
Proof.
  rewrite (membership_last 20 [15; 10; 5; 2] 4 eq_refl) by lia. th_eval.
  rewrite Rgeb_true by lra. now rewrite Rgtb_true by lra.
Qed.

Example f1_level4_at_1 :
  lower_bound_level_membership 1 [15; 10; 5; 2] 4 4 = Ok (1 / 2).
Proof.
  rewrite (membership_last 1 [15; 10; 5; 2] 4 eq_refl) by lia. th_eval.
  rewrite Rgeb_false by lra. rewrite Rleb_false by lra. cbn [andb].
  rewrite Rleb_false by lra. now rewrite Rgtb_true by lra.
Qed.

Example f1_level4_at_0 :
  lower_bound_level_membership 0 [15; 10; 5; 2] 4 4 = Ok 1.
Proof.
  rewrite (membership_last 0 [15; 10; 5; 2] 4 eq_refl) by lia. th_eval.
  rewrite Rgeb_false by lra. rewrite Rleb_false by lra. cbn [andb].
  now rewrite Rleb_true by lra.
Qed.

Example level_out_of_range :
  lower_bound_level_membership 20 [15; 10; 5; 2] 5 4 = Raise ValueError /\
  lower_bound_level_membership 20 [15; 10; 5; 2] 0 4 = Raise ValueError.
Proof. split; reflexivity. Qed.

Example thresholds_of_wrong_length :
  lower_bound_level_membership 20 [15; 10; 5] 2 4 = Raise ValueError.
Proof. reflexivity. Qed.

(** ** One object, one factor, two levels: the code run step by step *)

Ltac run :=
  cbn -[Rgeb Rgtb Rleb Rltb Reqb IZR sqrt Rplus Rmult Rminus Rdiv Rmax Rmin pow].

Example topsis_one_factor :
  topsis_chain one_factor (Some [1]) =
  Ok ([("T1"%string, {| D_plus := [0; 1]; D_minus := [1; 0] |})],
      [("T1"%string, [1; 0])],
      [("T1"%string, [1; 0])]).
Proof.
  unfold topsis_chain, one_factor,
    TOPSISComprehensiveEvaluation.calculate_comprehensive_membership.
  run.
  replace (0 + 1 * (1 - 1) ^ 2) with 0 by lra.
  replace (0 + 1 * (0 - 1) ^ 2) with 1 by lra.
  replace (0 + 1 * 1 ^ 2) with 1 by lra.
  replace (0 + 1 * 0 ^ 2) with 0 by lra.
  rewrite sqrt_0, sqrt_1.
  rewrite !(Reqb_false _ 0) by lra.
  replace (1 / (0 + 1)) with 1 by lra.
  replace (0 / (1 + 0)) with 0 by lra.
  unfold TOPSISComprehensiveEvaluation.normalize_scores. run.
  replace (0 + 1 + 0) with 1 by lra.
  rewrite Rgtb_true by lra. run.
  replace (1 / 1) with 1 by lra. replace (0 / 1) with 0 by lra.
  reflexivity.
Qed.

Example vikor_one_factor :
  VIKORComprehensiveEvaluation.calculate_comprehensive_scores
    one_factor None (Some 2) =
  Ok [("T1"%string, {| S_values := [0; 1]; R_values := [0; 1]; Q_values := [0; 1] |})].
Proof.
  unfold VIKORComprehensiveEvaluation.calculate_comprehensive_scores, one_factor.
  run.
  replace (1 / 1 * (1 - 1)) with 0 by lra.
  replace (1 / 1 * (1 - 0)) with 1 by lra.
  replace (0 + 0) with 0 by lra. replace (0 + 1) with 1 by lra.
  unfold VIKORComprehensiveEvaluation.compromise. run.
  rewrite (Rmin_left 0 1), (Rmax_right 0 1) by lra.
  rewrite !(Reqb_false (1 - 0) 0) by lra. run.
  replace (2 * (0 - 0) / (1 - 0) + (1 - 2) * (0 - 0) / (1 - 0)) with 0 by lra.
  replace (2 * (1 - 0) / (1 - 0) + (1 - 2) * (1 - 0) / (1 - 0)) with 1 by lra.
  reflexivity.
Qed.

(** The same object without its only factor: [np.max] of an empty array
    raises. *)
Example vikor_no_factor :
  VIKORComprehensiveEvaluation.calculate_comprehensive_scores
    [("T1"%string, {| nrows := 0; ncols := 2; rows := [] |})] (Some []) None =
  Raise ValueError.
Proof. reflexivity. Qed.

(** No weights and no factor: 1.0 / num_factors divides by zero. *)
Example topsis_no_factor :
  topsis_chain [("T1"%string, {| nrows := 0; ncols := 2; rows := [] |})] None =
  Raise ZeroDivisionError.
Proof. reflexivity. Qed.

Example topsis_empty_dict : topsis_chain [] None = Raise StopIteration.
Proof. reflexivity. Qed.

Example topsis_weights_of_wrong_length :
  topsis_chain one_factor (Some [1 / 2; 1 / 2]) = Raise ValueError.
Proof. reflexivity. Qed.

(** ** The sample vector in binary64 *)

(** Run on floats, the sum for [0.382, 0.297, 0.205, 0.116] lies between
    2.0549 and 2.0551: rounding does not move it to 2.056. *)
Example T1_binary64 :
  let v := characteristic_value_binary64
             [0.382%float; 0.297%float; 0.205%float; 0.116%float] in
  PrimFloat.ltb 2.0549%float v = true /\ PrimFloat.ltb v 2.0551%float = true.
Proof. split; vm_compute; reflexivity. Qed.

(** * Further properties of the algorithm layer *)

Lemma entry_in_unit (m : ndarray) (f j : nat) :
  entries_in_unit m -> 0 <= entry m f j <= 1.
Proof.
  intros Hm. unfold entry.
  destruct (nth_in_or_default f (rows m) []) as [Hr | ->].
  - unfold entries_in_unit in Hm. rewrite Forall_forall in Hm.
    specialize (Hm _ Hr).
    destruct (nth_in_or_default j (nth f (rows m) []) 0) as [Hx | ->]; [| lra].
    rewrite Forall_forall in Hm. exact (Hm _ Hx).
  - destruct j; cbn; lra.
Qed.

(** ** TOPSIS: what the scores do not depend on *)

Lemma nth_scaled (c : R) (w : list R) (f : nat) :
  nth f (map (Rmult c) w) 0 = c * nth f w 0.
Proof.
  rewrite <- (Rmult_0_r c) at 1. exact (map_nth (Rmult c) w 0 f).
Qed.

Lemma big_sum_scale_l (n : nat) (F : nat -> R) (c : R) :
  big_sum n (fun k => c * F k) = c * big_sum n F.
Proof.
  unfold big_sum. generalize (seq 0 n) as l.
  induction l as [| k t IH]; cbn; [lra |]. rewrite IH. lra.
Qed.

Section TopsisScaling.

Variables (w : list R) (m : ndarray) (c : R).
Hypothesis Hc : 0 < c.

Lemma Dp_scaled (j : nat) :
  TopsisSpec.Dp (map (Rmult c) w) m j = sqrt c * TopsisSpec.Dp w m j.
Proof.
  unfold TopsisSpec.Dp. rewrite <- sqrt_mult_alt by lra. f_equal.
  rewrite <- big_sum_scale_l. apply big_sum_ext. intros f _.
  rewrite nth_scaled. lra.
Qed.

Lemma Dm_scaled (j : nat) :
  TopsisSpec.Dm (map (Rmult c) w) m j = sqrt c * TopsisSpec.Dm w m j.
Proof.
  unfold TopsisSpec.Dm. rewrite <- sqrt_mult_alt by lra. f_equal.
  rewrite <- big_sum_scale_l. apply big_sum_ext. intros f _.
  rewrite nth_scaled. lra.
Qed.

Lemma V_scaled (j : nat) :
  TopsisSpec.V (map (Rmult c) w) m j = TopsisSpec.V w m j.
Proof.
  unfold TopsisSpec.V. rewrite Dp_scaled, Dm_scaled.
  pose proof (sqrt_lt_R0 c Hc) as Hs.
  pose proof (Dp_nonneg w m j). pose proof (Dm_nonneg w m j).
  destruct (Req_dec_T (TopsisSpec.Dp w m j + TopsisSpec.Dm w m j) 0) as [E | E].
  - rewrite (Reqb_true _ _ E). rewrite Reqb_true; [reflexivity |].
    rewrite <- Rmult_plus_distr_l, E. apply Rmult_0_r.
  - rewrite (Reqb_false _ _ E). rewrite <- Rmult_plus_distr_l.
    rewrite Reqb_false.
    + field. split; lra.
    + intros Hz. apply Rmult_integral in Hz. destruct Hz; lra.
Qed.

Lemma U_scaled (j : nat) :
  TopsisSpec.U (map (Rmult c) w) m j = TopsisSpec.U w m j.
Proof.
  unfold TopsisSpec.U.
  rewrite (big_sum_ext _ (TopsisSpec.V (map (Rmult c) w) m) (TopsisSpec.V w m))
    by (intros k _; apply V_scaled).
  now rewrite V_scaled.
Qed.

End TopsisScaling.

(** X1.  The relative closeness V and the comprehensive membership U do not
    change when every weight is multiplied by the same positive number: the
    weights need not sum to 1. *)
Theorem topsis_weights_scale_free
    (d : dict ndarray) (w : list R) (c : R) (nf nl : nat) :
  matrices_wf d nf nl ->
  weights_fit (Some w) nf ->
  0 < c ->
  exists D D' V U,
    topsis_chain d (Some w) = Ok (D, V, U) /\
    topsis_chain d (Some (map (Rmult c) w)) = Ok (D', V, U).
Proof.
  intros Hd Hw Hc.
  assert (weights_fit (Some (map (Rmult c) w)) nf) as Hw'.
  { destruct Hw as [Hl Hpos]. split; [now rewrite length_map |].
    apply Forall_forall. intros x Hx. apply in_map_iff in Hx.
    destruct Hx as (y & <- & Hy). rewrite Forall_forall in Hpos.
    specialize (Hpos y Hy). apply Rmult_le_pos; lra. }
  do 4 eexists. split.
  - apply (topsis_chain_by_formula d (Some w) nf nl Hd Hw).
  - rewrite (topsis_chain_by_formula d _ nf nl Hd Hw'). cbn [weights_in_force].
    unfold levels_by_formula. do 2 f_equal.
    + f_equal. apply map_ext. intros kv. f_equal. apply map_ext. intros j.
      now apply V_scaled.
    + apply map_ext. intros kv. f_equal. apply map_ext. intros j.
      now apply U_scaled.
Qed.

Lemma topsis_weights_scale_free_witness :
  matrices_wf two_by_two 2 2 /\
  weights_fit (Some [1 / 2; 1 / 2]) 2 /\
  exists D D' V U,
    topsis_chain two_by_two (Some [1 / 2; 1 / 2]) = Ok (D, V, U) /\
    topsis_chain two_by_two (Some (map (Rmult 4) [1 / 2; 1 / 2])) = Ok (D', V, U).
Proof.
  assert (weights_fit (Some [1 / 2; 1 / 2]) 2) as Hw.
  { split; [reflexivity |]. repeat constructor; lra. }
  split; [exact two_by_two_wf |]. split; [exact Hw |].
  apply (topsis_weights_scale_free two_by_two [1 / 2; 1 / 2] 4 2 2 two_by_two_wf Hw).
  lra.
Defined.

(** ** TOPSIS: extreme levels and bounds *)

Lemma nth_map_seq (F : nat -> R) (n j : nat) :
  (j < n)%nat -> nth j (map F (seq 0 n)) 0 = F j.
Proof.
  intros Hj. rewrite (nth_indep _ 0 (F 0%nat)) by (now rewrite length_map, length_seq).
  rewrite map_nth, seq_nth by exact Hj. reflexivity.
Qed.

Lemma big_sum_zero (n : nat) (F : nat -> R) :
  (forall k, (k < n)%nat -> F k = 0) -> big_sum n F = 0.
Proof.
  intros H. rewrite (big_sum_ext n F (fun _ => 0) H).
  unfold big_sum. generalize (seq 0 n) as l.
  induction l as [| k t IH]; cbn; [reflexivity | rewrite IH; lra].
Qed.

Lemma big_sum_le (n : nat) (F G : nat -> R) :
  (forall k, (k < n)%nat -> F k <= G k) -> big_sum n F <= big_sum n G.
Proof.
  unfold big_sum. intros H.
  assert (forall l, (forall k, In k l -> F k <= G k) ->
            fold_right Rplus 0 (map F l) <= fold_right Rplus 0 (map G l)) as K.
  { induction l as [| k t IH]; intros Hl; cbn; [lra |].
    pose proof (Hl k (or_introl eq_refl)).
    pose proof (IH (fun k' Hk' => Hl k' (or_intror Hk'))). lra. }
  apply K. intros k Hk. apply in_seq in Hk. apply H. lia.
Qed.

Section TopsisExtremes.

Variables (w : list R) (m : ndarray).
Hypothesis Hw : 0 < big_sum (nrows m) (fun f => nth f w 0).

(** A level in which every factor has membership 1 is at distance 0 from the
    ideal-best point. *)
Lemma V_of_full_level (j : nat) :
  (forall f, (f < nrows m)%nat -> entry m f j = 1) -> TopsisSpec.V w m j = 1.
Proof.
  intros H1. unfold TopsisSpec.V.
  assert (TopsisSpec.Dp w m j = 0) as ->.
  { unfold TopsisSpec.Dp. rewrite big_sum_zero; [apply sqrt_0 |].
    intros f Hf. rewrite (H1 f Hf). lra. }
  assert (0 < TopsisSpec.Dm w m j) as Hm.
  { unfold TopsisSpec.Dm. apply sqrt_lt_R0.
    rewrite (big_sum_ext _ _ (fun f => nth f w 0)); [exact Hw |].
    intros f Hf. rewrite (H1 f Hf). lra. }
  rewrite Reqb_false by lra. field. lra.
Qed.

Lemma V_of_empty_level (j : nat) :
  (forall f, (f < nrows m)%nat -> entry m f j = 0) -> TopsisSpec.V w m j = 0.
Proof.
  intros H0. unfold TopsisSpec.V.
  assert (TopsisSpec.Dm w m j = 0) as ->.
  { unfold TopsisSpec.Dm. rewrite big_sum_zero; [apply sqrt_0 |].
    intros f Hf. rewrite (H0 f Hf). lra. }
  destruct (Req_dec_T (TopsisSpec.Dp w m j + 0) 0) as [E | E].
  - now rewrite (Reqb_true _ _ E).
  - rewrite (Reqb_false _ _ E). unfold Rdiv. lra.
Qed.

End TopsisExtremes.

(** X2.  With weights of positive total, a level in which all factors of an
    object have membership 1 gets relative closeness V = 1, and a level in
    which all have membership 0 gets V = 0. *)
Theorem topsis_extreme_levels
    (d : dict ndarray) (weights : option (list R)) (nf nl : nat) :
  matrices_wf d nf nl ->
  weights_fit weights nf ->
  0 < big_sum nf (fun f => nth f (weights_in_force weights nf) 0) ->
  exists D V U,
    topsis_chain d weights = Ok (D, V, U) /\
    objectwise
      (fun m vs => forall j, (j < nl)%nat ->
         ((forall f, (f < nf)%nat -> entry m f j = 1) -> nth j vs 0 = 1) /\
         ((forall f, (f < nf)%nat -> entry m f j = 0) -> nth j vs 0 = 0))
      d V.
Proof.
  intros Hd Hw Hsum. do 3 eexists.
  split; [apply (topsis_chain_by_formula d weights nf nl Hd Hw) |].
  unfold levels_by_formula.
  apply (objectwise_map _
           (fun m => map (TopsisSpec.V (weights_in_force weights nf) m) (seq 0 nl))).
  intros name m Hin j Hj. destruct Hd as (_ & _ & Hall).
  destruct (Hall name m Hin) as (_ & Hr & _). rewrite nth_map_seq by exact Hj.
  split; intros H.
  - apply V_of_full_level; [now rewrite Hr |]. intros f Hf. apply H. lia.
  - apply V_of_empty_level. intros f Hf. apply H. lia.
Qed.

Lemma topsis_extreme_levels_witness :
  matrices_wf one_factor 1 2 /\
  weights_fit (Some [1]) 1 /\
  exists D V U,
    topsis_chain one_factor (Some [1]) = Ok (D, V, U) /\
    objectwise
      (fun m vs => forall j, (j < 2)%nat ->
         ((forall f, (f < 1)%nat -> entry m f j = 1) -> nth j vs 0 = 1) /\
         ((forall f, (f < 1)%nat -> entry m f j = 0) -> nth j vs 0 = 0))
      one_factor V.
Proof.
  assert (matrices_wf one_factor 1 2) as Hd.
  { unfold one_factor. split; [discriminate |]. split.
    - unfold dict_wf. cbn. constructor; [intros [] | constructor].
    - intros name m [[= <- <-] | []]. unfold ndarray_wf. cbn.
      repeat split; trivial. repeat constructor. }
  assert (weights_fit (Some [1]) 1) as Hw.
  { split; [reflexivity |]. repeat constructor; lra. }
  split; [exact Hd |]. split; [exact Hw |].
  apply (topsis_extreme_levels one_factor (Some [1]) 1 2 Hd Hw).
  unfold big_sum. cbn. lra.
Defined.

Lemma nth_nonneg (w : list R) (f : nat) :
  Forall (fun x => 0 <= x) w -> 0 <= nth f w 0.
Proof.
  intros Hw. destruct (nth_in_or_default f w 0) as [Hin | ->]; [| lra].
  rewrite Forall_forall in Hw. exact (Hw _ Hin).
Qed.

Lemma singleton_wf (name : string) (m : ndarray) :
  ndarray_wf m -> matrices_wf [(name, m)] (nrows m) (ncols m).
Proof.
  intros Hm. split; [discriminate |]. split.
  - unfold dict_wf. cbn. constructor; [intros [] | constructor].
  - intros name' m' [[= <- <-] | []]. split; [exact Hm | split; reflexivity].
Qed.

Lemma Forall2_map_seq (P : R -> R -> Prop) (F G : nat -> R) (n : nat) :
  (forall j, (j < n)%nat -> P (F j) (G j)) ->
  Forall2 P (map F (seq 0 n)) (map G (seq 0 n)).
Proof.
  intros H.
  assert (forall l, (forall j, In j l -> (j < n)%nat) ->
                    Forall2 P (map F l) (map G l)) as K.
  { induction l as [| j t IH]; intros Hl; cbn; constructor.
    - apply H, Hl. now left.
    - apply IH. intros j' Hj'. apply Hl. now right. }
  apply K. intros j Hj. apply in_seq in Hj. lia.
Qed.

Section TopsisMonotone.

Variables (w : list R) (m m' : ndarray).
Hypothesis Hw : Forall (fun x => 0 <= x) w.
Hypothesis Hrows : nrows m' = nrows m.
Hypothesis Hm : entries_in_unit m.
Hypothesis Hm' : entries_in_unit m'.
Hypothesis Hle : forall f j, entry m f j <= entry m' f j.

Lemma Dm_monotone (j : nat) : TopsisSpec.Dm w m j <= TopsisSpec.Dm w m' j.
Proof.
  unfold TopsisSpec.Dm. rewrite Hrows. apply sqrt_le_1_alt, big_sum_le.
  intros f _. apply Rmult_le_compat_l; [now apply nth_nonneg |].
  pose proof (entry_in_unit m f j Hm). pose proof (Hle f j). nra.
Qed.

Lemma Dp_antitone (j : nat) : TopsisSpec.Dp w m' j <= TopsisSpec.Dp w m j.
Proof.
  unfold TopsisSpec.Dp. rewrite Hrows. apply sqrt_le_1_alt, big_sum_le.
  intros f _. apply Rmult_le_compat_l; [now apply nth_nonneg |].
  pose proof (entry_in_unit m' f j Hm'). pose proof (Hle f j). nra.
Qed.

Lemma V_monotone (j : nat) : TopsisSpec.V w m j <= TopsisSpec.V w m' j.
Proof.
  pose proof (Dm_monotone j) as H1. pose proof (Dp_antitone j) as H2.
  pose proof (Dp_nonneg w m j). pose proof (Dm_nonneg w m j).
  pose proof (Dp_nonneg w m' j). pose proof (Dm_nonneg w m' j).
  pose proof (V_range w m' j) as Hr'.
  unfold TopsisSpec.V in *.
  destruct (Req_dec_T (TopsisSpec.Dp w m j + TopsisSpec.Dm w m j) 0) as [E | E].
  - rewrite (Reqb_true _ _ E). lra.
  - rewrite (Reqb_false _ _ E).
    destruct (Req_dec_T (TopsisSpec.Dp w m' j + TopsisSpec.Dm w m' j) 0) as [E' | E'].
    + rewrite (Reqb_true _ _ E').
      assert (TopsisSpec.Dm w m j = 0) as -> by lra. unfold Rdiv. lra.
    + rewrite (Reqb_false _ _ E').
      set (p := TopsisSpec.Dp w m j) in *. set (q := TopsisSpec.Dm w m j) in *.
      set (p' := TopsisSpec.Dp w m' j) in *. set (q' := TopsisSpec.Dm w m' j) in *.
      assert (0 < p + q) as Hs by lra. assert (0 < p' + q') as Hs' by lra.
      apply (Rmult_le_reg_r ((p + q) * (p' + q'))); [nra |].
      replace (q / (p + q) * ((p + q) * (p' + q'))) with (q * (p' + q'))
        by (field; lra).
      replace (q' / (p' + q') * ((p + q) * (p' + q'))) with (q' * (p + q))
        by (field; lra).
      nra.
Qed.

End TopsisMonotone.

(** X3.  Raising memberships never lowers the relative closeness: for two
    matrices of one shape with entries in [0, 1], the second at least the
    first in every entry, every V of the second is at least the V of the
    first at the same level. *)
Theorem topsis_closeness_monotone
    (name : string) (m m' : ndarray) (weights : option (list R)) :
  ndarray_wf m -> ndarray_wf m' ->
  nrows m' = nrows m -> ncols m' = ncols m ->
  entries_in_unit m -> entries_in_unit m' ->
  (forall f j, entry m f j <= entry m' f j) ->
  weights_fit weights (nrows m) ->
  exists D V U D' V' U',
    topsis_chain [(name, m)] weights = Ok (D, [(name, V)], U) /\
    topsis_chain [(name, m')] weights = Ok (D', [(name, V')], U') /\
    Forall2 Rle V V'.
Proof.
  intros Hm Hm' Hr Hc He He' Hle Hw.
  pose proof (topsis_chain_by_formula _ weights _ _ (singleton_wf name m Hm) Hw) as E.
  assert (weights_fit weights (nrows m')) as Hw' by now rewrite Hr.
  pose proof (topsis_chain_by_formula _ weights _ _ (singleton_wf name m' Hm') Hw') as E'.
  do 6 eexists. split; [exact E |]. split; [exact E' |].
  rewrite Hr, Hc. apply Forall2_map_seq. intros j _.
  apply V_monotone; trivial. now apply weights_in_force_nonneg.
Qed.

Lemma topsis_closeness_monotone_witness :
  exists D V U D' V' U',
    topsis_chain [("T1"%string, mk_ndarray 1 2 [[1 / 2; 0]])] (Some [1]) =
      Ok (D, [("T1"%string, V)], U) /\
    topsis_chain [("T1"%string, mk_ndarray 1 2 [[1; 0]])] (Some [1]) =
      Ok (D', [("T1"%string, V')], U') /\
    Forall2 Rle V V'.
Proof.
  apply (topsis_closeness_monotone "T1"
           (mk_ndarray 1 2 [[1 / 2; 0]]) (mk_ndarray 1 2 [[1; 0]]) (Some [1])).
  - unfold ndarray_wf. cbn. repeat split; trivial. repeat constructor.
  - unfold ndarray_wf. cbn. repeat split; trivial. repeat constructor.
  - reflexivity.
  - reflexivity.
  - unfold entries_in_unit. cbn. repeat constructor; lra.
  - unfold entries_in_unit. cbn. repeat constructor; lra.
  - intros [| [| f]] [| [| [| j]]]; unfold entry; cbn; try lra; destruct j; lra.
  - split; [reflexivity |]. repeat constructor; lra.
Defined.

(** ** TOPSIS: the normalisation of the scores *)

Lemma np_sum_map_div (s : list R) (t : R) :
  np_sum (map (fun x => x / t) s) = np_sum s / t.
Proof.
  rewrite !np_sum_fold_right.
  induction s as [| x r IH]; cbn; [unfold Rdiv; lra |].
  rewrite IH. unfold Rdiv. lra.
Qed.

Lemma np_sum_zeros (n : nat) : np_sum (np_zeros n) = 0.
Proof.
  rewrite np_sum_fold_right. unfold np_zeros.
  induction n as [| n IH]; cbn; [reflexivity | rewrite IH; lra].
Qed.

Lemma normalize_scores_idempotent (s : list R) :
  TOPSISComprehensiveEvaluation.normalize_scores
    (TOPSISComprehensiveEvaluation.normalize_scores s) =
  TOPSISComprehensiveEvaluation.normalize_scores s.
Proof.
  destruct (Rgt_dec (np_sum s) 0) as [Hpos | Hneg].
  - assert (TOPSISComprehensiveEvaluation.normalize_scores s =
            map (fun x => x / np_sum s) s) as E.
    { unfold TOPSISComprehensiveEvaluation.normalize_scores.
      now rewrite (Rgtb_true _ _ Hpos). }
    rewrite E. unfold TOPSISComprehensiveEvaluation.normalize_scores.
    rewrite np_sum_map_div.
    replace (np_sum s / np_sum s) with 1 by (field; lra).
    rewrite Rgtb_true by lra. rewrite map_map.
    apply map_ext. intros x. field. lra.
  - apply Rnot_gt_le in Hneg.
    assert (TOPSISComprehensiveEvaluation.normalize_scores s =
            np_zeros (length s)) as E.
    { unfold TOPSISComprehensiveEvaluation.normalize_scores.
      now rewrite (Rgtb_false _ _ Hneg). }
    rewrite E. unfold TOPSISComprehensiveEvaluation.normalize_scores, np_zeros_like.
    rewrite np_sum_zeros. rewrite Rgtb_false by lra.
    unfold np_zeros. now rewrite repeat_length.
Qed.

(** X4.  Normalising the scores twice is the same as normalising them once:
    [calculate_comprehensive_membership_scores] leaves its own output
    unchanged, for every dict of score vectors. *)
Theorem membership_scores_idempotent (scores : dict (list R)) :
  dict_wf scores ->
  TOPSISComprehensiveEvaluation.calculate_comprehensive_membership_scores
    (TOPSISComprehensiveEvaluation.calculate_comprehensive_membership_scores scores) =
  TOPSISComprehensiveEvaluation.calculate_comprehensive_membership_scores scores.
Proof.
  intros Hwf.
  unfold TOPSISComprehensiveEvaluation.calculate_comprehensive_membership_scores.
  rewrite (fold_dict_map TOPSISComprehensiveEvaluation.normalize_scores scores Hwf).
  rewrite (fold_dict_map TOPSISComprehensiveEvaluation.normalize_scores)
    by (apply (dict_wf_map (fun kv => _) scores Hwf)).
  rewrite map_map. apply map_ext. intros [name s]. cbn [fst snd].
  now rewrite normalize_scores_idempotent.
Qed.

Lemma membership_scores_idempotent_witness :
  dict_wf [("T1"%string, [3; 1]); ("T2"%string, [0; 0])] /\
  TOPSISComprehensiveEvaluation.calculate_comprehensive_membership_scores
    (TOPSISComprehensiveEvaluation.calculate_comprehensive_membership_scores
       [("T1"%string, [3; 1]); ("T2"%string, [0; 0])]) =
  TOPSISComprehensiveEvaluation.calculate_comprehensive_membership_scores
    [("T1"%string, [3; 1]); ("T2"%string, [0; 0])].
Proof.
  assert (dict_wf [("T1"%string, [3; 1]); ("T2"%string, [0; 0])]) as Hwf.
  { unfold dict_wf. cbn. repeat constructor.
    - intros [H | []]. discriminate.
    - intros []. }
  split; [exact Hwf |]. exact (membership_scores_idempotent _ Hwf).
Defined.

(** ** TOPSIS: bounds on the distances *)

(** X5.  For matrices with entries in [0, 1] and non-negative weights whose
    sum is at most 1, every distance D+ and D- lies in [0, 1]. *)
Theorem topsis_distances_bounded
    (d : dict ndarray) (weights : option (list R)) (nf nl : nat) :
  matrices_wf d nf nl ->
  weights_fit weights nf ->
  (forall name m, In (name, m) d -> entries_in_unit m) ->
  big_sum nf (fun f => nth f (weights_in_force weights nf) 0) <= 1 ->
  exists D V U,
    topsis_chain d weights = Ok (D, V, U) /\
    forall name dist, In (name, dist) D ->
      Forall (fun x => 0 <= x <= 1) (D_plus dist) /\
      Forall (fun x => 0 <= x <= 1) (D_minus dist).
Proof.
  intros Hd Hw He Hsum. do 3 eexists.
  split; [apply (topsis_chain_by_formula d weights nf nl Hd Hw) |].
  intros name dist Hin. unfold distances_by_formula in Hin.
  apply in_map_iff in Hin. destruct Hin as ([name' m] & [= <- <-] & Hin).
  cbn [fst snd D_plus D_minus].
  destruct Hd as (_ & _ & Hall). destruct (Hall name' m Hin) as (_ & Hr & _).
  pose proof (weights_in_force_nonneg weights nf Hw) as Hpos.
  specialize (He name' m Hin).
  assert (forall (g : R -> R), (forall x, 0 <= x <= 1 -> 0 <= g x <= 1) ->
          forall j, 0 <= sqrt (big_sum (nrows m)
                     (fun f => nth f (weights_in_force weights nf) 0
                               * g (entry m f j))) <= 1) as K.
  { intros g Hg j. split; [apply sqrt_pos |].
    rewrite <- sqrt_1. apply sqrt_le_1_alt.
    apply Rle_trans with (2 := Hsum). rewrite Hr. apply big_sum_le.
    intros f _. pose proof (nth_nonneg _ f Hpos).
    pose proof (Hg _ (entry_in_unit m f j He)). nra. }
  split; apply Forall_forall; intros x Hx; apply in_map_iff in Hx;
    destruct Hx as (j & <- & _).
  - apply (K (fun x => (x - 1) ^ 2)). intros x Hx. nra.
  - apply (K (fun x => x ^ 2)). intros x Hx. nra.
Qed.

Lemma topsis_distances_bounded_witness :
  matrices_wf two_by_two 2 2 /\
  weights_fit (Some [1 / 2; 1 / 2]) 2 /\
  exists D V U,
    topsis_chain two_by_two (Some [1 / 2; 1 / 2]) = Ok (D, V, U) /\
    forall name dist, In (name, dist) D ->
      Forall (fun x => 0 <= x <= 1) (D_plus dist) /\
      Forall (fun x => 0 <= x <= 1) (D_minus dist).
Proof.
  assert (weights_fit (Some [1 / 2; 1 / 2]) 2) as Hw.
  { split; [reflexivity |]. repeat constructor; lra. }
  split; [exact two_by_two_wf |]. split; [exact Hw |].
  apply (topsis_distances_bounded two_by_two _ 2 2 two_by_two_wf Hw).
  - intros name m [[= <- <-] | []]. unfold entries_in_unit. cbn.
    repeat constructor; lra.
  - unfold big_sum. cbn. lra.
Defined.

(** ** The aggregations on bad input *)

(** X6.  The three aggregation functions look at the dict and the weights
    before any matrix: on an empty dict each raises StopIteration whatever
    the weights are, and on a non-empty dict with a weight list whose length
    is not the number of factors of the first matrix each raises
    ValueError, whatever the matrices hold. *)
Theorem aggregations_reject_bad_input
    (d : dict ndarray) (weights : option (list R)) (v : option R)
    (name : string) (m : ndarray) (w : list R) :
  length w <> nrows m ->
  (calculate_topsis_comprehensive_membership [] weights = Raise StopIteration /\
   TOPSISComprehensiveEvaluation.calculate_comprehensive_membership [] weights =
     Raise StopIteration /\
   VIKORComprehensiveEvaluation.calculate_comprehensive_scores [] weights v =
     Raise StopIteration) /\
  (calculate_topsis_comprehensive_membership ((name, m) :: d) (Some w) =
     Raise ValueError /\
   TOPSISComprehensiveEvaluation.calculate_comprehensive_membership
     ((name, m) :: d) (Some w) = Raise ValueError /\
   VIKORComprehensiveEvaluation.calculate_comprehensive_scores
     ((name, m) :: d) (Some w) v = Raise ValueError).
Proof.
  intros Hl. split; [repeat split |].
  assert (resolve_weights (Some w) (nrows m) = Raise ValueError) as E.
  { unfold resolve_weights. cbn [bind].
    now rewrite (proj2 (Nat.eqb_neq _ _) Hl). }
  unfold calculate_topsis_comprehensive_membership,
    TOPSISComprehensiveEvaluation.calculate_comprehensive_membership,
    VIKORComprehensiveEvaluation.calculate_comprehensive_scores.
  cbn [first_value bind]. rewrite E. now repeat split.
Qed.

Lemma aggregations_reject_bad_input_witness :
  length [1 / 2; 1 / 2] <> nrows (mk_ndarray 1 2 [[1; 0]]) /\
  topsis_chain one_factor (Some [1 / 2; 1 / 2]) = Raise ValueError.
Proof.
  assert (length [1 / 2; 1 / 2] <> nrows (mk_ndarray 1 2 [[1; 0]])) as Hl
    by (cbn; lia).
  split; [exact Hl |].
  destruct (aggregations_reject_bad_input [] None None "T1"
              (mk_ndarray 1 2 [[1; 0]]) [1 / 2; 1 / 2] Hl) as (_ & _ & E & _).
  unfold topsis_chain, one_factor. now rewrite E.
Defined.

(** X7.  [get_comprehensive_scores] needs D+ and D- of one length: the
    relative closeness of two lists is computed exactly when they have the
    same length or D+ has a single entry (which numpy stretches), and then
    it has one value per entry of D-; any other pair of lengths raises
    ValueError. *)
Theorem relative_closeness_shapes (d_positive d_negative : list R) :
  (length d_positive = length d_negative \/ length d_positive = 1%nat ->
   exists vs,
     TOPSISComprehensiveEvaluation.relative_closeness d_positive d_negative = Ok vs /\
     length vs = length d_negative) /\
  (~ (length d_positive = length d_negative \/ length d_positive = 1%nat) ->
   TOPSISComprehensiveEvaluation.relative_closeness d_positive d_negative =
     Raise ValueError).
Proof.
  unfold TOPSISComprehensiveEvaluation.relative_closeness, np_add, np_broadcast.
  destruct (Nat.eqb_spec (length d_positive) (length d_negative)) as [E | E].
  - cbn [bind]. rewrite zip_with_length by exact E. rewrite E, Nat.eqb_refl.
    split; [| tauto]. intros _. eexists. split; [reflexivity |].
    rewrite zip_with_length; [reflexivity |].
    rewrite zip_with_length; congruence.
  - destruct d_positive as [| p [| p' t]].
    + split; [intros [H | H]; cbn in H; [contradiction | discriminate] |].
      intros _. destruct d_negative as [| n [| n' t]]; cbn in *;
        [contradiction | reflexivity | reflexivity].
    + split; [| intros H; exfalso; apply H; now right].
      intros _. cbn [bind].
      exists (zip_with (fun dn t => if t =? 0 then 0 else dn / t) d_negative
                (map (Rplus p) d_negative)).
      rewrite length_map, Nat.eqb_refl. split; [reflexivity |].
      rewrite zip_with_length; now rewrite ?length_map.
    + split; [intros [H | H]; [contradiction | discriminate] |].
      intros _. destruct d_negative as [| n [| n' t']]; cbn [bind]; trivial.
Qed.

Lemma relative_closeness_shapes_witness :
  (exists vs,
     TOPSISComprehensiveEvaluation.relative_closeness [0.2; 0.4] [0.6; 0.4] = Ok vs /\
     length vs = length [0.6; 0.4]) /\
  TOPSISComprehensiveEvaluation.relative_closeness [1; 2; 3] [1; 2] = Raise ValueError.
Proof.
  split.
  - apply (proj1 (relative_closeness_shapes [0.2; 0.4] [0.6; 0.4])).
    left. reflexivity.
  - apply (proj2 (relative_closeness_shapes [1; 2; 3] [1; 2])).
    intros [H | H]; discriminate.
Defined.

(** ** VIKOR: the range of the scores *)

Lemma ratio_or_zero_range (x lo hi : R) :
  lo <= x <= hi -> 0 <= ratio_or_zero (x - lo) (hi - lo) <= 1.
Proof.
  intros Hx. unfold ratio_or_zero. Rcases; [lra |].
  apply ratio_unit_interval; lra.
Qed.

Lemma nth_error_map_seq_lt (F : nat -> R) (n j : nat) :
  (j < n)%nat -> nth_error (map F (seq 0 n)) j = Some (F j).
Proof.
  intros Hj. rewrite (nth_error_nth' _ 0) by (now rewrite length_map, length_seq).
  now rewrite nth_map_seq.
Qed.

Lemma nth_error_map_seq (F : nat -> R) (n j : nat) (x : R) :
  nth_error (map F (seq 0 n)) j = Some x -> (j < n)%nat /\ x = F j.
Proof.
  intros H.
  assert (j < n)%nat as Hj.
  { assert (nth_error (map F (seq 0 n)) j <> None) as Hn by congruence.
    apply nth_error_Some in Hn. now rewrite length_map, length_seq in Hn. }
  split; [exact Hj |]. rewrite (nth_error_map_seq_lt F n j Hj) in H. congruence.
Qed.

Section VikorRange.

Variables (w : list R) (v : R) (m : ndarray).
Hypothesis Hnl : ncols m <> 0%nat.

Lemma S_between (j : nat) :
  (j < ncols m)%nat ->
  VikorSpec.S_star w m <= VikorSpec.S_level w m j <= VikorSpec.S_minus w m.
Proof.
  intros Hj. split.
  - apply (proj2 (big_min_is_min _ (VikorSpec.S_level w m) Hnl) j Hj).
  - apply (proj2 (big_max_is_max _ (VikorSpec.S_level w m) Hnl) j Hj).
Qed.

Lemma R_between (j : nat) :
  (j < ncols m)%nat ->
  VikorSpec.R_star w m <= VikorSpec.R_level w m j <= VikorSpec.R_minus w m.
Proof.
  intros Hj. split.
  - apply (proj2 (big_min_is_min _ (VikorSpec.R_level w m) Hnl) j Hj).
  - apply (proj2 (big_max_is_max _ (VikorSpec.R_level w m) Hnl) j Hj).
Qed.

Lemma Q_range (j : nat) :
  0 <= v <= 1 -> (j < ncols m)%nat -> 0 <= VikorSpec.Q_level w v m j <= 1.
Proof.
  intros Hv Hj. unfold VikorSpec.Q_level.
  pose proof (ratio_or_zero_range _ _ _ (S_between j Hj)).
  pose proof (ratio_or_zero_range _ _ _ (R_between j Hj)).
  nra.
Qed.

Lemma Q_of_best_level (j : nat) :
  VikorSpec.S_level w m j = VikorSpec.S_star w m ->
  VikorSpec.R_level w m j = VikorSpec.R_star w m ->
  VikorSpec.Q_level w v m j = 0.
Proof.
  intros ES ER. unfold VikorSpec.Q_level, ratio_or_zero. rewrite ES, ER.
  Rcases; unfold Rdiv; lra.
Qed.

End VikorRange.

(** X8.  With a strategy weight v in [0, 1] every Q lies in [0, 1], and a
    level that has both the least S and the least R of its object has
    Q = 0. *)
Theorem vikor_compromise_range
    (d : dict ndarray) (weights : option (list R)) (v : R) (nf nl : nat) :
  matrices_wf d nf nl ->
  nf <> 0%nat -> nl <> 0%nat ->
  weights_match weights nf ->
  0 <= v <= 1 ->
  exists res,
    VIKORComprehensiveEvaluation.calculate_comprehensive_scores d weights (Some v) =
      Ok res /\
    forall name sc, In (name, sc) res ->
      Forall (fun q => 0 <= q <= 1) (Q_values sc) /\
      forall j s r,
        nth_error (S_values sc) j = Some s ->
        nth_error (R_values sc) j = Some r ->
        (forall s', In s' (S_values sc) -> s <= s') ->
        (forall r', In r' (R_values sc) -> r <= r') ->
        nth_error (Q_values sc) j = Some 0.
Proof.
  intros Hd Hnf Hnl Hwm Hv. eexists.
  split; [apply (vikor_scores_by_formula d weights (Some v) nf nl Hd Hnf Hnl Hwm) |].
  intros name sc Hin. unfold vikor_by_formula in Hin.
  apply in_map_iff in Hin. destruct Hin as ([name' m] & [= <- <-] & Hin).
  cbn [fst snd S_values R_values Q_values].
  destruct Hd as (_ & _ & Hall). destruct (Hall name' m Hin) as (_ & _ & Hc).
  assert (ncols m <> 0%nat) as Hnl' by congruence.
  set (w := weights_in_force weights nf). split.
  - apply Forall_forall. intros q Hq. apply in_map_iff in Hq.
    destruct Hq as (j & <- & Hj). apply in_seq in Hj.
    apply Q_range; [exact Hnl' | exact Hv | lia].
  - intros j s r Hs Hr Hsmin Hrmin.
    apply nth_error_map_seq in Hs. destruct Hs as [Hj ->].
    apply nth_error_map_seq in Hr. destruct Hr as [_ ->].
    rewrite (nth_error_map_seq_lt _ nl j Hj).
    f_equal. apply Q_of_best_level.
    + apply Rle_antisym.
      * destruct (big_min_is_min _ (VikorSpec.S_level w m) Hnl') as [(k & Hk & E) _].
        fold (VikorSpec.S_star w m) in E. rewrite <- E.
        apply Hsmin. apply in_map. apply in_seq. lia.
      * rewrite <- Hc in Hj. apply (S_between w m Hnl' j Hj).
    + apply Rle_antisym.
      * destruct (big_min_is_min _ (VikorSpec.R_level w m) Hnl') as [(k & Hk & E) _].
        fold (VikorSpec.R_star w m) in E. rewrite <- E.
        apply Hrmin. apply in_map. apply in_seq. lia.
      * rewrite <- Hc in Hj. apply (R_between w m Hnl' j Hj).
Qed.

Lemma vikor_compromise_range_witness :
  matrices_wf two_by_two 2 2 /\
  weights_match None 2 /\
  0 <= 1 / 4 <= 1 /\
  exists res,
    VIKORComprehensiveEvaluation.calculate_comprehensive_scores
      two_by_two None (Some (1 / 4)) = Ok res /\
    forall name sc, In (name, sc) res ->
      Forall (fun q => 0 <= q <= 1) (Q_values sc).
Proof.
  assert (0 <= 1 / 4 <= 1) as Hv by lra.
  split; [exact two_by_two_wf |]. split; [exact I |]. split; [exact Hv |].
  destruct (vikor_compromise_range two_by_two None (1 / 4) 2 2 two_by_two_wf)
    as (res & E & H); [lia | lia | exact I | exact Hv |].
  exists res. split; [exact E |]. intros name sc Hin. apply (H name sc Hin).
Defined.

Lemma np_sum_as_big_sum (w : list R) :
  np_sum w = big_sum (length w) (fun f => nth f w 0).
Proof.
  rewrite <- np_sum_map_seq. f_equal.
  rewrite <- (map_id w) at 1. apply (map_seq_nth (fun x => x) 0 w).
Qed.

Lemma big_max_le_big_sum (n : nat) (F : nat -> R) :
  n <> 0%nat -> (forall k, (k < n)%nat -> 0 <= F k) ->
  0 <= big_max n F <= big_sum n F.
Proof.
  intros Hn Hpos.
  destruct (big_max_is_max n F Hn) as [(k & Hk & <-) _].
  split; [now apply Hpos | now apply big_sum_term_le].
Qed.

(** X9.  For matrices with entries in [0, 1] and non-negative weights, the
    regret measures of every level are ordered 0 <= R <= S, and S is at most
    the sum of the weights. *)
Theorem vikor_regret_below_utility
    (d : dict ndarray) (w : list R) (v : option R) (nf nl : nat) :
  matrices_wf d nf nl ->
  nf <> 0%nat -> nl <> 0%nat ->
  length w = nf ->
  Forall (fun x => 0 <= x) w ->
  (forall name m, In (name, m) d -> entries_in_unit m) ->
  exists res,
    VIKORComprehensiveEvaluation.calculate_comprehensive_scores d (Some w) v = Ok res /\
    forall name sc, In (name, sc) res ->
      Forall2 (fun r s => 0 <= r <= s) (R_values sc) (S_values sc) /\
      Forall (fun s => s <= np_sum w) (S_values sc).
Proof.
  intros Hd Hnf Hnl Hlen Hpos He. eexists.
  split; [apply (vikor_scores_by_formula d (Some w) v nf nl Hd Hnf Hnl Hlen) |].
  intros name sc Hin. unfold vikor_by_formula in Hin.
  apply in_map_iff in Hin. destruct Hin as ([name' m] & [= <- <-] & Hin).
  cbn [fst snd S_values R_values weights_in_force].
  destruct Hd as (_ & _ & Hall). destruct (Hall name' m Hin) as (_ & Hr & _).
  specialize (He name' m Hin).
  assert (forall j f, 0 <= VikorSpec.regret w m j f <= nth f w 0) as Hreg.
  { intros j f. unfold VikorSpec.regret.
    pose proof (nth_nonneg w f Hpos). pose proof (entry_in_unit m f j He). nra. }
  split.
  - apply Forall2_map_seq. intros j _. unfold VikorSpec.R_level, VikorSpec.S_level.
    apply big_max_le_big_sum; [congruence |]. intros f _. apply Hreg.
  - apply Forall_forall. intros s Hs. apply in_map_iff in Hs.
    destruct Hs as (j & <- & _). unfold VikorSpec.S_level.
    rewrite np_sum_as_big_sum, Hlen, Hr. apply big_sum_le. intros f _. apply Hreg.
Qed.

Lemma vikor_regret_below_utility_witness :
  matrices_wf two_by_two 2 2 /\
  Forall (fun x => 0 <= x) [1 / 2; 1 / 2] /\
  exists res,
    VIKORComprehensiveEvaluation.calculate_comprehensive_scores
      two_by_two (Some [1 / 2; 1 / 2]) None = Ok res /\
    forall name sc, In (name, sc) res ->
      Forall2 (fun r s => 0 <= r <= s) (R_values sc) (S_values sc) /\
      Forall (fun s => s <= np_sum [1 / 2; 1 / 2]) (S_values sc).
Proof.
  assert (Forall (fun x => 0 <= x) [1 / 2; 1 / 2]) as Hpos
    by (repeat constructor; lra).
  split; [exact two_by_two_wf |]. split; [exact Hpos |].
  apply (vikor_regret_below_utility two_by_two [1 / 2; 1 / 2] None 2 2
           two_by_two_wf); [lia | lia | reflexivity | exact Hpos |].
  intros name m [[= <- <-] | []]. unfold entries_in_unit. cbn.
  repeat constructor; lra.
Defined.

(** X10.  The two pure strategies of the docstring: with v = 1 the
    compromise values of an object are its group utilities S brought to
    [0, 1], (S - S* )/(S- - S* ) with S* the least and S- the greatest S of the
    object; with v = 0 they are its individual regrets R brought to [0, 1] in
    the same way; a ratio with denominator 0 counts as 0. *)
Theorem vikor_pure_strategies
    (d : dict ndarray) (weights : option (list R)) (nf nl : nat) :
  matrices_wf d nf nl ->
  nf <> 0%nat -> nl <> 0%nat ->
  weights_match weights nf ->
  exists res1 res0,
    VIKORComprehensiveEvaluation.calculate_comprehensive_scores d weights (Some 1) =
      Ok res1 /\
    VIKORComprehensiveEvaluation.calculate_comprehensive_scores d weights (Some 0) =
      Ok res0 /\
    (forall name sc lo hi,
        In (name, sc) res1 ->
        least_of (S_values sc) lo -> greatest_of (S_values sc) hi ->
        Q_values sc = map (fun s => ratio_or_zero (s - lo) (hi - lo)) (S_values sc)) /\
    (forall name sc lo hi,
        In (name, sc) res0 ->
        least_of (R_values sc) lo -> greatest_of (R_values sc) hi ->
        Q_values sc = map (fun r => ratio_or_zero (r - lo) (hi - lo)) (R_values sc)).
Proof.
  intros Hd Hnf Hnl Hwm. do 2 eexists.
  split; [apply (vikor_scores_by_formula d weights (Some 1) nf nl Hd Hnf Hnl Hwm) |].
  split; [apply (vikor_scores_by_formula d weights (Some 0) nf nl Hd Hnf Hnl Hwm) |].
  destruct Hd as (_ & _ & Hall). unfold vikor_by_formula.
  set (w := weights_in_force weights nf).
  split; intros name sc lo hi Hin Hlo Hhi;
    apply in_map_iff in Hin; destruct Hin as ([name' m] & [= <- <-] & Hin);
    cbn [fst snd S_values R_values Q_values] in *;
    destruct (Hall name' m Hin) as (_ & _ & Hc);
    apply least_of_map_seq in Hlo; trivial;
    apply greatest_of_map_seq in Hhi; trivial;
    subst lo hi; rewrite map_map; apply map_ext; intros j;
    unfold VikorSpec.Q_level, VikorSpec.S_star, VikorSpec.S_minus,
      VikorSpec.R_star, VikorSpec.R_minus; rewrite Hc; lra.
Qed.

Lemma vikor_pure_strategies_witness :
  matrices_wf two_by_two 2 2 /\
  weights_match None 2 /\
  is_ok (VIKORComprehensiveEvaluation.calculate_comprehensive_scores
           two_by_two None (Some 1)) = true.
Proof.
  split; [exact two_by_two_wf |]. split; [exact I |].
  destruct (vikor_pure_strategies two_by_two None 2 2 two_by_two_wf)
    as (res1 & res0 & E1 & _); [lia | lia | exact I |].
  now rewrite E1.
Defined.

(** ** Grade assessment of a membership distribution *)

Lemma big_sum_nth_as_np_sum (u : list R) :
  big_sum (length u) (fun k => nth k u 0) = np_sum u.
Proof. symmetry. apply np_sum_as_big_sum. Qed.

Lemma expected_level_bounds (u : list R) :
  Forall (fun x => 0 <= x) u -> np_sum u = 1 ->
  1 <= expected_level u <= INR (length u).
Proof.
  intros Hpos Hsum. rewrite np_sum_as_big_sum in Hsum. unfold expected_level. split.
  - rewrite <- Hsum. apply big_sum_le. intros k _.
    pose proof (nth_nonneg u k Hpos). pose proof (pos_INR k).
    rewrite S_INR. nra.
  - rewrite <- (Rmult_1_r (INR (length u))), <- Hsum, <- big_sum_scale_l.
    apply big_sum_le. intros k Hk.
    pose proof (nth_nonneg u k Hpos).
    assert (INR (S k) <= INR (length u)) by (apply le_INR; lia). nra.
Qed.

Lemma py_round_between (x : R) (lo hi : Z) :
  IZR lo <= x <= IZR hi -> (lo <= py_round x <= hi)%Z.
Proof.
  intros Hx. destruct (py_round_nearest_even x) as [Hn _].
  pose proof (Rle_abs (x - IZR (py_round x))) as H1.
  pose proof (Rle_abs (- (x - IZR (py_round x)))) as H2.
  rewrite Rabs_Ropp in H2.
  split.
  - assert (lo < py_round x + 1)%Z; [| lia].
    apply lt_IZR. rewrite plus_IZR. lra.
  - assert (py_round x < hi + 1)%Z; [| lia].
    apply lt_IZR. rewrite plus_IZR. lra.
Qed.

(** The grade of a distribution over h levels. *)
Lemma grade_of_distribution (u : list R) (h : Z) :
  u <> [] -> Z.of_nat (length u) = h ->
  Forall (fun x => 0 <= x) u -> np_sum u = 1 ->
  1 <= expected_level u <= IZR h /\
  GradeComprehensiveAssessment.binary_semantic (expected_level u) h =
    (py_round (expected_level u), expected_level u - IZR (py_round (expected_level u))) /\
  (1 <= py_round (expected_level u) <= h)%Z /\
  Rabs (expected_level u - IZR (py_round (expected_level u))) <= 1 / 2.
Proof.
  intros Hne Hlen Hpos Hsum.
  pose proof (expected_level_bounds u Hpos Hsum) as Hb.
  rewrite INR_IZR_INZ, Hlen in Hb.
  pose proof (py_round_between (expected_level u) 1 h Hb) as Hr.
  split; [exact Hb |]. split; [| split; [exact Hr |]].
  - unfold GradeComprehensiveAssessment.binary_semantic.
    replace (Z.max 1 (Z.min (py_round (expected_level u)) h))
      with (py_round (expected_level u)) by lia.
    reflexivity.
  - apply (py_round_nearest_even (expected_level u)).
Qed.

(** X11.  When every vector is a distribution over the h levels (h entries,
    none negative, summing to 1), every characteristic value lies in [1, h],
    the level is the rounded value itself (the clamp changes nothing) and
    lies in [1, h], and the offset is at most 1/2 in absolute value. *)
Theorem grade_of_distributions (d : dict (list R)) (h : Z) :
  dict_wf d -> d <> [] ->
  (forall name u, In (name, u) d ->
     u <> [] /\ Z.of_nat (length u) = h /\
     Forall (fun x => 0 <= x) u /\ np_sum u = 1) ->
  exists res,
    GradeComprehensiveAssessment.assess_comprehensive_grade d h = Ok res /\
    (forall name value, In (name, value) (level_characteristic_values res) ->
       1 <= value <= IZR h) /\
    objectwise
      (fun value grade =>
         fst grade = py_round value /\ snd grade = value - IZR (fst grade) /\
         (1 <= fst grade <= h)%Z /\ Rabs (snd grade) <= 1 / 2)
      (level_characteristic_values res) (binary_semantic_results res).
Proof.
  intros Hwf Hne Hall. eexists.
  split; [apply (assess_returns d h Hwf Hne) |].
  cbn [level_characteristic_values binary_semantic_results]. split.
  - intros name value Hin. apply in_map_iff in Hin.
    destruct Hin as ([name' u] & [= <- <-] & Hin). cbn [snd].
    destruct (Hall name' u Hin) as (Hu & Hl & Hp & Hs).
    apply (grade_of_distribution u h Hu Hl Hp Hs).
  - unfold objectwise. clear Hwf Hne.
    induction d as [| [name u] t IH]; cbn [map]; constructor.
    + cbn [fst snd].
      destruct (Hall name u (or_introl eq_refl)) as (Hu & Hl & Hp & Hs).
      destruct (grade_of_distribution u h Hu Hl Hp Hs) as (_ & -> & Hr & Ha).
      cbn [fst snd]. now repeat split.
    + apply IH. intros name' u' Hin. apply (Hall name' u'). now right.
Qed.

Lemma grade_of_distributions_witness :
  (forall name u, In (name, u) [("T2"%string, [1 / 4; 1 / 4; 1 / 4; 1 / 4])] ->
     u <> [] /\ Z.of_nat (length u) = 4%Z /\
     Forall (fun x => 0 <= x) u /\ np_sum u = 1) /\
  exists res,
    GradeComprehensiveAssessment.assess_comprehensive_grade
      [("T2"%string, [1 / 4; 1 / 4; 1 / 4; 1 / 4])] 4 = Ok res /\
    (forall name value, In (name, value) (level_characteristic_values res) ->
       1 <= value <= 4).
Proof.
  assert (forall name u, In (name, u) [("T2"%string, [1 / 4; 1 / 4; 1 / 4; 1 / 4])] ->
     u <> [] /\ Z.of_nat (length u) = 4%Z /\
     Forall (fun x => 0 <= x) u /\ np_sum u = 1) as Hall.
  { intros name u [[= <- <-] | []]. split; [discriminate |].
    split; [reflexivity |]. split; [repeat constructor; lra |].
    unfold np_sum. cbn. lra. }
  split; [exact Hall |].
  destruct (grade_of_distributions [("T2"%string, [1 / 4; 1 / 4; 1 / 4; 1 / 4])] 4)
    as (res & E & Hv & _).
  - unfold dict_wf. cbn. constructor; [intros [] | constructor].
  - discriminate.
  - exact Hall.
  - exists res. split; [exact E | exact Hv].
Defined.

(** ** From TOPSIS to the grade *)

Lemma expected_level_zeros (us : list R) :
  (forall u, In u us -> u = 0) -> expected_level us = 0.
Proof.
  intros H. unfold expected_level. apply big_sum_zero. intros k Hk.
  rewrite (H (nth k us 0)); [lra |]. now apply nth_In.
Qed.

(** X12.  The comprehensive membership that TOPSIS returns can be graded as
    it is: the assessment raises nothing; an object with some V > 0 gets a
    level in [1, h] and an offset of at most 1/2 in absolute value; an
    object whose V are all 0 (its U are all 0 too) gets level 1 and
    offset -1. *)
Theorem topsis_then_grade
    (d : dict ndarray) (weights : option (list R)) (nf nl : nat) :
  matrices_wf d nf nl ->
  weights_fit weights nf ->
  exists D V U res,
    topsis_chain d weights = Ok (D, V, U) /\
    GradeComprehensiveAssessment.assess_comprehensive_grade U (Z.of_nat nl) = Ok res /\
    objectwise
      (fun vs grade =>
         ((exists v, In v vs /\ v > 0) ->
          (1 <= fst grade <= Z.of_nat nl)%Z /\ Rabs (snd grade) <= 1 / 2) /\
         ((forall v, In v vs -> v = 0) -> grade = (1%Z, -1)))
      V (binary_semantic_results res).
Proof.
  intros Hd Hw. set (w := weights_in_force weights nf).
  pose proof (topsis_chain_by_formula d weights nf nl Hd Hw) as E. fold w in E.
  destruct Hd as (Hne & Hwf & Hall).
  do 4 eexists. split; [exact E |]. split.
  - apply assess_returns.
    + apply (dict_wf_map (fun kv => _) d Hwf).
    + unfold levels_by_formula. destruct d; [contradiction | discriminate].
  - cbn [binary_semantic_results]. unfold levels_by_formula. rewrite map_map.
    cbn [fst snd].
    apply (objectwise_map2 _
             (fun m => map (TopsisSpec.V w m) (seq 0 nl))
             (fun m => GradeComprehensiveAssessment.binary_semantic
                         (expected_level (map (TopsisSpec.U w m) (seq 0 nl)))
                         (Z.of_nat nl))).
    intros name m Hin. destruct (Hall name m Hin) as (_ & _ & Hc). split.
    + intros (v & Hv & Hpos). apply in_map_iff in Hv.
      destruct Hv as (j & <- & Hj). apply in_seq in Hj.
      destruct (grade_of_distribution (map (TopsisSpec.U w m) (seq 0 nl))
                  (Z.of_nat nl)) as (_ & -> & Hr & Ha).
      * destruct nl; [lia | discriminate].
      * now rewrite length_map, length_seq.
      * apply Forall_forall. intros u Hu. apply in_map_iff in Hu.
        destruct Hu as (k & <- & Hk). apply in_seq in Hk.
        apply U_range. lia.
      * rewrite np_sum_map_seq, <- Hc. apply (U_sum w m j); [lia | exact Hpos].
      * cbn [fst snd]. split; [exact Hr | exact Ha].
    + intros Hz. rewrite expected_level_zeros; [apply binary_semantic_zero |].
      intros u Hu. apply in_map_iff in Hu. destruct Hu as (k & <- & Hk).
      unfold TopsisSpec.U.
      rewrite (Hz (TopsisSpec.V w m k)) by (now apply in_map).
      Rcases; unfold Rdiv; lra.
Qed.

Lemma topsis_then_grade_witness :
  matrices_wf two_by_two 2 2 /\
  weights_fit None 2 /\
  exists D V U res,
    topsis_chain two_by_two None = Ok (D, V, U) /\
    GradeComprehensiveAssessment.assess_comprehensive_grade U 2 = Ok res.
Proof.
  assert (weights_fit None 2) as Hw by (cbn; lia).
  split; [exact two_by_two_wf |]. split; [exact Hw |].
  destruct (topsis_then_grade two_by_two None 2 2 two_by_two_wf Hw)
    as (D & V & U & res & E & G & _).
  exists D, V, U, res. split; [exact E | exact G].
Defined.

(** ** More on the membership function *)

(** A valid call returns, whatever the order of the thresholds. *)
Lemma membership_returns (x : R) (a : list R) (h i : Z) :
  Z.of_nat (length a) = h -> (1 <= i <= h)%Z ->
  lower_bound_level_membership x a i h = Ok (membership_value a h i x).
Proof.
  intros Hlen Hi. unfold membership_value.
  assert (i = 1 \/ 1 < i < h \/ (1 < i /\ i = h))%Z as [-> | [Hm | [H1 ->]]] by lia.
  - rewrite (membership_first x a h Hlen) by lia. Rcases; reflexivity.
  - rewrite (membership_middle x a h Hlen i Hm). Rcases; reflexivity.
  - rewrite (membership_last x a h Hlen) by lia. Rcases; reflexivity.
Qed.

(** Between two thresholds that enclose x there are two neighbours that
    do. *)
Lemma band_search (a : list R) (x : R) (n : nat) :
  forall k : Z,
    x < th a k -> th a (k + Z.of_nat n) <= x ->
    exists i, (k < i <= k + Z.of_nat n)%Z /\ th a i <= x < th a (i - 1).
Proof.
  induction n as [| n IH]; intros k Hlt Hge.
  - replace (k + Z.of_nat 0)%Z with k in Hge by lia. lra.
  - destruct (Rle_lt_dec (th a (k + 1)) x) as [Hk | Hk].
    + exists (k + 1)%Z. split; [lia |].
      replace (k + 1 - 1)%Z with k by lia. lra.
    + destruct (IH (k + 1)%Z Hk) as (i & Hi & Hb).
      * replace (k + 1 + Z.of_nat n)%Z with (k + Z.of_nat (S n))%Z by lia. exact Hge.
      * exists i. split; [lia | exact Hb].
Qed.

(** X13.  Every x that is not strictly between 0 and the last threshold
    belongs fully to some level: for strictly decreasing thresholds and
    x >= a_h (or x <= 0, with at least two levels) some level has
    membership exactly 1. *)
Theorem some_level_is_full (x : R) (a : list R) (h : Z) :
  strictly_decreasing a ->
  Z.of_nat (length a) = h ->
  (1 <= h)%Z ->
  th a h <= x \/ ((2 <= h)%Z /\ x <= 0) ->
  exists i, (1 <= i <= h)%Z /\ lower_bound_level_membership x a i h = Ok 1.
Proof.
  intros Hd Hlen Hh Hx.
  destruct (Rle_lt_dec (th a h) x) as [Hge | Hlt].
  - destruct (Rle_lt_dec (th a 1) x) as [H1 | H1].
    + exists 1%Z. split; [lia |].
      rewrite (membership_first x a h Hlen Hh). now rewrite Rgeb_true by lra.
    + destruct (band_search a x (Z.to_nat (h - 1)) 1 H1) as (i & Hi & Hb).
      * replace (1 + Z.of_nat (Z.to_nat (h - 1)))%Z with h by lia. exact Hge.
      * exists i. split; [lia |].
        destruct (Z.eq_dec i h) as [-> | Hne].
        -- rewrite (membership_last x a h Hlen) by lia.
           rewrite Rgeb_false by lra. rewrite Rleb_true by lra.
           now rewrite Rltb_true by lra.
        -- rewrite (membership_middle x a h Hlen i) by lia.
           rewrite Rgeb_false by lra. rewrite Rleb_true by lra.
           now rewrite Rltb_true by lra.
  - destruct Hx as [Hx | [H2 Hx]]; [lra |].
    exists h. split; [lia |].
    pose proof (th_step a (h - 1) Hd ltac:(lia)) as P.
    replace (h - 1 + 1)%Z with h in P by lia.
    rewrite (membership_last x a h Hlen) by lia.
    rewrite Rgeb_false by lra. rewrite Rleb_false by lra. cbn [andb].
    now rewrite Rleb_true by lra.
Qed.

Lemma some_level_is_full_witness :
  strictly_decreasing [15; 10; 5; 2] /\
  (th [15; 10; 5; 2] 4 <= 8 \/ (2 <= 4)%Z /\ 8 <= 0) /\
  exists i, (1 <= i <= 4)%Z /\
            lower_bound_level_membership 8 [15; 10; 5; 2] i 4 = Ok 1.
Proof.
  assert (strictly_decreasing [15; 10; 5; 2]) as Hsd by (cbn; lra).
  assert (th [15; 10; 5; 2] 4 <= 8 \/ (2 <= 4)%Z /\ 8 <= 0) as Hx.
  { left. change (th [15; 10; 5; 2] 4) with 2. lra. }
  split; [exact Hsd |]. split; [exact Hx |].
  apply (some_level_is_full 8 [15; 10; 5; 2] 4 Hsd eq_refl); [lia | exact Hx].
Defined.

Lemma first_level_monotone (c n x y : R) :
  x <= y -> first_level c n x <= first_level c n y.
Proof.
  intros Hxy. unfold first_level. Rcases; try lra.
  - assert (0 < c - n) by lra.
    pose proof (ratio_unit_interval (x - n) (c - n)). lra.
  - assert (0 < c - n) as Hd by lra.
    unfold Rdiv. apply Rmult_le_compat_r; [| lra].
    left. now apply Rinv_0_lt_compat.
  - assert (0 < c - n) by lra.
    pose proof (ratio_unit_interval (y - n) (c - n)). lra.
Qed.

(** X14.  The membership of level 1 never decreases as x grows, for every
    list of thresholds. *)
Theorem first_level_membership_monotone (x y : R) (a : list R) (h : Z) :
  Z.of_nat (length a) = h ->
  (1 <= h)%Z ->
  x <= y ->
  exists mx my,
    lower_bound_level_membership x a 1 h = Ok mx /\
    lower_bound_level_membership y a 1 h = Ok my /\
    mx <= my.
Proof.
  intros Hlen Hh Hxy.
  exists (membership_value a h 1 x), (membership_value a h 1 y).
  split; [apply membership_returns; [exact Hlen | lia] |].
  split; [apply membership_returns; [exact Hlen | lia] |].
  rewrite !(membership_value_first a h Hlen) by exact Hh.
  now apply first_level_monotone.
Qed.

Lemma first_level_membership_monotone_witness :
  8 <= 12 /\
  exists mx my,
    lower_bound_level_membership 8 [15; 10; 5; 2] 1 4 = Ok mx /\
    lower_bound_level_membership 12 [15; 10; 5; 2] 1 4 = Ok my /\
    mx <= my.
Proof.
  assert (8 <= 12) as Hxy by lra. split; [exact Hxy |].
  apply (first_level_membership_monotone 8 12 [15; 10; 5; 2] 4 eq_refl);
    [lia | exact Hxy].
Defined.

(** ** The array branch of the membership function *)

Lemma np_zeros_like_map (xs : list R) : np_zeros_like xs = map (fun _ => 0) xs.
Proof.
  unfold np_zeros_like, np_zeros.
  induction xs as [| x t IH]; cbn; [reflexivity | now rewrite IH].
Qed.

Lemma np_ones_map (xs : list R) : np_ones (length xs) = map (fun _ => 1) xs.
Proof.
  unfold np_ones. induction xs as [| x t IH]; cbn; [reflexivity | now rewrite IH].
Qed.

Lemma np_select_map (p : R -> bool) (xs : list R) :
  np_select (map p xs) xs = filter p xs.
Proof.
  induction xs as [| x t IH]; cbn; [reflexivity |].
  destruct (p x); now rewrite IH.
Qed.

Lemma np_set_where_map (p : R -> bool) (g : R -> R) (v : R) (xs : list R) :
  np_set_where (map p xs) (map g xs) v = map (fun x => if p x then v else g x) xs.
Proof. induction xs as [| x t IH]; cbn; [reflexivity | now rewrite IH]. Qed.

Lemma np_where_map (c : R -> bool) (f g : R -> R) (l : list R) :
  np_where (map c l) (map f l) (map g l) = map (fun x => if c x then f x else g x) l.
Proof. induction l as [| x t IH]; cbn; [reflexivity | now rewrite IH]. Qed.

Lemma np_put_map (p : R -> bool) (f g : R -> R) (xs : list R) :
  np_put (map p xs) (map g xs) (map f (filter p xs)) =
  Ok (map (fun x => if p x then f x else g x) xs).
Proof.
  induction xs as [| x t IH]; cbn; [reflexivity |].
  destruct (p x); cbn [map]; rewrite IH; reflexivity.
Qed.

Lemma np_set_where_single (p : R -> bool) (f g : R -> R) (v : R) (xs : list R) :
  map f (filter p xs) = [v] ->
  np_set_where (map p xs) (map g xs) v = map (fun x => if p x then f x else g x) xs.
Proof.
  intros H. rewrite np_set_where_map. apply map_ext_in. intros x Hx.
  destruct (p x) eqn:Px; [| reflexivity].
  assert (In (f x) (map f (filter p xs))) as Hin.
  { apply in_map. apply filter_In. now split. }
  rewrite H in Hin. destruct Hin as [-> | []]. reflexivity.
Qed.

Lemma np_assign_map (p : R -> bool) (f g : R -> R) (xs : list R) :
  np_assign (map p xs) (map g xs) (map f (filter p xs)) =
  Ok (map (fun x => if p x then f x else g x) xs).
Proof.
  unfold np_assign.
  destruct (map f (filter p xs)) as [| v [| v' t]] eqn:E.
  - rewrite <- E. apply np_put_map.
  - f_equal. now apply np_set_where_single.
  - rewrite <- E. apply np_put_map.
Qed.

(** X15.  For strictly decreasing thresholds the array branch computes, for
    every entry of a float array, what the scalar branch computes for that
    number: the masks do not overlap, so no assignment overwrites
    another. *)
Theorem membership_array_agrees (xs : list R) (a : list R) (h i : Z) :
  strictly_decreasing a ->
  Z.of_nat (length a) = h ->
  (1 <= i <= h)%Z ->
  lower_bound_level_membership_array xs a i h =
  for_each (fun x => lower_bound_level_membership x a i h) xs.
Proof.
  intros Hd Hlen Hi.
  rewrite (for_each_map _ (membership_value a h i))
    by (intros x _; now apply membership_returns).
  unfold lower_bound_level_membership_array.
  replace ((i <? 1) || (i >? h))%Z with false by lia.
  replace (Z.of_nat (length a) =? h)%Z with true by lia. cbn [negb].
  rewrite (py_getitem_nth a (i - 1) 0) by lia. cbn [bind].
  fold (th a i).
  assert (i = 1 \/ 1 < i < h \/ (1 < i /\ i = h))%Z as [-> | [Hm | [H1 ->]]] by lia.
  - replace (1 =? 1)%Z with true by lia.
    assert ((if (h >? 1)%Z then py_getitem a 1 else Ok 0) = Ok (th a 2)) as ->.
    { destruct (h >? 1)%Z eqn:E.
      - now rewrite (py_getitem_nth a 1 0) by lia.
      - rewrite (th_beyond a 2) by lia. reflexivity. }
    cbn [bind]. rewrite np_zeros_like_map, np_set_where_map, np_select_map.
    rewrite (np_assign_map _ (fun xi => (xi - th a 2) / (th a 1 - th a 2))).
    f_equal. apply map_ext. intros x.
    rewrite (membership_value_first a h Hlen) by lia.
    unfold first_level. Rcases; first [reflexivity | exfalso; lra].
  - replace (i =? 1)%Z with false by lia. replace (i =? h)%Z with false by lia.
    rewrite (py_getitem_nth a (i - 2) 0) by lia. cbn [bind].
    rewrite (py_getitem_nth a i 0) by lia. cbn [bind].
    replace (nth (Z.to_nat (i - 2)) a 0) with (th a (i - 1))
      by (unfold th; f_equal; lia).
    replace (nth (Z.to_nat i) a 0) with (th a (i + 1))
      by (unfold th; f_equal; lia).
    pose proof (th_step a (i - 1) Hd ltac:(lia)) as P.
    replace (i - 1 + 1)%Z with i in P by lia.
    pose proof (th_step a i Hd ltac:(lia)) as P'.
    rewrite !np_select_map, !np_zeros_like_map, np_where_map.
    rewrite (np_assign_map _ (fun xi => if xi >? 0 then th a (i - 1) / xi else 0)).
    cbn [bind]. rewrite np_set_where_map.
    rewrite (np_assign_map _ (fun xi => (xi - th a (i + 1)) / (th a i - th a (i + 1)))).
    f_equal. apply map_ext. intros x.
    rewrite (membership_value_middle a h Hlen) by lia.
    unfold middle_level. Rcases; first [reflexivity | exfalso; lra].
  - replace (h =? 1)%Z with false by lia. replace (h =? h)%Z with true by lia.
    rewrite (py_getitem_nth a (h - 2) 0) by lia. cbn [bind].
    replace (nth (Z.to_nat (h - 2)) a 0) with (th a (h - 1))
      by (unfold th; f_equal; lia).
    pose proof (th_step a (h - 1) Hd ltac:(lia)) as P.
    replace (h - 1 + 1)%Z with h in P by lia.
    rewrite !np_select_map, !np_zeros_like_map, np_ones_map, np_where_map.
    rewrite (np_assign_map _ (fun xi => if xi >? 0 then th a (h - 1) / xi else 0)).
    cbn [bind]. rewrite np_set_where_map.
    assert ((if th a h >? 0
             then map (fun xi => xi / th a h) (filter (fun xi => xi <? th a h) xs)
             else map (fun _ => 0) (filter (fun xi => xi <? th a h) xs)) =
            map (fun xi => if th a h >? 0 then xi / th a h else 0)
                (filter (fun xi => xi <? th a h) xs)) as ->
      by (destruct (th a h >? 0); reflexivity).
    rewrite np_where_map.
    rewrite (np_assign_map _
               (fun xi => if xi <=? 0 then 1
                          else if th a h >? 0 then xi / th a h else 0)).
    f_equal. apply map_ext. intros x.
    rewrite (membership_value_last a h Hlen) by lia.
    unfold last_level. Rcases; first [reflexivity | exfalso; lra].
Qed.

Lemma membership_array_agrees_witness :
  strictly_decreasing [15; 10; 5; 2] /\
  lower_bound_level_membership_array [20; 8; 0] [15; 10; 5; 2] 2 4 =
  for_each (fun x => lower_bound_level_membership x [15; 10; 5; 2] 2 4) [20; 8; 0].
Proof.
  assert (strictly_decreasing [15; 10; 5; 2]) as Hsd by (cbn; lra).
  split; [exact Hsd |].
  apply (membership_array_agrees [20; 8; 0] [15; 10; 5; 2] 4 2 Hsd eq_refl). lia.
Defined.

(** Without the order of the thresholds the two branches part: with
    thresholds 5, 10, 2 the masks of level 2 overlap at x = 7, the array
    branch keeps the last assignment and the scalar branch the first
    test. *)
Example membership_branches_part :
  lower_bound_level_membership_array [7] [5; 10; 2] 2 3 = Ok [(7 - 2) / (10 - 2)] /\
  lower_bound_level_membership 7 [5; 10; 2] 2 3 = Ok (5 / 7).
Proof.
  split.
  - unfold lower_bound_level_membership_array. run.
    change (Pos.to_nat 1) with 1%nat. change (Pos.to_nat 2) with 2%nat. run.
    rewrite (Rgeb_true 7 5), (Rgeb_false 7 10), (Rgeb_true 7 2), (Rltb_true 7 10),
      (Rltb_false 7 5) by lra.
    run. reflexivity.
  - rewrite (membership_middle 7 [5; 10; 2] 3 eq_refl) by lia. th_eval.
    rewrite Rgeb_true by lra. now rewrite Rgtb_true by lra.
Qed.

(** ** The matrices of calculate_normalized_matrix *)

Lemma object_name_inj (i j : nat) : object_name i = object_name j -> i = j.
Proof.
  unfold object_name. cbn [String.append]. intros [= H].
  assert (DecimalString.NilEmpty.uint_of_string
            (DecimalString.NilEmpty.string_of_uint (Nat.to_uint (i + 1))) =
          DecimalString.NilEmpty.uint_of_string
            (DecimalString.NilEmpty.string_of_uint (Nat.to_uint (j + 1)))) as E
    by now rewrite H.
  rewrite !DecimalString.NilEmpty.usu in E. injection E as E.
  apply DecimalNat.Unsigned.to_uint_inj in E. lia.
Qed.

Lemma object_names_distinct (l : list nat) :
  NoDup l -> NoDup (map object_name l).
Proof.
  induction 1 as [| i l Hi Hl IH]; cbn; constructor; [| exact IH].
  intros Hin. apply in_map_iff in Hin. destruct Hin as (j & E & Hj).
  apply object_name_inj in E. now subst j.
Qed.

Lemma dict_get_mem {V : Type} (d : dict V) (k : string) (v : V) :
  dict_get d k = Ok v -> dict_mem d k = true.
Proof.
  unfold dict_mem. induction d as [| [k' v'] t IH]; cbn; [discriminate |].
  destruct (String.eqb k' k); [reflexivity | exact IH].
Qed.

Lemma membership_row_length (x : R) (params : list R) :
  length (membership_row x params) = length params.
Proof. unfold membership_row. now rewrite !length_map, length_seq. Qed.

(** The loop over the levels returns the row. *)
Lemma levels_loop (x : R) (params : list R) :
  for_each (fun level =>
              lower_bound_level_membership x params level (Z.of_nat (length params)))
           (map Z.of_nat (seq 1 (length params))) =
  Ok (membership_row x params).
Proof.
  apply for_each_map. intros level Hin. apply in_map_iff in Hin.
  destruct Hin as (k & <- & Hk). apply in_seq in Hk.
  apply membership_returns; [reflexivity | lia].
Qed.

Section NormalizedMatrix.

Variables (factors_data factors_params : dict (list R)) (n h : nat).
Hypothesis Hfit : factors_fit factors_data factors_params n h.

Lemma np_array_rows (i : nat) :
  np_array (rows (matrix_of_object factors_data factors_params h i)) =
  Ok (matrix_of_object factors_data factors_params h i).
Proof.
  destruct Hfit as [(name0 & data0 & rest & E & _) Hall].
  assert (forall item, In item factors_data ->
            length (membership_row (nth i (snd item) 0)
                      (params_of factors_params (fst item))) = h) as Hrow.
  { intros [name data] Hin. cbn [fst snd]. rewrite membership_row_length.
    destruct (Hall name data Hin) as (_ & params & Hp & Hl).
    unfold params_of. now rewrite Hp. }
  unfold matrix_of_object. cbn [rows]. unfold np_array.
  rewrite E in *. cbn [map].
  rewrite (Hrow (name0, data0) (or_introl eq_refl)).
  replace (forallb _ _) with true.
  - cbn [length]. now rewrite length_map.
  - symmetry. apply forallb_forall. intros r Hr. apply in_map_iff in Hr.
    destruct Hr as (item & <- & Hitem). apply Nat.eqb_eq.
    apply Hrow. now right.
Qed.

(** The body of the loop over the objects. *)
Lemma object_matrix (i : nat) :
  (i < n)%nat ->
  (do matrix <- for_each (fun item =>
      if negb (dict_mem factors_params (fst item)) then Raise ValueError
      else
        do x_value <- py_getitem (snd item) (Z.of_nat i);
        do level_params <- dict_get factors_params (fst item);
        for_each (fun level =>
                    lower_bound_level_membership x_value level_params level
                      (Z.of_nat (length level_params)))
                 (map Z.of_nat (seq 1 (length level_params))))
      factors_data;
    np_array matrix) =
  Ok (matrix_of_object factors_data factors_params h i).
Proof.
  intros Hi.
  rewrite (for_each_map _
             (fun item => membership_row (nth i (snd item) 0)
                            (params_of factors_params (fst item)))).
  - cbn [bind]. apply np_array_rows.
  - intros [name data] Hin. cbn [fst snd].
    destruct Hfit as [_ Hall].
    destruct (Hall name data Hin) as (Hlen & params & Hp & Hl).
    rewrite (dict_get_mem _ _ _ Hp). cbn [negb].
    rewrite (py_getitem_nth data (Z.of_nat i) 0) by lia. cbn [bind].
    rewrite Hp. cbn [bind]. rewrite Nat2Z.id.
    unfold params_of. rewrite Hp. apply levels_loop.
Qed.

Lemma normalized_matrix_result :
  calculate_normalized_matrix factors_data factors_params =
  Ok (map (fun i => (object_name i, matrix_of_object factors_data factors_params h i))
          (seq 0 n)).
Proof.
  unfold calculate_normalized_matrix.
  destruct Hfit as [(name0 & data0 & rest & E & Hn) _].
  rewrite E at 1. cbn [map snd py_getitem length bind].
  replace (py_getitem (data0 :: map snd rest) 0) with (Ok data0) by reflexivity.
  cbn [bind]. rewrite Hn.
  rewrite (for_items_map _ (matrix_of_object factors_data factors_params h)).
  - now rewrite map_map.
  - unfold dict_wf. rewrite map_map. cbn [fst].
    apply object_names_distinct, seq_NoDup.
  - intros name i Hin. apply in_map_iff in Hin.
    destruct Hin as (i' & [= <- <-] & Hi'). apply in_seq in Hi'.
    apply object_matrix. lia.
Qed.

End NormalizedMatrix.

Lemma nth_error_map_seq_any {A : Type} (g : nat -> A) (n i : nat) (x : A) :
  nth_error (map g (seq 0 n)) i = Some x -> (i < n)%nat /\ x = g i.
Proof.
  intros H.
  assert (i < n)%nat as Hi.
  { assert (nth_error (map g (seq 0 n)) i <> None) as Hn by congruence.
    apply nth_error_Some in Hn. now rewrite length_map, length_seq in Hn. }
  split; [exact Hi |].
  rewrite nth_error_map in H.
  rewrite (nth_error_nth' (seq 0 n) 0%nat) in H by (now rewrite length_seq).
  rewrite seq_nth in H by exact Hi. cbn in H. congruence.
Qed.

Lemma matrix_of_object_wf (factors_data factors_params : dict (list R)) (n h i : nat) :
  factors_fit factors_data factors_params n h ->
  ndarray_wf (matrix_of_object factors_data factors_params h i).
Proof.
  intros [_ Hall]. unfold ndarray_wf, matrix_of_object. cbn [rows nrows ncols].
  split; [apply length_map |].
  apply Forall_forall. intros r Hr. apply in_map_iff in Hr.
  destruct Hr as ([name data] & <- & Hin). cbn [fst snd].
  rewrite membership_row_length.
  destruct (Hall name data Hin) as (_ & params & Hp & Hl).
  unfold params_of. now rewrite Hp.
Qed.

Lemma nth_map_seq_from (F : nat -> R) (s n j : nat) :
  (j < n)%nat -> nth j (map F (seq s n)) 0 = F (s + j)%nat.
Proof.
  intros Hj.
  rewrite (nth_indep (map F (seq s n)) 0 (F 0%nat))
    by (now rewrite length_map, length_seq).
  rewrite map_nth, seq_nth by exact Hj. reflexivity.
Qed.

Lemma matrix_of_object_entry
    (factors_data factors_params : dict (list R)) (h i f j : nat)
    (fname : string) (data params : list R) :
  nth_error factors_data f = Some (fname, data) ->
  dict_get factors_params fname = Ok params ->
  length params = h ->
  (j < h)%nat ->
  lower_bound_level_membership (nth i data 0) params (Z.of_nat (S j)) (Z.of_nat h) =
  Ok (entry (matrix_of_object factors_data factors_params h i) f j).
Proof.
  intros Hf Hp Hl Hj. unfold entry, matrix_of_object. cbn [rows].
  rewrite (nth_error_nth _ _ [] (map_nth_error _ _ _ Hf)). cbn [fst snd].
  unfold params_of. rewrite Hp. unfold membership_row. rewrite Hl, map_map.
  rewrite (nth_map_seq_from _ 1 h j Hj).
  replace (1 + j)%nat with (S j) by lia.
  apply membership_returns; [now rewrite Hl | lia].
Qed.

(** X16.  When every factor has h thresholds among the parameters and at
    least the n values of the first factor, [calculate_normalized_matrix]
    returns n matrices named T1 .. Tn, each with one row per factor and h
    columns, whose entry for a factor and a level is the membership of the
    object's value for that factor in that level; with n > 0 the result is a
    well-formed input of the aggregations. *)
Theorem normalized_matrix_structure
    (factors_data factors_params : dict (list R)) (n h : nat) :
  factors_fit factors_data factors_params n h ->
  exists d,
    calculate_normalized_matrix factors_data factors_params = Ok d /\
    map fst d = map object_name (seq 0 n) /\
    (forall i name m, nth_error d i = Some (name, m) ->
       ndarray_wf m /\ nrows m = length factors_data /\ ncols m = h /\
       forall f fname data params j,
         nth_error factors_data f = Some (fname, data) ->
         dict_get factors_params fname = Ok params ->
         (j < h)%nat ->
         lower_bound_level_membership (nth i data 0) params
           (Z.of_nat (S j)) (Z.of_nat h) = Ok (entry m f j)) /\
    (n <> 0%nat -> matrices_wf d (length factors_data) h).
Proof.
  intros Hfit. eexists.
  split; [apply (normalized_matrix_result _ _ n h Hfit) |].
  split; [now rewrite map_map |]. split.
  - intros i name m Hnth. apply nth_error_map_seq_any in Hnth.
    destruct Hnth as [Hi [= -> ->]].
    split; [now apply (matrix_of_object_wf _ _ n) |].
    split; [reflexivity |]. split; [reflexivity |].
    intros f fname data params j Hf Hp Hj.
    destruct Hfit as [_ Hall].
    destruct (Hall fname data (nth_error_In _ _ Hf)) as (_ & params' & Hp' & Hl).
    assert (params' = params) as -> by congruence.
    exact (matrix_of_object_entry _ _ h i f j fname data params Hf Hp Hl Hj).
  - intros Hn. split; [destruct n; [contradiction | discriminate] |]. split.
    + unfold dict_wf. rewrite map_map. cbn [fst].
      apply object_names_distinct, seq_NoDup.
    + intros name m Hin. apply in_map_iff in Hin.
      destruct Hin as (i & [= <- <-] & _).
      split; [now apply (matrix_of_object_wf _ _ n) |]. now split.
Qed.

Lemma sample_factors_fit :
  factors_fit get_sample_factors_data get_predefined_factors_params 7 4.
Proof.
  split.
  - do 3 eexists. split; reflexivity.
  - intros name data Hin. cbn in Hin.
    destruct Hin as [[= <- <-] | [[= <- <-] | [[= <- <-] | [[= <- <-] | []]]]];
      (split; [cbn; lia | eexists; split; reflexivity]).
Qed.

Lemma normalized_matrix_structure_witness :
  factors_fit get_sample_factors_data get_predefined_factors_params 7 4 /\
  exists d,
    calculate_normalized_matrix get_sample_factors_data get_predefined_factors_params
      = Ok d /\
    map fst d = map object_name (seq 0 7) /\
    matrices_wf d 4 4.
Proof.
  split; [exact sample_factors_fit |].
  destruct (normalized_matrix_structure _ _ 7 4 sample_factors_fit)
    as (d & E & Hn & _ & Hwf).
  exists d. split; [exact E |]. split; [exact Hn |]. apply Hwf. lia.
Defined.

Example object_names :
  map object_name (seq 0 3) = ["T1"; "T2"; "T3"]%string /\
  object_name 9 = "T10"%string.
Proof. split; reflexivity. Qed.

(** The matrices of [calculate_normalized_matrix] are a well-formed input of
    the aggregations. *)
Lemma normalized_matrices_wf (factors_data factors_params : dict (list R)) (n h : nat) :
  factors_fit factors_data factors_params n h -> n <> 0%nat ->
  matrices_wf
    (map (fun i => (object_name i, matrix_of_object factors_data factors_params h i))
         (seq 0 n))
    (length factors_data) h.
Proof.
  intros Hfit Hn. split; [destruct n; [contradiction | discriminate] |]. split.
  - unfold dict_wf. rewrite map_map. cbn [fst].
    apply object_names_distinct, seq_NoDup.
  - intros name m Hin. apply in_map_iff in Hin.
    destruct Hin as (i & [= <- <-] & _).
    split; [now apply (matrix_of_object_wf _ _ n) |]. now split.
Qed.

Lemma matrix_of_object_in_unit
    (factors_data factors_params : dict (list R)) (n h i : nat) :
  factors_fit factors_data factors_params n h ->
  (forall name data params, In (name, data) factors_data ->
     dict_get factors_params name = Ok params ->
     strictly_decreasing params /\ Forall (fun t => 0 <= t) params) ->
  entries_in_unit (matrix_of_object factors_data factors_params h i).
Proof.
  intros [_ Hall] Hth. unfold entries_in_unit, matrix_of_object. cbn [rows].
  apply Forall_forall. intros r Hr. apply in_map_iff in Hr.
  destruct Hr as ([name data] & <- & Hin). cbn [fst snd].
  destruct (Hall name data Hin) as (_ & params & Hp & Hl).
  unfold params_of. rewrite Hp.
  destruct (Hth name data params Hin Hp) as [Hsd Hpos].
  unfold membership_row. apply Forall_forall. intros v Hv.
  apply in_map_iff in Hv. destruct Hv as (level & <- & Hlev).
  apply in_map_iff in Hlev. destruct Hlev as (k & <- & Hk). apply in_seq in Hk.
  destruct (membership_range (nth i data 0) params (Z.of_nat (length params))
              (Z.of_nat k) Hsd Hpos eq_refl) as (mu & E & Hmu); [lia |].
  unfold membership_value. now rewrite E.
Qed.

(** X17.  The matrices of [calculate_normalized_matrix] feed the TOPSIS
    chain: when the data and the parameters fit, there is at least one
    object, the thresholds of every factor are non-negative and strictly
    decreasing and the weights fit the factors, the matrices are computed,
    all their entries lie in [0, 1], the chain returns on them, and the
    relative closeness and the comprehensive membership of every object and
    level lie in [0, 1]. *)
Theorem normalized_matrix_then_topsis
    (factors_data factors_params : dict (list R)) (n h : nat)
    (weights : option (list R)) :
  factors_fit factors_data factors_params n h ->
  n <> 0%nat ->
  (forall name data params, In (name, data) factors_data ->
     dict_get factors_params name = Ok params ->
     strictly_decreasing params /\ Forall (fun t => 0 <= t) params) ->
  weights_fit weights (length factors_data) ->
  exists d D V U,
    calculate_normalized_matrix factors_data factors_params = Ok d /\
    (forall name m, In (name, m) d -> entries_in_unit m) /\
    topsis_chain d weights = Ok (D, V, U) /\
    all_in_unit_interval V /\ all_in_unit_interval U.
Proof.
  intros Hfit Hn Hth Hw.
  pose proof (normalized_matrices_wf _ _ n h Hfit Hn) as Hd.
  pose proof (topsis_chain_by_formula _ weights _ _ Hd Hw) as E.
  do 4 eexists.
  split; [apply (normalized_matrix_result _ _ n h Hfit) |].
  split; [| split; [exact E |]].
  - intros name m Hin. apply in_map_iff in Hin.
    destruct Hin as (i & [= <- <-] & _).
    now apply (matrix_of_object_in_unit _ _ n).
  - destruct Hd as (_ & _ & Hall). split.
    + apply levels_in_unit_interval. intros name m j _ _. apply V_range.
    + apply levels_in_unit_interval. intros name m j Hin Hj.
      apply U_range. destruct (Hall name m Hin) as (_ & _ & ->). exact Hj.
Qed.

Lemma predefined_params_decreasing :
  forall name data params, In (name, data) get_sample_factors_data ->
    dict_get get_predefined_factors_params name = Ok params ->
    strictly_decreasing params /\ Forall (fun t => 0 <= t) params.
Proof.
  intros name data params Hin Hp. cbn in Hin.
  destruct Hin as [[= <- <-] | [[= <- <-] | [[= <- <-] | [[= <- <-] | []]]]];
    cbn in Hp; injection Hp as <-;
    (split; [cbn; lra | repeat constructor; lra]).
Qed.

Lemma normalized_matrix_then_topsis_witness :
  factors_fit get_sample_factors_data get_predefined_factors_params 7 4 /\
  weights_fit (Some [0.32; 0.24; 0.24; 0.20]) (length get_sample_factors_data) /\
  exists d D V U,
    calculate_normalized_matrix get_sample_factors_data get_predefined_factors_params
      = Ok d /\
    (forall name m, In (name, m) d -> entries_in_unit m) /\
    topsis_chain d (Some [0.32; 0.24; 0.24; 0.20]) = Ok (D, V, U) /\
    all_in_unit_interval V /\ all_in_unit_interval U.
Proof.
  assert (weights_fit (Some [0.32; 0.24; 0.24; 0.20])
            (length get_sample_factors_data)) as Hw.
  { split; [reflexivity | repeat constructor; lra]. }
  split; [exact sample_factors_fit |]. split; [exact Hw |].
  apply (normalized_matrix_then_topsis _ _ 7 4 _ sample_factors_fit);
    [lia | exact predefined_params_decreasing | exact Hw].
Defined.

(** A loop stops at the first item that raises. *)
Lemma for_each_raises {A B : Type} (f : A -> result B)
    (pre : list A) (a : A) (post : list A) (e : exn) :
  Forall (fun b => exists r, f b = Ok r) pre ->
  f a = Raise e ->
  for_each f (pre ++ a :: post) = Raise e.
Proof.
  intros Hpre Ha. induction Hpre as [| b pre' [r Hb] _ IH]; cbn [app for_each].
  - now rewrite Ha.
  - rewrite Hb. cbn [bind]. now rewrite IH.
Qed.

Lemma dict_mem_get {V : Type} (d : dict V) (k : string) :
  dict_mem d k = true -> exists v, dict_get d k = Ok v.
Proof.
  unfold dict_mem. induction d as [| [k' v'] t IH]; cbn; [discriminate |].
  destruct (String.eqb k' k); [intros _; now exists v' | exact IH].
Qed.

Lemma py_getitem_head {A : Type} (a : A) (l : list A) : py_getitem (a :: l) 0 = Ok a.
Proof. reflexivity. Qed.

(** An error of the first object is the error of the call. *)
Lemma first_object_raises
    (factors_data factors_params : dict (list R))
    (name0 : string) (x : R) (xs : list R) (rest : dict (list R)) (e : exn) :
  factors_data = (name0, x :: xs) :: rest ->
  for_each (fun item =>
      if negb (dict_mem factors_params (fst item)) then Raise ValueError
      else
        do x_value <- py_getitem (snd item) (Z.of_nat 0);
        do level_params <- dict_get factors_params (fst item);
        for_each (fun level =>
                    lower_bound_level_membership x_value level_params level
                      (Z.of_nat (length level_params)))
                 (map Z.of_nat (seq 1 (length level_params))))
      factors_data = Raise e ->
  calculate_normalized_matrix factors_data factors_params = Raise e.
Proof.
  intros E Hloop. unfold calculate_normalized_matrix.
  rewrite E at 1. cbn [map snd]. rewrite py_getitem_head. cbn [bind length seq map].
  cbn [for_items]. now rewrite Hloop.
Qed.

(** X18.  [calculate_normalized_matrix] stops at the first factor, in the
    order of the data, that it cannot handle for the first object: when the
    first factor has a value, every factor before some factor has thresholds
    and a value, and that factor has no thresholds or no value, the call
    raises; the error is ValueError when the thresholds are missing (whether
    or not there is a value) and IndexError otherwise. *)
Theorem normalized_matrix_first_error
    (factors_params : dict (list R))
    (pre : dict (list R)) (name : string) (data : list R) (post : dict (list R)) :
  Forall (fun item => dict_mem factors_params (fst item) = true /\ snd item <> []) pre ->
  (pre = [] -> data <> []) ->
  dict_mem factors_params name = false \/ data = [] ->
  calculate_normalized_matrix (pre ++ (name, data) :: post) factors_params =
  Raise (if dict_mem factors_params name then IndexError else ValueError).
Proof.
  intros Hpre Hfirst Hbad.
  assert (exists name0 x xs rest, pre ++ (name, data) :: post = (name0, x :: xs) :: rest)
    as (name0 & x & xs & rest & E).
  { destruct pre as [| [name0 data0] pre'].
    - destruct data as [| x xs]; [now contradiction Hfirst |].
      now exists name, x, xs, post.
    - apply Forall_inv in Hpre. cbn [fst snd] in Hpre. destruct Hpre as [_ Hne].
      destruct data0 as [| x xs]; [contradiction |].
      now exists name0, x, xs, (pre' ++ (name, data) :: post). }
  apply (first_object_raises _ _ name0 x xs rest _ E).
  apply for_each_raises.
  - apply Forall_forall. intros [fname fdata] Hin.
    apply (proj1 (Forall_forall _ _) Hpre) in Hin. cbn [fst snd] in Hin |- *.
    destruct Hin as [Hmem Hne]. rewrite Hmem. cbn [negb].
    destruct fdata as [| y ys]; [contradiction |]. rewrite py_getitem_head.
    destruct (dict_mem_get _ _ Hmem) as [params Hp]. rewrite Hp. cbn [bind].
    rewrite levels_loop. now eexists.
  - cbn [fst snd]. destruct (dict_mem factors_params name) eqn:Hmem; cbn [negb].
    + destruct Hbad as [Hbad | ->]; [discriminate | reflexivity].
    + reflexivity.
Qed.

Lemma normalized_matrix_first_error_witness :
  calculate_normalized_matrix
    ([("f1"%string, [16.92; 0])] ++ ("f2"%string, [160.17; 86.91]) :: [])
    [("f1"%string, [15; 10; 5; 2])] = Raise ValueError /\
  calculate_normalized_matrix
    ([("f1"%string, [16.92; 0])] ++ ("f2"%string, []) :: [])
    get_predefined_factors_params = Raise IndexError.
Proof.
  split.
  - apply (normalized_matrix_first_error [("f1"%string, [15; 10; 5; 2])]
             [("f1"%string, [16.92; 0])] "f2" [160.17; 86.91] []).
    + constructor; [split; [reflexivity | discriminate] | constructor].
    + discriminate.
    + left. reflexivity.
  - apply (normalized_matrix_first_error get_predefined_factors_params
             [("f1"%string, [16.92; 0])] "f2" [] []).
    + constructor; [split; [reflexivity | discriminate] | constructor].
    + discriminate.
    + right. reflexivity.
Defined.

(** X19.  [calculate_normalized_matrix] looks at nothing when there is no
    object: data without any factor raise IndexError, and when the first
    factor has no value the result is the empty dict, whatever the other
    factors and the parameters are. *)
Theorem normalized_matrix_without_objects (factors_params : dict (list R)) :
  calculate_normalized_matrix [] factors_params = Raise IndexError /\
  forall (name : string) (rest : dict (list R)),
    calculate_normalized_matrix ((name, []) :: rest) factors_params = Ok [].
Proof. split; [reflexivity |]. intros name rest. reflexivity. Qed.

(** Strictly decreasing thresholds, index by index. *)
Lemma strictly_decreasing_nth (a : list R) :
  strictly_decreasing a <->
  forall i, (i + 1 < length a)%nat -> nth i a 0 > nth (i + 1) a 0.
Proof.
  induction a as [| a1 t IH]; [cbn; split; [intros _ i Hi; lia | trivial] |].
  destruct t as [| a2 t'].
  - cbn. split; [intros _ i Hi; lia | trivial].
  - change (strictly_decreasing (a1 :: a2 :: t'))
      with (a1 > a2 /\ strictly_decreasing (a2 :: t')).
    rewrite IH. split.
    + intros [H1 Ht] [| i] Hi; [exact H1 |].
      apply (Ht i). cbn [length] in Hi |- *. lia.
    + intros H. split; [apply (H 0%nat); cbn [length]; lia |].
      intros i Hi. apply (H (S i)). cbn [length] in Hi |- *. lia.
Qed.

Lemma order_loop_length (field : string) (params : list R) (indices : list nat) :
  (length (order_loop field params indices) <= 1)%nat.
Proof.
  induction indices as [| i rest IH]; cbn [order_loop]; [cbn; lia |].
  destruct (nth i params 0 <=? nth (i + 1) params 0); [cbn; lia | exact IH].
Qed.

Lemma order_loop_nil (field : string) (params : list R) (indices : list nat) :
  order_loop field params indices = [] <->
  forall i, In i indices -> nth i params 0 > nth (i + 1) params 0.
Proof.
  induction indices as [| i rest IH]; cbn [order_loop].
  - split; [intros _ i [] | reflexivity].
  - unfold Rleb at 1. destruct (Rle_dec (nth i params 0) (nth (i + 1) params 0)) as [Hle | Hgt].
    + split; [discriminate |]. intros H.
      specialize (H i (or_introl eq_refl)). lra.
    + rewrite IH. split.
      * intros H j [<- | Hj]; [lra | now apply H].
      * intros H j Hj. apply H. now right.
Qed.

(** X20.  The check of [validate_membership_config] on the parameters of a
    field (a list of numbers) records no error exactly when there are at
    least two parameters and they are strictly decreasing, and it records
    at most one error for the field. *)
Theorem level_params_validation (field : string) (params : list R) :
  (level_params_errors field params = [] <->
   (2 <= length params)%nat /\ strictly_decreasing params) /\
  (length (level_params_errors field params) <= 1)%nat.
Proof.
  unfold level_params_errors.
  destruct (length params <? 2)%nat eqn:E2;
    [apply Nat.ltb_lt in E2 | apply Nat.ltb_ge in E2].
  - assert ((1 <? length params)%nat = false) as -> by (apply Nat.ltb_ge; lia).
    split.
    + split; [discriminate | lia].
    + cbn. lia.
  - assert ((1 <? length params)%nat = true) as -> by (apply Nat.ltb_lt; lia).
    cbn [app]. split.
    + rewrite order_loop_nil, strictly_decreasing_nth. split.
      * intros H. split; [exact E2 |]. intros i Hi. apply H, in_seq. lia.
      * intros [_ H] i Hi. apply in_seq in Hi. apply H. lia.
    + apply order_loop_length.
Qed.
